(** * HtmlPreprocessor (openmdao/visualization/htmlpp.py)

    A shallow embedding of the recursive directive expander and of the
    properties its specification states about it.

    Conventions of the embedding.
    - A Python [str] is a [string]; a character is a code point below 256.
      A Python [bytes] object is a [string] too, one character per byte; the
      two are kept apart by the constructors of [pyval].
    - A raised exception is the [Raise] branch of [result]; the exception
      classes the module can raise are the constructors of [exn].
    - [self.loaded_filenames] is the only attribute that is mutated after
      construction; it is threaded through the calls as a [registry].
    - Python's bounded call stack is the [depth] argument of
      [parse_contents]: the number of nested activations still available.
      An activation that finds none left raises [RecursionError].
    - The machine is a POSIX system whose text files use a one-byte
      encoding: a text-mode read gives one character per byte, after
      universal newlines.
    - [self.msg] only prints when [verbose] is set; printing and the
      [rlvl] indentation counter do not influence any result and are left
      out. *)

From Stdlib Require Import String Ascii List Bool Arith NArith ZArith Lia.
From Stdlib Require Import DecimalString.
Import ListNotations.
Local Open Scope list_scope.
Local Open Scope string_scope.

(* ===================================================================== *)
(** ** Exceptions and the error monad *)
(* ===================================================================== *)

Inductive exn : Type :=
| FileNotFoundError
| FileExistsError
| ValueError_undefined_variable (arg : string)
| ValueError_unrecognized_directive (keyword : string)
| TypeError
| UnicodeDecodeError
| RecursionError.

Inductive result (A : Type) : Type :=
| Return (a : A)
| Raise (e : exn).
Arguments Return {A} a.
Arguments Raise {A} e.

Definition bind {A B : Type} (c : result A) (f : A -> result B) : result B :=
  match c with
  | Return a => f a
  | Raise e => Raise e
  end.

Notation "x <- c ;; k" := (bind c (fun x => k))
  (at level 61, c at next level, right associativity).
Notation "' pat <- c ;; k" := (bind c (fun x => match x with pat => k end))
  (at level 61, pat pattern, c at next level, right associativity).

(* ===================================================================== *)
(** ** Python strings *)
(* ===================================================================== *)

Module PyStr.

(** [s[:n]] *)
Fixpoint take (n : nat) (s : string) : string :=
  match n, s with
  | 0, _ => EmptyString
  | S n', String c s' => String c (take n' s')
  | S _, EmptyString => EmptyString
  end.

(** [sub in s] *)
Fixpoint contains (sub s : string) : bool :=
  prefix sub s ||
  match s with
  | EmptyString => false
  | String _ s' => contains sub s'
  end.

(** Worker of [replace] for a non-empty [old]: a left-to-right scan that
    substitutes every non-overlapping occurrence.  [skip] counts the
    characters of an occurrence still to be dropped. *)
Fixpoint replace_from (old new : string) (skip : nat) (s : string) : string :=
  match s with
  | EmptyString => EmptyString
  | String c s' =>
      match skip with
      | S n => replace_from old new n s'
      | 0 =>
          if prefix old s
          then new ++ replace_from old new (String.length old - 1) s'
          else String c (replace_from old new 0 s')
      end
  end.

(** With an empty [old], Python inserts [new] before every character and
    at the end. *)
Fixpoint intersperse (new s : string) : string :=
  match s with
  | EmptyString => new
  | String c s' => new ++ String c (intersperse new s')
  end.

(** [s.replace(old, new)] *)
Definition replace (old new s : string) : string :=
  match old with
  | EmptyString => intersperse new s
  | String _ _ => replace_from old new 0 s
  end.

(** [sep.join(parts)] *)
Fixpoint join (sep : string) (parts : list string) : string :=
  match parts with
  | [] => EmptyString
  | [p] => p
  | p :: ps => p ++ sep ++ join sep ps
  end.

(** [s.split(sep)] for a one-character separator. *)
Fixpoint split_on (sep : ascii) (cur : string) (s : string) : list string :=
  match s with
  | EmptyString => [cur]
  | String c s' =>
      if Ascii.eqb c sep
      then cur :: split_on sep EmptyString s'
      else split_on sep (cur ++ String c EmptyString) s'
  end.

End PyStr.

(* ===================================================================== *)
(** ** The [re] module: a backtracking matcher *)
(* ===================================================================== *)

Module Re.

(** Pattern syntax, as far as [keyword_regex] uses it.  [x?] is
    [Alt x Eps] and [x+] is [Cat x (Star x)]; both are greedy, as
    alternatives are tried left to right. *)
Inductive regex : Type :=
| Eps
| Chr (c : ascii)
| Cls (p : ascii -> bool)
| Cat (r1 r2 : regex)
| Alt (r1 r2 : regex)
| Star (r : regex)
| Grp (n : nat) (r : regex).

Definition Opt (r : regex) : regex := Alt r Eps.
Definition Plus (r : regex) : regex := Cat r (Star r).

Fixpoint Lit (s : string) : regex :=
  match s with
  | EmptyString => Eps
  | String c s' => Cat (Chr c) (Lit s')
  end.

(** The numbered groups of a match; [None] for a group that did not
    participate. *)
Definition groups : Type := nat -> option string.

Definition no_groups : groups := fun _ => None.

Definition gset (n : nat) (v : string) (g : groups) : groups :=
  fun i => if Nat.eqb i n then Some v else g i.

(** The text consumed between input [s] and its suffix [s']. *)
Definition consumed (s s' : string) : string :=
  PyStr.take (String.length s - String.length s') s.

Definition orelse {A : Type} (a b : option A) : option A :=
  match a with
  | Some x => Some x
  | None => b
  end.

(** The loop of a greedy [x*]: one more [x], as long as it consumes
    input, before the continuation is tried.  [step] matches one [x];
    [n] bounds the iterations by the length of the input. *)
Fixpoint star_iter {A : Type}
         (step : string -> groups -> (string -> groups -> option A) -> option A)
         (k : string -> groups -> option A)
         (n : nat) (s : string) (g : groups) {struct n} : option A :=
  match n with
  | 0 => k s g
  | S n' =>
      orelse
        (step s g
           (fun s' g' =>
              if Nat.ltb (String.length s') (String.length s)
              then star_iter step k n' s' g' else None))
        (k s g)
  end.

(** [rmatch r s g k] matches [r] at the start of [s] and hands the rest
    of the input and the groups to the continuation [k]; when [k] fails
    the matcher backtracks into [r]. *)
Fixpoint rmatch {A : Type} (r : regex) (s : string) (g : groups)
         (k : string -> groups -> option A) {struct r} : option A :=
  match r with
  | Eps => k s g
  | Chr c =>
      match s with
      | String c' s' => if Ascii.eqb c' c then k s' g else None
      | EmptyString => None
      end
  | Cls p =>
      match s with
      | String c' s' => if p c' then k s' g else None
      | EmptyString => None
      end
  | Cat r1 r2 => rmatch r1 s g (fun s' g' => rmatch r2 s' g' k)
  | Alt r1 r2 => orelse (rmatch r1 s g k) (rmatch r2 s g k)
  | Star r1 => star_iter (rmatch r1) k (String.length s) s g
  | Grp n r1 =>
      rmatch r1 s g (fun s' g' => k s' (gset n (consumed s s') g'))
  end.

(** A match object: [group i] is [m i]; group 0 is the whole match. *)
Definition re_match : Type := groups.

Definition group (m : re_match) (i : nat) : option string := m i.

(** [re.match]-like: the match of [r] that starts at the beginning of [s]. *)
Definition match_here (r : regex) (s : string) : option re_match :=
  rmatch r s no_groups (fun s' g => Some (gset 0 (consumed s s') g)).

Definition group0 (m : re_match) : string :=
  match m 0 with
  | Some s => s
  | None => EmptyString
  end.

(** Worker of [finditer]: tries every start position from left to right
    and resumes after the end of each match.  [skip] counts the
    characters of the last match still to be passed. *)
Fixpoint finditer_from (r : regex) (skip : nat) (s : string) : list re_match :=
  match s with
  | EmptyString =>
      match skip, match_here r EmptyString with
      | 0, Some m => [m]
      | _, _ => []
      end
  | String _ s' =>
      match skip with
      | S n => finditer_from r n s'
      | 0 =>
          match match_here r s with
          | Some m => m :: finditer_from r (String.length (group0 m) - 1) s'
          | None => finditer_from r 0 s'
          end
      end
  end.

(** [re.finditer(r, s)], the non-overlapping matches in scan order. *)
Definition finditer (r : regex) (s : string) : list re_match :=
  finditer_from r 0 s.

(** [\s] on code points below 256: TAB..CR, FS..US, SPACE, NEL, NBSP. *)
Definition is_space (c : ascii) : bool :=
  let n := nat_of_ascii c in
  (((9 <=? n) && (n <=? 13)) || ((28 <=? n) && (n <=? 32))
   || (n =? 133) || (n =? 160))%nat.

Definition ws : regex := Cls is_space.
Definition nonws : regex := Cls (fun c => negb (is_space c)).

End Re.

Import Re.

Infix "+++" := Cat (at level 60, right associativity).

(** The pattern of [parse_contents]:
    [(//|/\*|<\!--)?\s*<<\s*hpp_(insert|script|style|bin2b64|pyvar)\s+(\S+)(\s+compress|\s+dup)?\s*>>(\*/|-->)?] *)
Definition keyword_regex : regex :=
  Opt (Grp 1 (Alt (Lit "//") (Alt (Lit "/*") (Lit "<!--"))))
  +++ Star ws
  +++ Lit "<<"
  +++ Star ws
  +++ Lit "hpp_"
  +++ Grp 2 (Alt (Lit "insert") (Alt (Lit "script") (Alt (Lit "style")
             (Alt (Lit "bin2b64") (Lit "pyvar")))))
  +++ Plus ws
  +++ Grp 3 (Plus nonws)
  +++ Opt (Grp 4 (Alt (Plus ws +++ Lit "compress") (Plus ws +++ Lit "dup")))
  +++ Star ws
  +++ Lit ">>"
  +++ Opt (Grp 5 (Alt (Lit "*/") (Lit "-->"))).


(* ===================================================================== *)
(** ** Values and library functions *)
(* ===================================================================== *)

Definition nl : string := String (ascii_of_nat 10) EmptyString.
Definition dquote : string := String (ascii_of_nat 34) EmptyString.

(** What the module takes from outside and the embedding leaves open:
    floating-point formatting, [json.dumps] together with the caller's
    [default] hook, and the DEFLATE stream that [zlib.compress] produces
    for a [bytes] argument. *)
Class PyRuntime : Type := {
  pyfloat : Type;
  pyobject : Type;
  pydefault : Type;
  float_str : pyfloat -> string;
  json_dumps : pyobject -> pydefault -> result string;
  zlib_deflate : string -> string
}.

(** A value handed to a library function that checks its argument's type
    at run time. *)
Inductive pyval : Type :=
| PStr (s : string)
| PBytes (b : string).

Module Codec.

Definition hex_digit (n : nat) : ascii :=
  match get n "0123456789abcdef" with
  | Some c => c
  | None => "0"%char
  end.

(** One byte inside [repr(bytes)], delimited by [quote]. *)
Definition repr_byte (quote : ascii) (c : ascii) : string :=
  let n := nat_of_ascii c in
  if Ascii.eqb c quote || Ascii.eqb c "\"%char
  then String "\"%char (String c EmptyString)
  else if (n =? 9)%nat then "\t"
  else if (n =? 10)%nat then "\n"
  else if (n =? 13)%nat then "\r"
  else if (n <? 32)%nat || (127 <=? n)%nat
  then String "\"%char (String "x"%char
         (String (hex_digit (n / 16)) (String (hex_digit (n mod 16)) EmptyString)))
  else String c EmptyString.

Fixpoint repr_body (quote : ascii) (b : string) : string :=
  match b with
  | EmptyString => EmptyString
  | String c b' => repr_byte quote c ++ repr_body quote b'
  end.

(** [repr(b)] of a [bytes] object: [b'...'], or [b"..."] when the
    payload has a single quote and no double quote. *)
Definition bytes_repr (b : string) : string :=
  let quote :=
    if PyStr.contains "'" b && negb (PyStr.contains dquote b)
    then ascii_of_nat 34 else "'"%char in
  String "b"%char (String quote (repr_body quote b ++ String quote EmptyString)).

(** [str(v)] *)
Definition str (v : pyval) : string :=
  match v with
  | PStr s => s
  | PBytes b => bytes_repr b
  end.

Definition b64_digit (n : N) : ascii :=
  match get (N.to_nat n)
          "ABCDEFGHIJKLMNOPQRSTUVWXYZabcdefghijklmnopqrstuvwxyz0123456789+/" with
  | Some c => c
  | None => "="%char
  end.

(** RFC 4648 encoding of a byte string. *)
Fixpoint b64 (b : string) : string :=
  match b with
  | EmptyString => EmptyString
  | String x EmptyString =>
      let x := N_of_ascii x in
      String (b64_digit (N.shiftr x 2))
        (String (b64_digit (N.shiftl (N.land x 3) 4)) "==")
  | String x (String y EmptyString) =>
      let x := N_of_ascii x in
      let y := N_of_ascii y in
      String (b64_digit (N.shiftr x 2))
        (String (b64_digit (N.lor (N.shiftl (N.land x 3) 4) (N.shiftr y 4)))
           (String (b64_digit (N.shiftl (N.land y 15) 2)) "="))
  | String x (String y (String z b')) =>
      let x := N_of_ascii x in
      let y := N_of_ascii y in
      let z := N_of_ascii z in
      String (b64_digit (N.shiftr x 2))
        (String (b64_digit (N.lor (N.shiftl (N.land x 3) 4) (N.shiftr y 4)))
           (String (b64_digit (N.lor (N.shiftl (N.land y 15) 2) (N.shiftr z 6)))
              (String (b64_digit (N.land z 63)) (b64 b'))))
  end.

(** [base64.b64encode(v)]: a [bytes] result; a [str] argument is
    rejected with [TypeError]. *)
Definition b64encode (v : pyval) : result string :=
  match v with
  | PBytes b => Return (b64 b)
  | PStr _ => Raise TypeError
  end.

(** [zlib.compress(v)]: likewise only for a bytes-like argument. *)
Definition zlib_compress `{PyRuntime} (v : pyval) : result string :=
  match v with
  | PBytes b => Return (zlib_deflate b)
  | PStr _ => Raise TypeError
  end.

Fixpoint all_ascii (b : string) : bool :=
  match b with
  | EmptyString => true
  | String c b' => (nat_of_ascii c <? 128)%nat && all_ascii b'
  end.

(** [b.decode("ascii")] *)
Definition decode_ascii (b : string) : result string :=
  if all_ascii b then Return b else Raise UnicodeDecodeError.

(** [s.encode('utf8')] on code points below 256. *)
Fixpoint encode_utf8 (s : string) : string :=
  match s with
  | EmptyString => EmptyString
  | String c s' =>
      let n := N_of_ascii c in
      if (n <? 128)%N
      then String c (encode_utf8 s')
      else String (ascii_of_N (N.lor 192 (N.shiftr n 6)))
             (String (ascii_of_N (N.lor 128 (N.land n 63))) (encode_utf8 s'))
  end.

(** Universal newlines of a text-mode read: [\r\n] and [\r] become [\n]. *)
Fixpoint universal_newlines (s : string) : string :=
  match s with
  | EmptyString => EmptyString
  | String c s' =>
      if (nat_of_ascii c =? 13)%nat
      then match s' with
           | String c' s'' =>
               if (nat_of_ascii c' =? 10)%nat
               then universal_newlines s'
               else String (ascii_of_nat 10) (universal_newlines s')
           | EmptyString => nl
           end
      else String c (universal_newlines s')
  end.

End Codec.

(** The values a variable of [var_dict] can hold: those whose type is one
    of [str], [bool], [int], [float], and all the others. *)
Inductive primitive `{PyRuntime} : Type :=
| VStr (s : string)
| VBool (b : bool)
| VInt (z : Z)
| VFloat (f : pyfloat).

Inductive pyvalue `{PyRuntime} : Type :=
| Prim (p : primitive)
| Obj (o : pyobject).

(** [str(val)] for a value of primitive type. *)
Definition str_primitive `{PyRuntime} (val : primitive) : string :=
  match val with
  | VStr s => s
  | VBool true => "True"
  | VBool false => "False"
  | VInt z => NilZero.string_of_int (Z.to_int z)
  | VFloat f => float_str f
  end.

(* ===================================================================== *)
(** ** Paths and files *)
(* ===================================================================== *)

(** An entry of [loaded_filenames]: the [Path] built for a relative
    reference, or the reference itself, a [str], when it is absolute.  A
    [Path] never equals a [str]. *)
Inductive pathname : Type :=
| PurePath (parts : list string)
| StrPath (s : string).

Definition pathname_eqb (p q : pathname) : bool :=
  match p, q with
  | PurePath a, PurePath b =>
      if list_eq_dec string_dec a b then true else false
  | StrPath a, StrPath b => String.eqb a b
  | _, _ => false
  end.

(** [Path(filename).is_absolute()] on a POSIX system. *)
Definition is_absolute (filename : string) : bool := prefix "/" filename.

(** The components [pathlib] keeps of a relative reference: empty ones and
    [.] are dropped. *)
Definition path_parts (filename : string) : list string :=
  filter (fun p => negb (String.eqb p "" || String.eqb p "."))
         (PyStr.split_on "/"%char EmptyString filename).

(** [os.fspath]: the name handed to [open]. *)
Definition fspath (p : pathname) : string :=
  match p with
  | PurePath parts => "/" ++ PyStr.join "/" parts
  | StrPath s => s
  end.

(** The regular files of the machine, by the name they are opened
    with, each with its bytes.  Text mode decodes one byte to one character
    and applies universal newlines. *)
Definition filesystem : Type := string -> option string.

Definition is_file (fs : filesystem) (name : string) : bool :=
  match fs name with
  | Some _ => true
  | None => false
  end.

(** [open(name, mode).read()] *)
Definition read_file (fs : filesystem) (name : string) (binary : bool)
  : result pyval :=
  match fs name with
  | None => Raise FileNotFoundError
  | Some bytes =>
      if binary then Return (PBytes bytes)
      else Return (PStr (Codec.universal_newlines bytes))
  end.

(** [open(name, "w").write(text)] followed by [close()]. *)
Definition write_file (fs : filesystem) (name : string) (text : string)
  : filesystem :=
  fun n => if String.eqb n name then Some text else fs n.

(* ===================================================================== *)
(** ** The preprocessor *)
(* ===================================================================== *)

Definition registry : Type := list pathname.

Section Preprocessor.

Context `{PyRuntime}.

(** The attributes set by [__init__] and never assigned afterwards. *)
Record HtmlPreprocessor : Type := {
  start_filename : string;
  start_dirname : list string;
  output_filename : string;
  allow_overwrite : bool;
  var_dict : option (string -> option pyvalue);
  json_dumps_default : pydefault
}.

(** [__init__]; [resolved_parent] stands for
    [Path(start_filename).resolve().parent]. *)
Definition init (fs : filesystem) (resolved_parent : list string)
           (start_filename output_filename : string) (allow_overwrite : bool)
           (var_dict : option (string -> option pyvalue))
           (json_dumps_default : pydefault)
  : result (HtmlPreprocessor * registry) :=
  if negb (is_file fs start_filename) then Raise FileNotFoundError
  else if is_file fs output_filename && negb allow_overwrite
  then Raise FileExistsError
  else Return ({| start_filename := start_filename;
                  start_dirname := resolved_parent;
                  output_filename := output_filename;
                  allow_overwrite := allow_overwrite;
                  var_dict := var_dict;
                  json_dumps_default := json_dumps_default |}, []).

Variable self : HtmlPreprocessor.
Variable fs : filesystem.

Definition resolve_pathname (filename : string) : pathname :=
  if negb (is_absolute filename)
  then PurePath (start_dirname self ++ path_parts filename)%list
  else StrPath filename.

(** [load_file(self, filename, rlvl, binary, allow_dup)] *)
Definition load_file (loaded : registry) (filename : string)
           (binary allow_dup : bool) : result (string * registry) :=
  let pathname := resolve_pathname filename in
  if existsb (pathname_eqb pathname) loaded && negb allow_dup
  then Return (EmptyString, loaded)
  else
    let loaded := (loaded ++ [pathname])%list in
    data <- read_file fs (fspath pathname) binary ;;
    let file_contents := Codec.str data in
    if binary
    then
      encoded <- Codec.b64encode (PStr file_contents) ;;
      text <- Codec.decode_ascii encoded ;;
      Return (Codec.str (PStr text), loaded)
    else Return (file_contents, loaded).

Record flag_table : Type := { compress : bool; dup : bool }.

(** The [flags] dictionary built from group 4. *)
Definition read_flags (group4 : option string) : flag_table :=
  match group4 with
  | Some g =>
      if PyStr.contains "compress" g
      then {| compress := true; dup := false |}
      else if PyStr.contains "dup" g
      then {| compress := false; dup := true |}
      else {| compress := false; dup := false |}
  | None => {| compress := false; dup := false |}
  end.

(** [keyword == name] for a group that may be [None]. *)
Definition is_keyword (keyword : option string) (name : string) : bool :=
  match keyword with
  | Some k => String.eqb k name
  | None => false
  end.

(** A group used where a [str] is required. *)
Definition as_str (g : option string) : result string :=
  match g with
  | Some s => Return s
  | None => Raise TypeError
  end.

(** [f"{g}"] *)
Definition format_group (g : option string) : string :=
  match g with
  | Some s => s
  | None => "None"
  end.

(** The variables the loop of [parse_contents] carries from one
    directive to the next. *)
Record loop_state : Type := {
  contents : string;
  new_content : option string;
  loaded_filenames : registry
}.

(** [str(base64.b64encode(zlib.compress(v)).decode("ascii"))] *)
Definition compress_text (v : pyval) : result string :=
  deflated <- Codec.zlib_compress v ;;
  encoded <- Codec.b64encode (PBytes deflated) ;;
  text <- Codec.decode_ascii encoded ;;
  Return (Codec.str (PStr text)).

(** The [pyvar] branch: the replacement and whether it is still to be
    compressed. *)
Definition pyvar_content (arg : option string) (flags : flag_table)
  : result (string * bool) :=
  match var_dict self with
  | None => Raise TypeError
  | Some table =>
      match match arg with Some a => table a | None => None end with
      | Some val =>
          match val with
          | Prim p => Return (str_primitive p, compress flags)
          | Obj o =>
              raw_data <- json_dumps o (json_dumps_default self) ;;
              if compress flags
              then
                text <- compress_text (PBytes (Codec.encode_utf8 raw_data)) ;;
                Return (text, false)
              else Return (raw_data, false)
          end
      | None => Raise (ValueError_undefined_variable (format_group arg))
      end
  end.

Section Body.

(** The recursive call [self.parse_contents(text, rlvl)]. *)
Variable recurse : registry -> string -> result (string * registry).

(** The first half of a loop iteration: the dispatch on [keyword] and
    the compression step, giving the final [new_content]. *)
Definition resolve_directive (loaded : registry) (found_directive : re_match)
  : result (string * registry) :=
  let keyword := group found_directive 2 in
  let arg := group found_directive 3 in
  let flags := read_flags (group found_directive 4) in
  '(content, do_compress, loaded) <-
    (if is_keyword keyword "insert" then
       filename <- as_str arg ;;
       '(text, loaded) <- load_file loaded filename false false ;;
       '(expanded, loaded) <- recurse loaded text ;;
       Return (expanded, false, loaded)
     else if is_keyword keyword "script" then
       filename <- as_str arg ;;
       '(text, loaded) <- load_file loaded filename false (dup flags) ;;
       '(expanded, loaded) <- recurse loaded text ;;
       if negb (String.eqb expanded "")
       then Return ("<script type=" ++ dquote ++ "text/javascript" ++ dquote
                      ++ ">" ++ nl ++ expanded ++ nl ++ "</script>",
                    compress flags, loaded)
       else Return (expanded, false, loaded)
     else if is_keyword keyword "style" then
       filename <- as_str arg ;;
       '(text, loaded) <- load_file loaded filename false false ;;
       '(expanded, loaded) <- recurse loaded text ;;
       Return ("<style type=" ++ dquote ++ "text/css" ++ dquote ++ ">" ++ nl
                 ++ expanded ++ nl ++ "</style>", false, loaded)
     else if is_keyword keyword "bin2b64" then
       filename <- as_str arg ;;
       '(text, loaded) <- load_file loaded filename true false ;;
       Return (text, false, loaded)
     else if is_keyword keyword "pyvar" then
       '(text, do_compress) <- pyvar_content arg flags ;;
       Return (text, do_compress, loaded)
     else
       Raise (ValueError_unrecognized_directive (format_group keyword))) ;;
  content <-
    (if do_compress : bool then compress_text (PStr content)
     else Return content) ;;
  Return (content, loaded).

(** One iteration of the [for found_directive in matches] loop: the
    resolution, then the textual replacement of the matched span.  Every
    branch of the dispatch that does not raise assigns [new_content], so
    the test [new_content is not None] holds whenever it is reached. *)
Definition handle_directive (st : loop_state) (found_directive : re_match)
  : result loop_state :=
  let full_match := group0 found_directive in
  '(content, loaded) <- resolve_directive (loaded_filenames st) found_directive ;;
  Return {| contents := PyStr.replace full_match content (contents st);
            new_content := Some content;
            loaded_filenames := loaded |}.

Fixpoint for_each (matches : list re_match) (st : loop_state)
  : result loop_state :=
  match matches with
  | [] => Return st
  | found_directive :: rest =>
      st' <- handle_directive st found_directive ;;
      for_each rest st'
  end.

(** The body of [parse_contents]. *)
Definition parse_body (loaded : registry) (text : string)
  : result (string * registry) :=
  let matches := finditer keyword_regex text in
  st <- for_each matches {| contents := text;
                            new_content := None;
                            loaded_filenames := loaded |} ;;
  Return (contents st, loaded_filenames st).

End Body.

(** [parse_contents(self, contents, rlvl)] with [depth] activations
    left on the call stack. *)
Fixpoint parse_contents (depth : nat) (loaded : registry) (text : string)
  : result (string * registry) :=
  match depth with
  | 0 => Raise RecursionError
  | S d => parse_body (parse_contents d) loaded text
  end.

(** [self.parse_contents(self.load_file(self.start_filename))] *)
Definition expand_start (depth : nat) (loaded : registry)
  : result (string * registry) :=
  '(text, loaded) <- load_file loaded (start_filename self) false false ;;
  parse_contents depth loaded text.

(** [run(self)]: the outcome and the files afterwards. *)
Definition run (depth : nat) (loaded : registry)
  : result unit * filesystem :=
  match expand_start depth loaded with
  | Raise e => (Raise e, fs)
  | Return (new_html_content, _) =>
      if is_file fs (output_filename self) && negb (allow_overwrite self)
      then (Raise FileExistsError, fs)
      else (Return tt, write_file fs (output_filename self) new_html_content)
  end.

End Preprocessor.

(** The text a bound variable stands for: its [str] form when its type is
    primitive, its JSON serialization otherwise. *)
Definition value_text `{PyRuntime} (self : HtmlPreprocessor) (val : pyvalue)
  : result string :=
  match val with
  | Prim p => Return (str_primitive p)
  | Obj o => json_dumps o (json_dumps_default self)
  end.

Module Demo.
Fixpoint dumps_ints (l : list Z) : string :=
  match l with
  | [] => ""
  | [z] => NilZero.string_of_int (Z.to_int z)
  | z :: l' => NilZero.string_of_int (Z.to_int z) ++ ", " ++ dumps_ints l'
  end.

Definition adler32 (b : string) : N :=
  let fix go (b : string) (lo hi : N) : N :=
    match b with
    | EmptyString => (hi * 65536 + lo)%N
    | String c b' =>
        let lo := ((lo + N_of_ascii c) mod 65521)%N in
        go b' lo ((hi + lo) mod 65521)%N
    end in
  go b 1%N 0%N.

Definition byte (n : N) : string :=
  String (ascii_of_N (n mod 256)) EmptyString.

(** A zlib stream with one stored block, for payloads under 64 KiB. *)
Definition stored_deflate (b : string) : string :=
  let len := N.of_nat (String.length b) in
  let nlen := (65535 - len)%N in
  let sum := adler32 b in
  byte 120 ++ byte 1 ++ byte 1
    ++ byte len ++ byte (len / 256) ++ byte nlen ++ byte (nlen / 256)
    ++ b
    ++ byte (sum / 16777216) ++ byte (sum / 65536) ++ byte (sum / 256)
    ++ byte sum.

Definition runtime : PyRuntime :=
  {| pyfloat := Empty_set;
     pyobject := list Z;
     pydefault := unit;
     float_str := fun f => match f with end;
     json_dumps := fun o _ => Return ("[" ++ dumps_ints o ++ "]");
     zlib_deflate := stored_deflate |}.

Definition files : filesystem :=
  fun name =>
    if String.eqb name "/site/a.txt" then Some "A<<hpp_pyvar x>>A"
    else if String.eqb name "/site/index.html" then Some "<h1>// <<hpp_insert a.txt>></h1>"
    else if String.eqb name "/site/f.bin" then Some "abc"
    else if String.eqb name "/site/broken.html" then Some "<p><<hpp_pyvar nope>></p>"
    else None.

Definition vars : string -> option (@pyvalue runtime) :=
  fun name =>
    if String.eqb name "x" then Some (Prim (VStr "hello"))
    else if String.eqb name "d" then Some (Prim (VStr "<<hpp_insert a.txt>>"))
    else if String.eqb name "l" then Some (Obj (([1;2;3])%Z : @pyobject runtime))
    else None.

Definition pp : @HtmlPreprocessor runtime :=
  {| start_filename := "index.html";
     start_dirname := ["site"];
     output_filename := "out.html";
     allow_overwrite := false;
     var_dict := Some vars;
     json_dumps_default := tt |}.

(** The same run started from a page that names an unbound variable. *)
Definition pp_broken : @HtmlPreprocessor runtime :=
  {| start_filename := "broken.html";
     start_dirname := ["site"];
     output_filename := "out.html";
     allow_overwrite := false;
     var_dict := Some vars;
     json_dumps_default := tt |}.

(** The files once [out.html] has been produced. *)
Definition files_with_output : filesystem :=
  write_file files "out.html" "<h1>old</h1>".

(** [self.parse_contents(text)] on a fresh preprocessor. *)
Definition expand (text : string) : result (string * registry) :=
  @parse_contents runtime pp files 10 [] text.
End Demo.


(* ===================================================================== *)
(** ** What a pattern denotes *)
(* ===================================================================== *)

Module ReSem.

(** Zero or more consecutive words of [P], threading the groups. *)
Inductive iterated (P : string -> groups -> groups -> Prop)
  : string -> groups -> groups -> Prop :=
| iterated_nil g : iterated P EmptyString g g
| iterated_cons w1 w2 g g1 g2 :
    P w1 g g1 -> iterated P w2 g1 g2 -> iterated P (w1 ++ w2) g g2.

(** [sem r w g g']: the word [w] is in the language of [r], and matching
    it turns the groups [g] into [g']. *)
Fixpoint sem (r : regex) (w : string) (g g' : groups) : Prop :=
  match r with
  | Eps => w = EmptyString /\ g' = g
  | Chr c => w = String c EmptyString /\ g' = g
  | Cls p => exists c, p c = true /\ w = String c EmptyString /\ g' = g
  | Cat r1 r2 =>
      exists w1 w2 g1, w = w1 ++ w2 /\ sem r1 w1 g g1 /\ sem r2 w2 g1 g'
  | Alt r1 r2 => sem r1 w g g' \/ sem r2 w g g'
  | Star r1 => iterated (sem r1) w g g'
  | Grp n r1 => exists g1, sem r1 w g g1 /\ g' = gset n w g1
  end.

(** Every character of [w] satisfies [p]. *)
Fixpoint all_chars (p : ascii -> bool) (w : string) : bool :=
  match w with
  | EmptyString => true
  | String c w' => p c && all_chars p w'
  end.

End ReSem.

Import ReSem.

(** The five keywords of the pattern. *)
Definition recognized (keyword : option string) : Prop :=
  keyword = Some "insert" \/ keyword = Some "script" \/ keyword = Some "style"
  \/ keyword = Some "bin2b64" \/ keyword = Some "pyvar".

(** A flag group as the pattern admits it: absent, or white space followed
    by one of the two flag words. *)
Definition admitted_flag (group4 : option string) : Prop :=
  group4 = None
  \/ exists sp, all_chars is_space sp = true
       /\ (group4 = Some (sp ++ "compress") \/ group4 = Some (sp ++ "dup")).

(* ===================================================================== *)
(** ** Vocabulary of the properties *)
(* ===================================================================== *)

(** The matcher is sound for [r]: an input it accepts starts with a word
    of [r], and the continuation accepted what follows the word. *)
Definition sound_for (A : Type) (r : regex) : Prop :=
  forall (s : string) (g : groups) (k : string -> groups -> option A) (x : A),
    rmatch r s g k = Some x ->
    exists w s' g', s = w ++ s' /\ sem r w g g' /\ k s' g' = Some x.

(** [(//|/\*|<\!--)?] *)
Definition opener_regex : regex :=
  Opt (Grp 1 (Alt (Lit "//") (Alt (Lit "/*") (Lit "<!--")))).

(** [(insert|script|style|bin2b64|pyvar)] *)
Definition kind_regex : regex :=
  Grp 2 (Alt (Lit "insert") (Alt (Lit "script") (Alt (Lit "style")
          (Alt (Lit "bin2b64") (Lit "pyvar"))))).

(** [(\s+compress|\s+dup)?] *)
Definition flag_regex : regex :=
  Opt (Grp 4 (Alt (Plus ws +++ Lit "compress") (Plus ws +++ Lit "dup"))).

(** [(\*/|-->)?] *)
Definition closer_regex : regex :=
  Opt (Grp 5 (Alt (Lit "*/") (Lit "-->"))).

(** The anatomy of a matched span: its nine consecutive pieces and what
    each of them leaves in the groups. *)
Inductive directive_span (w : string) (g : groups) : Prop :=
| span_intro (opener sp0 sp1 kind sp2 arg flag sp3 closer : string)
    (span_text :
       w = opener ++ sp0 ++ "<<" ++ sp1 ++ "hpp_" ++ kind ++ sp2 ++ arg
             ++ flag ++ sp3 ++ ">>" ++ closer)
    (span_opener :
       (opener = "" /\ g 1 = None)
       \/ ((opener = "//" \/ opener = "/*" \/ opener = "<!--")
           /\ g 1 = Some opener))
    (span_sp0 : all_chars is_space sp0 = true)
    (span_sp1 : all_chars is_space sp1 = true)
    (span_kind : recognized (Some kind) /\ g 2 = Some kind)
    (span_sp2 : all_chars is_space sp2 = true /\ sp2 <> "")
    (span_arg :
       all_chars (fun c => negb (is_space c)) arg = true
       /\ arg <> "" /\ g 3 = Some arg)
    (span_flag :
       (flag = "" /\ g 4 = None)
       \/ (exists sp, all_chars is_space sp = true /\ sp <> ""
             /\ (flag = sp ++ "compress" \/ flag = sp ++ "dup")
             /\ g 4 = Some flag))
    (span_sp3 : all_chars is_space sp3 = true)
    (span_closer :
       (closer = "" /\ g 5 = None)
       \/ ((closer = "*/" \/ closer = "-->") /\ g 5 = Some closer)).

(** [l'] is [l] with further entries appended. *)
Definition extends (l l' : registry) : Prop :=
  exists more : registry, l' = (l ++ more)%list.

(** What is required of the recursive call. *)
Definition growing (recurse : registry -> string -> result (string * registry))
  : Prop :=
  forall loaded text r loaded',
    recurse loaded text = Return (r, loaded') -> extends loaded loaded'.

(** The [i]-th occurrence found in [text]. *)
Definition occurrence (i : nat) (text : string) : re_match :=
  nth i (finditer keyword_regex text) no_groups.

(** [c] does not occur in [s]. *)
Definition lacks (c : ascii) (s : string) : bool :=
all_chars (fun x => negb (Ascii.eqb x c)) s.

(** [s] has no white space: it can stand for [\S+] once it is not empty. *)
Definition token (s : string) : bool :=
all_chars (fun c => negb (is_space c)) s.

(** A character of a plain word: neither white space nor [>]. *)
Definition plain (c : ascii) : bool :=
negb (is_space c) && negb (Ascii.eqb c ">").

(** [s] does not start with a character of the class [p]. *)
Definition head_outside (p : ascii -> bool) (s : string) : bool :=
match s with
| EmptyString => true
| String c _ => negb (p c)
end.

(* ===================================================================== *)
(** ** Vocabulary of the further properties *)
(* ===================================================================== *)

(** Every path of the registry names a file that is there. *)
Definition all_exist (fs : filesystem) (l : registry) : Prop :=
forall p, In p l -> is_file fs (fspath p) = true.

(** The recursive call relates the registry it is given and the registry
    it returns by [Q]. *)
Definition respects (Q : registry -> registry -> Prop)
           (recurse : registry -> string -> result (string * registry))
  : Prop :=
forall loaded text r loaded',
  recurse loaded text = Return (r, loaded') -> Q loaded loaded'.

(** The recursive call [recurse'] returns whatever [recurse] returns. *)
Definition at_least (recurse recurse' :
                       registry -> string -> result (string * registry))
  : Prop :=
forall loaded text r,
  recurse loaded text = Return r -> recurse' loaded text = Return r.

(** [p] is in the registry. *)
Definition seen (p : pathname) (l : registry) : bool :=
existsb (pathname_eqb p) l.

(** A second site: a page, a script, a style sheet and a fragment, under
    the directory the page is started from. *)
Module Site.

Definition files : filesystem :=
fun name =>
  if String.eqb name "index.html" then Some "<<hpp_style main.css>>"
  else if String.eqb name "/www/index.html" then Some "<<hpp_style main.css>>"
  else if String.eqb name "/www/main.css" then Some "body { margin: 0 }"
  else if String.eqb name "/www/app.js" then Some "start();"
  else if String.eqb name "/www/nested.html"
  then Some "<ul><<hpp_insert item.html>></ul>"
  else if String.eqb name "/www/item.html" then Some "<li>one</li>"
  else if String.eqb name "/www/loop.html"
  then Some "<p>again</p><<hpp_insert loop.html>><p>end</p>"
  else None.

Definition vars : string -> option (@pyvalue Demo.runtime) :=
fun name =>
  if String.eqb name "title" then Some (Prim (VStr "N2"))
  else if String.eqb name "count" then Some (Prim (VInt 3))
  else if String.eqb name "sizes" then
    Some (Obj (([4; 5])%Z : @pyobject Demo.runtime))
  else None.

Definition pp (overwrite : bool) : @HtmlPreprocessor Demo.runtime :=
{| start_filename := "index.html";
   start_dirname := ["www"];
   output_filename := "n2.html";
   allow_overwrite := overwrite;
   var_dict := Some vars;
   json_dumps_default := tt |}.

(** The same site entered at a page that inserts itself. *)
Definition pp_loop : @HtmlPreprocessor Demo.runtime :=
{| start_filename := "loop.html";
   start_dirname := ["www"];
   output_filename := "loop.out.html";
   allow_overwrite := false;
   var_dict := Some vars;
   json_dumps_default := tt |}.

(** A preprocessor constructed without [var_dict]. *)
Definition pp_bare : @HtmlPreprocessor Demo.runtime :=
{| start_filename := "index.html";
   start_dirname := ["www"];
   output_filename := "n2.html";
   allow_overwrite := false;
   var_dict := @None (string -> option (@pyvalue Demo.runtime));
   json_dumps_default := (tt : @pydefault Demo.runtime) |}.

(** The directive occurrence a one-directive buffer holds. *)
Definition directive (text : string) : re_match :=
nth 0 (finditer keyword_regex text) no_groups.

End Site.

(** A directive as it is written: [<<hpp_KIND ARG>>], [<<hpp_KIND ARG
    compress>>] or [<<hpp_KIND ARG dup>>]; [flag] is what stands between
    the argument and [>>]. *)
Definition directive_text (kind arg flag : string) : string :=
"<<hpp_" ++ kind ++ " " ++ arg ++ flag ++ ">>".

(** The groups a flag adds to a match. *)
Definition with_flag (flag : string) (g : groups) : groups :=
match flag with
| EmptyString => g
| String _ _ => gset 4 flag g
end.

(** The match object of such a directive that stands after the white
    space [indent]: the white space and the directive, the keyword, the
    argument, and the flag if there is one; no comment delimiter. *)
Definition directive_match (indent kind arg flag : string) : re_match :=
gset 0 (indent ++ directive_text kind arg flag)
  (with_flag flag (gset 3 arg (gset 2 kind no_groups))).

(** [s] is white space. *)
Definition blank (s : string) : Prop := all_chars is_space s = true.

(** What may stand before a directive as the start of a comment, and
    after it as the end of one; the empty string for none. *)
Definition comment_opener (opener : string) : Prop :=
opener = "" \/ opener = "//" \/ opener = "/*" \/ opener = "<!--".

Definition comment_closer (closer : string) : Prop :=
closer = "" \/ closer = "*/" \/ closer = "-->".

(** The groups an optional part adds to a match. *)
Definition with_group (n : nat) (v : string) (g : groups) : groups :=
match v with
| EmptyString => g
| String _ _ => gset n v g
end.

(** A directive inside a comment: the start of the comment, white space,
    the directive, and the end of the comment directly after [>>]. *)
Definition commented_text (opener gap kind arg flag closer : string) : string :=
opener ++ gap ++ directive_text kind arg flag ++ closer.

(** Its match object. *)
Definition commented_match (opener gap kind arg flag closer : string)
  : re_match :=
gset 0 (commented_text opener gap kind arg flag closer)
  (with_group 5 closer
     (with_flag flag (gset 3 arg (gset 2 kind (with_group 1 opener no_groups))))).

(** The flags as they are written after one blank. *)
Definition written_flag (flag : string) : Prop :=
flag = "" \/ flag = " compress" \/ flag = " dup".

(** An argument: a non-empty word without white space and without [<]. *)
Definition argument (arg : string) : Prop :=
arg <> "" /\ token arg = true /\ lacks "<" arg = true.

(** [s] does not end with a character of the class [p]. *)
Fixpoint last_outside (p : ascii -> bool) (s : string) : bool :=
match s with
| EmptyString => true
| String c EmptyString => negb (p c)
| String _ s' => last_outside p s'
end.

(** A character that a directive would take in when it follows it: white
    space, or the end of [//], [/*], [<!--] or of another [<]. *)
Definition attaching (c : ascii) : bool :=
is_space c || Ascii.eqb c "<" || Ascii.eqb c "/" || Ascii.eqb c "*"
|| Ascii.eqb c "-".

(** A character that extends [>>]: another [>], or the start of [*/] or
    [-->]. *)
Definition extending (c : ascii) : bool :=
Ascii.eqb c ">" || Ascii.eqb c "*" || Ascii.eqb c "-".

(** Text before a directive that stays out of its span: no [<<] in it,
    and no attaching character at its end. *)
Definition stays_before (before : string) : Prop :=
PyStr.contains "<<" before = false /\ last_outside attaching before = true.

(** Text after a directive that stays out of its span: neither [<<] nor
    [>>] in it, and no extending character at its start. *)
Definition stays_after (after : string) : Prop :=
PyStr.contains "<<" after = false /\ PyStr.contains ">>" after = false
/\ head_outside extending after = true.

(** What follows the argument in the pattern:
    [(\s+compress|\s+dup)?\s*>>(\*/|-->)?]. *)
Definition after_argument : regex :=
flag_regex +++ Star ws +++ Lit ">>" +++ closer_regex.

(* ===================================================================== *)
(** ** [funccomp.py]: variable names and metadata *)
(* ===================================================================== *)

Module FuncComp.

(** [[_a-zA-Z]] *)
Definition name_start (c : ascii) : bool :=
let n := nat_of_ascii c in
((n =? 95) || ((97 <=? n) && (n <=? 122)) || ((65 <=? n) && (n <=? 90)))%nat.

(** [[_a-zA-Z0-9]] *)
Definition name_char (c : ascii) : bool :=
let n := nat_of_ascii c in
(name_start c || ((48 <=? n) && (n <=? 57)))%nat.

(** [namecheck_rgx = re.compile('[_a-zA-Z][_a-zA-Z0-9]*')] *)
Definition namecheck_rgx : regex := Cls name_start +++ Star (Cls name_char).

(** Names that are not allowed for variables: the keywords for options. *)
Definition _disallowed_varnames : list string :=
["has_diag_partials"; "units"; "shape"; "shape_by_conn"; "run_root_only"].

(** The two [NameError]s of [_check_var_name], by what their message
    says about the name; the [msginfo] prefix of the message is left
    out. *)
Inductive name_error : Type :=
| NameError_not_valid (name : string)
| NameError_reserved (name : string).

(** [_check_var_name(self, name)] *)
Definition _check_var_name (name : string) : name_error + unit :=
match match_here namecheck_rgx name with
| None => inl (NameError_not_valid name)
| Some m =>
    if negb (String.eqb (group0 m) name)
    then inl (NameError_not_valid name)
    else if existsb (String.eqb name) _disallowed_varnames
    then inl (NameError_reserved name)
    else inr tt
end.

(** A name as one would spell the pattern out: a letter or an
    underscore, followed by letters, digits and underscores. *)
Definition identifier (name : string) : bool :=
match name with
| EmptyString => false
| String c s => name_start c && all_chars name_char s
end.

(** A [dict] with [str] keys, as the list of its items in insertion
    order; a key occurs once. *)
Definition dict (V : Type) : Type := list (string * V).

(** [d.get(k)] *)
Fixpoint dict_get {V : Type} (k : string) (d : dict V) : option V :=
match d with
| [] => None
| (k', v) :: d' => if String.eqb k' k then Some v else dict_get k d'
end.

(** [d[k] = v] *)
Fixpoint dict_set {V : Type} (k : string) (v : V) (d : dict V) : dict V :=
match d with
| [] => [(k, v)]
| (k', v') :: d' =>
    if String.eqb k' k then (k', v) :: d' else (k', v') :: dict_set k v d'
end.

(** [s.add(k)] on a [set] of [str], kept as a list without repetition. *)
Definition set_add (k : string) (s : list string) : list string :=
if existsb (String.eqb k) s then s else (s ++ [k])%list.

(** [sorted(s)] *)
Fixpoint insert_sorted (k : string) (l : list string) : list string :=
match l with
| [] => [k]
| x :: l' => if String.leb k x then k :: l else x :: insert_sorted k l'
end.

Definition sorted (s : list string) : list string :=
fold_right insert_sorted [] s.

(** The loop of [_copy_with_ignore] over [dct.items()]. *)
Fixpoint copy_loop {V : Type} (keepers : string -> bool)
         (items : list (string * V)) (kept : dict V) (ignored : list string)
  : dict V * list string :=
match items with
| [] => (kept, ignored)
| (k, v) :: rest =>
    if keepers k
    then copy_loop keepers rest (dict_set k v kept) ignored
    else copy_loop keepers rest kept (set_add k ignored)
end.

(** [_copy_with_ignore(dct, keepers, warn)]: the new dict, the set of
    ignored keys, and the keys that the warning lists if one is
    issued. *)
Definition _copy_with_ignore {V : Type} (dct : dict V)
           (keepers : string -> bool) (warn : bool)
  : dict V * list string * option (list string) :=
let '(kept, ignored) := copy_loop keepers dct [] [] in
(kept, ignored,
 if warn && negb (match ignored with [] => true | _ :: _ => false end)
 then Some (sorted ignored) else None).

End FuncComp.

(* ===================================================================== *)
(** ** Strings: basic facts *)
(* ===================================================================== *)

Lemma append_nil_r (s : string) : s ++ "" = s.
Proof. induction s as [|c s IH]; simpl; [reflexivity | now rewrite IH]. Qed.

Lemma append_assoc (a b c : string) : (a ++ b) ++ c = a ++ (b ++ c).
Proof. induction a as [|x a IH]; simpl; [reflexivity | now rewrite IH]. Qed.

Lemma length_append (a b : string) :
  String.length (a ++ b) = String.length a + String.length b.
Proof. induction a as [|x a IH]; simpl; [reflexivity | now rewrite IH]. Qed.

Lemma take_append (w s : string) : PyStr.take (String.length w) (w ++ s) = w.
Proof. induction w as [|c w IH]; simpl; [now destruct s | now rewrite IH]. Qed.

Lemma consumed_append (w s : string) : consumed (w ++ s) s = w.
Proof.
  unfold consumed. rewrite length_append.
  replace (String.length w + String.length s - String.length s)
    with (String.length w) by lia.
  apply take_append.
Qed.

(* ===================================================================== *)
(** ** The matcher only finds words of the pattern *)
(* ===================================================================== *)

Lemma orelse_some {A : Type} (a b : option A) (x : A) :
  orelse a b = Some x -> a = Some x \/ b = Some x.
Proof. destruct a; simpl; auto. Qed.

Section MatcherSound.

Variable A : Type.

Lemma star_iter_sound (r : regex) (k : string -> groups -> option A) :
  sound_for A r ->
  forall (n : nat) (s : string) (g : groups) (x : A),
    star_iter (rmatch r) k n s g = Some x ->
    exists w s' g', s = w ++ s' /\ iterated (sem r) w g g' /\ k s' g' = Some x.
Proof.
  intros Hr n. induction n as [|n IH]; intros s g x Hm; simpl in Hm.
  - exists EmptyString, s, g. repeat split; [constructor | assumption].
  - apply orelse_some in Hm. destruct Hm as [Hm | Hm].
    + apply Hr in Hm. destruct Hm as (w1 & s1 & g1 & Hs & Hw & Hk).
      destruct (Nat.ltb (String.length s1) (String.length s)); [|discriminate].
      apply IH in Hk. destruct Hk as (w2 & s2 & g2 & Hs2 & Hw2 & Hk2).
      exists (w1 ++ w2), s2, g2. repeat split.
      * rewrite append_assoc. now subst.
      * econstructor; eassumption.
      * assumption.
    + exists EmptyString, s, g. repeat split; [constructor | assumption].
Qed.

Lemma rmatch_sound (r : regex) : sound_for A r.
Proof.
  induction r as [ | c | p | r1 IH1 r2 IH2 | r1 IH1 r2 IH2 | r1 IH1 | n r1 IH1 ];
    intros s g k x Hm; simpl in Hm.
  - exists EmptyString, s, g. simpl. auto.
  - destruct s as [|c' s']; [discriminate|].
    destruct (Ascii.eqb_spec c' c); [subst | discriminate].
    exists (String c EmptyString), s', g. simpl. auto.
  - destruct s as [|c' s']; [discriminate|].
    destruct (p c') eqn:Hp; [|discriminate].
    exists (String c' EmptyString), s', g. simpl. eauto 6.
  - apply IH1 in Hm. destruct Hm as (w1 & s1 & g1 & Hs & Hw & Hk).
    apply IH2 in Hk. destruct Hk as (w2 & s2 & g2 & Hs2 & Hw2 & Hk2).
    exists (w1 ++ w2), s2, g2. repeat split.
    + rewrite append_assoc. now subst.
    + simpl. eauto 8.
    + assumption.
  - apply orelse_some in Hm. destruct Hm as [Hm | Hm].
    + apply IH1 in Hm. destruct Hm as (w & s' & g' & ? & ? & ?).
      exists w, s', g'. simpl. auto.
    + apply IH2 in Hm. destruct Hm as (w & s' & g' & ? & ? & ?).
      exists w, s', g'. simpl. auto.
  - apply star_iter_sound in Hm; assumption.
  - apply IH1 in Hm. destruct Hm as (w & s' & g' & Hs & Hw & Hk).
    exists w, s', (gset n w g'). repeat split.
    + assumption.
    + simpl. eauto.
    + subst s. now rewrite consumed_append in Hk.
Qed.

End MatcherSound.

Lemma match_here_sound (r : regex) (s : string) (m : re_match) :
  match_here r s = Some m ->
  exists w s' g', s = w ++ s' /\ sem r w no_groups g' /\ m = gset 0 w g'.
Proof.
  unfold match_here. intros Hm. apply rmatch_sound in Hm.
  destruct Hm as (w & s' & g' & Hs & Hw & Hk).
  exists w, s', g'. repeat split; try assumption.
  subst s. rewrite consumed_append in Hk. now inversion Hk.
Qed.

Lemma finditer_from_sound (r : regex) (text : string) (skip : nat) (m : re_match) :
  In m (finditer_from r skip text) ->
  exists pre w post g',
    text = pre ++ w ++ post /\ sem r w no_groups g' /\ m = gset 0 w g'.
Proof.
  revert skip.
  induction text as [|c text IH]; intros skip Hin; simpl in Hin.
  - destruct skip; [|contradiction].
    destruct (match_here r "") as [m'|] eqn:Hm; [|contradiction].
    destruct Hin as [<- | []].
    apply match_here_sound in Hm. destruct Hm as (w & s' & g' & Hs & Hw & Hg).
    exists EmptyString, w, s', g'. auto.
  - assert (Hrest : forall k, In m (finditer_from r k text) ->
              exists pre w post g',
                String c text = pre ++ w ++ post /\ sem r w no_groups g'
                /\ m = gset 0 w g').
    { intros k Hk. apply IH in Hk.
      destruct Hk as (pre & w & post & g' & Ht & Hw & Hg).
      exists (String c pre), w, post, g'. simpl. subst text. auto. }
    destruct skip as [|skip]; [|eauto].
    destruct (match_here r (String c text)) as [m'|] eqn:Hm; [|eauto].
    destruct Hin as [<- | Hin]; [|eauto].
    apply match_here_sound in Hm. destruct Hm as (w & s' & g' & Hs & Hw & Hg).
    exists EmptyString, w, s', g'. auto.
Qed.

(** Each match of a scan is a word of the pattern that occurs in the
    scanned text, with the groups the word sets. *)
Lemma finditer_sound (r : regex) (text : string) (m : re_match) :
  In m (finditer r text) ->
  exists pre w post g',
    text = pre ++ w ++ post /\ sem r w no_groups g' /\ m = gset 0 w g'.
Proof. apply finditer_from_sound. Qed.

(* ===================================================================== *)
(** ** The words of [keyword_regex] *)
(* ===================================================================== *)

Lemma sem_Lit (s w : string) (g g' : groups) :
  sem (Lit s) w g g' -> w = s /\ g' = g.
Proof.
  revert w g'. induction s as [|c s IH]; intros w g' Hs; simpl in Hs.
  - assumption.
  - destruct Hs as (w1 & w2 & g1 & Hw & (Hw1 & Hg1) & Hs).
    subst g1. apply IH in Hs. destruct Hs as [-> ->]. now subst.
Qed.

Lemma iterated_cls (p : ascii -> bool) (w : string) (g g' : groups) :
  iterated (sem (Cls p)) w g g' -> all_chars p w = true /\ g' = g.
Proof.
  induction 1 as [g | w1 w2 g g1 g2 Hw1 _ [IHw IHg]].
  - auto.
  - destruct Hw1 as (c & Hc & -> & ->). simpl. rewrite Hc, IHw. auto.
Qed.

Lemma sem_plus_cls (p : ascii -> bool) (w : string) (g g' : groups) :
  sem (Plus (Cls p)) w g g' ->
  all_chars p w = true /\ w <> "" /\ g' = g.
Proof.
  intros (w1 & w2 & g1 & -> & (c & Hc & -> & ->) & Hs).
  apply iterated_cls in Hs. destruct Hs as [Hw2 ->].
  simpl. rewrite Hc, Hw2. repeat split. discriminate.
Qed.

Lemma gset_same (n : nat) (v : string) (g : groups) : gset n v g n = Some v.
Proof. unfold gset. now rewrite Nat.eqb_refl. Qed.

Lemma gset_other (n i : nat) (v : string) (g : groups) :
  i <> n -> gset n v g i = g i.
Proof. unfold gset. intros Hi. apply Nat.eqb_neq in Hi. now rewrite Hi. Qed.

Lemma keyword_regex_parts :
  keyword_regex =
  opener_regex +++ Star ws +++ Lit "<<" +++ Star ws +++ Lit "hpp_"
  +++ kind_regex +++ Plus ws +++ Grp 3 (Plus nonws) +++ flag_regex
  +++ Star ws +++ Lit ">>" +++ closer_regex.
Proof. reflexivity. Qed.

Lemma sem_opener (w : string) (g g' : groups) :
  sem opener_regex w g g' ->
  (forall i, i <> 1 -> g' i = g i)
  /\ ((w = "" /\ g' 1 = g 1)
      \/ ((w = "//" \/ w = "/*" \/ w = "<!--") /\ g' 1 = Some w)).
Proof.
  unfold opener_regex, Opt. cbn [sem].
  intros [(g1 & Hw & ->) | [-> ->]].
  - assert (Hg : g1 = g /\ (w = "//" \/ w = "/*" \/ w = "<!--")).
    { destruct Hw as [Hw | [Hw | Hw]]; apply sem_Lit in Hw; tauto. }
    destruct Hg as [-> Hw'].
    split; [intros i Hi; now apply gset_other|].
    right. rewrite gset_same. auto.
  - auto.
Qed.

Lemma sem_kind (w : string) (g g' : groups) :
  sem kind_regex w g g' ->
  (forall i, i <> 2 -> g' i = g i) /\ recognized (Some w) /\ g' 2 = Some w.
Proof.
  unfold kind_regex. cbn [sem]. intros (g1 & Hw & ->).
  assert (Hg : g1 = g /\ recognized (Some w)).
  { unfold recognized.
    destruct Hw as [Hw | [Hw | [Hw | [Hw | Hw]]]];
      apply sem_Lit in Hw; destruct Hw as [-> ->]; tauto. }
  destruct Hg as [-> Hw'].
  split; [intros i Hi; now apply gset_other|].
  rewrite gset_same. auto.
Qed.

Lemma sem_arg (w : string) (g g' : groups) :
  sem (Grp 3 (Plus nonws)) w g g' ->
  (forall i, i <> 3 -> g' i = g i)
  /\ all_chars (fun c => negb (is_space c)) w = true /\ w <> ""
  /\ g' 3 = Some w.
Proof.
  cbn [sem]. intros (g1 & Hw & ->). apply sem_plus_cls in Hw.
  destruct Hw as (Hall & Hne & ->).
  split; [intros i Hi; now apply gset_other|].
  rewrite gset_same. auto.
Qed.

Lemma sem_flag (w : string) (g g' : groups) :
  sem flag_regex w g g' ->
  (forall i, i <> 4 -> g' i = g i)
  /\ ((w = "" /\ g' 4 = g 4)
      \/ (exists sp, all_chars is_space sp = true /\ sp <> ""
            /\ (w = sp ++ "compress" \/ w = sp ++ "dup") /\ g' 4 = Some w)).
Proof.
  unfold flag_regex, Opt. cbn [sem].
  intros [(g1 & Hw & ->) | [-> ->]].
  - assert (Hg : g1 = g
                 /\ exists sp, all_chars is_space sp = true /\ sp <> ""
                      /\ (w = sp ++ "compress" \/ w = sp ++ "dup")).
    { destruct Hw as [Hw | Hw];
        destruct Hw as (sp & w2 & g2 & -> & Hsp & Hlit);
        apply sem_plus_cls in Hsp; destruct Hsp as (Hall & Hne & ->);
        apply sem_Lit in Hlit; destruct Hlit as [-> ->];
        (split; [reflexivity | exists sp; auto]). }
    destruct Hg as (-> & sp & Hall & Hne & Hw').
    split; [intros i Hi; now apply gset_other|].
    right. rewrite gset_same. exists sp. auto.
  - auto.
Qed.

Lemma sem_closer (w : string) (g g' : groups) :
  sem closer_regex w g g' ->
  (forall i, i <> 5 -> g' i = g i)
  /\ ((w = "" /\ g' 5 = g 5)
      \/ ((w = "*/" \/ w = "-->") /\ g' 5 = Some w)).
Proof.
  unfold closer_regex, Opt. cbn [sem].
  intros [(g1 & Hw & ->) | [-> ->]].
  - assert (Hg : g1 = g /\ (w = "*/" \/ w = "-->")).
    { destruct Hw as [Hw | Hw]; apply sem_Lit in Hw; tauto. }
    destruct Hg as [-> Hw'].
    split; [intros i Hi; now apply gset_other|].
    right. rewrite gset_same. auto.
  - auto.
Qed.

Lemma keyword_regex_span (w : string) (g : groups) :
  sem keyword_regex w no_groups g -> directive_span w g.
Proof.
  rewrite keyword_regex_parts. cbn [sem].
  intros (opener & w1 & g1 & -> & Hop &
          sp0 & w2 & g2 & -> & Hsp0 &
          lt & w3 & g3 & -> & Hlt &
          sp1 & w4 & g4 & -> & Hsp1 &
          hpp & w5 & g5 & -> & Hhpp &
          kind & w6 & g6 & -> & Hkind &
          sp2 & w7 & g7 & -> & Hsp2 &
          arg & w8 & g8 & -> & Harg &
          flag & w9 & g9 & -> & Hflag &
          sp3 & w10 & g10 & -> & Hsp3 &
          gt & closer & g11 & -> & Hgt & Hcl).
  apply sem_opener in Hop. destruct Hop as [Hop1 Hop].
  apply iterated_cls in Hsp0. destruct Hsp0 as [Hsp0 ->].
  apply (sem_Lit "<<") in Hlt. destruct Hlt as [-> ->].
  apply iterated_cls in Hsp1. destruct Hsp1 as [Hsp1 ->].
  apply (sem_Lit "hpp_") in Hhpp. destruct Hhpp as [-> ->].
  apply sem_kind in Hkind. destruct Hkind as (Hk1 & Hkrec & Hk2).
  apply sem_plus_cls in Hsp2. destruct Hsp2 as (Hsp2 & Hsp2ne & ->).
  apply sem_arg in Harg. destruct Harg as (Ha1 & Hall & Hne & Ha3).
  apply sem_flag in Hflag. destruct Hflag as [Hf1 Hflag].
  apply iterated_cls in Hsp3. destruct Hsp3 as [Hsp3 ->].
  apply (sem_Lit ">>") in Hgt. destruct Hgt as [-> ->].
  apply sem_closer in Hcl. destruct Hcl as [Hc1 Hcl].
  assert (G1 : g 1 = g1 1).
  { rewrite Hc1, Hf1, Ha1, Hk1 by discriminate. reflexivity. }
  assert (G2 : g 2 = Some kind).
  { rewrite Hc1, Hf1, Ha1 by discriminate. exact Hk2. }
  assert (G3 : g 3 = Some arg).
  { rewrite Hc1, Hf1 by discriminate. exact Ha3. }
  assert (G4 : g 4 = g9 4).
  { rewrite Hc1 by discriminate. reflexivity. }
  assert (G4' : g8 4 = None).
  { rewrite Ha1, Hk1, Hop1 by discriminate. reflexivity. }
  assert (G5' : g9 5 = None).
  { rewrite Hf1, Ha1, Hk1, Hop1 by discriminate. reflexivity. }
  apply (span_intro _ _ opener sp0 sp1 kind sp2 arg flag sp3 closer).
  - reflexivity.
  - rewrite G1. destruct Hop as [[-> ->] | [Hw ->]]; [left | right]; auto.
  - assumption.
  - assumption.
  - auto.
  - auto.
  - auto.
  - rewrite G4. destruct Hflag as [[-> ->] | (sp & ? & ? & ? & ->)].
    + left. auto.
    + right. exists sp. auto.
  - assumption.
  - destruct Hcl as [[-> ->] | [Hw ->]]; [left | right]; auto.
Qed.

(** What the scan can yield. *)
Lemma finditer_keyword_span (text : string) (m : re_match) :
  In m (finditer keyword_regex text) ->
  exists pre post,
    text = pre ++ group0 m ++ post /\ directive_span (group0 m) m.
Proof.
  intros Hin. apply finditer_sound in Hin.
  destruct Hin as (pre & w & post & g' & Ht & Hw & ->).
  exists pre, post. unfold group0. rewrite gset_same. split; [assumption|].
  apply keyword_regex_span in Hw.
  destruct Hw as [op s0 s1 kd s2 ar fl s3 cl Htxt H1 H2 H3 H4 H5 H6 H7 H8 H9].
  apply (span_intro _ _ op s0 s1 kd s2 ar fl s3 cl);
    rewrite ?gset_other by discriminate; assumption.
Qed.

(* ===================================================================== *)
(** ** Textual replacement *)
(* ===================================================================== *)




(* ===================================================================== *)
(** ** The expander *)
(* ===================================================================== *)

Lemma bind_return {A B : Type} (c : result A) (f : A -> result B) (b : B) :
  bind c f = Return b -> exists a, c = Return a /\ f a = Return b.
Proof. destruct c as [a|e]; simpl; [eauto | discriminate]. Qed.

Section Expander.

Context `{PyRuntime}.
Variable self : HtmlPreprocessor.
Variable fs : filesystem.

Lemma parse_contents_unfold (d : nat) (loaded : registry) (text : string) :
  parse_contents self fs (S d) loaded text
  = parse_body self fs (parse_contents self fs d) loaded text.
Proof. reflexivity. Qed.

(** A scan that finds nothing leaves the loop without an iteration. *)
Lemma parse_body_no_match
      (recurse : registry -> string -> result (string * registry))
      (loaded : registry) (text : string) :
  finditer keyword_regex text = [] ->
  parse_body self fs recurse loaded text = Return (text, loaded).
Proof. unfold parse_body. intros ->. reflexivity. Qed.

Lemma parse_contents_no_match (d : nat) (loaded : registry) (text : string) :
  finditer keyword_regex text = [] ->
  parse_contents self fs (S d) loaded text = Return (text, loaded).
Proof.
  intros Hnone. rewrite parse_contents_unfold.
  now apply parse_body_no_match.
Qed.

Lemma parse_contents_empty (d : nat) (loaded : registry) :
  parse_contents self fs (S d) loaded "" = Return ("", loaded).
Proof. now apply parse_contents_no_match. Qed.

(** A scan that finds one directive runs the loop body once. *)
Lemma parse_body_one_match
      (recurse : registry -> string -> result (string * registry))
      (loaded : registry) (text : string) (m : re_match) :
  finditer keyword_regex text = [m] ->
  parse_body self fs recurse loaded text
  = ('(content, l) <- resolve_directive self fs recurse loaded m ;;
     Return (PyStr.replace (group0 m) content text, l)).
Proof.
  unfold parse_body. intros ->. cbn [for_each]. unfold handle_directive.
  cbn [loaded_filenames contents].
  destruct (resolve_directive self fs recurse loaded m) as [[content l]|e];
    reflexivity.
Qed.

(** [zlib.compress] is handed a [str] by the common compression step. *)
Lemma compress_text_of_str (s : string) :
  compress_text (PStr s) = Raise TypeError.
Proof. reflexivity. Qed.

(** A binary load hands [str(f.read())], a [str], to the encoder. *)
Lemma load_file_binary (loaded : registry) (filename : string) :
  match load_file self fs loaded filename true false with
  | Return (text, loaded') =>
      text = "" /\ loaded' = loaded
      /\ existsb (pathname_eqb (resolve_pathname self filename)) loaded = true
  | Raise e => e = TypeError \/ e = FileNotFoundError
  end.
Proof.
  unfold load_file.
  destruct (existsb _ loaded) eqn:Hseen; cbn [andb negb].
  - auto.
  - unfold read_file.
    destruct (fs (fspath (resolve_pathname self filename))); simpl; auto.
Qed.

End Expander.

(* ===================================================================== *)
(** ** The load registry only grows *)
(* ===================================================================== *)

Lemma extends_refl (l : registry) : extends l l.
Proof. exists []. now rewrite app_nil_r. Qed.

Lemma extends_trans (l1 l2 l3 : registry) :
  extends l1 l2 -> extends l2 l3 -> extends l1 l3.
Proof.
  intros [a ->] [b ->]. exists (a ++ b)%list. now rewrite app_assoc.
Qed.

Lemma extends_seen (l l' : registry) (p : pathname) :
  extends l l' ->
  existsb (pathname_eqb p) l = true -> existsb (pathname_eqb p) l' = true.
Proof. intros [more ->] Hp. rewrite existsb_app, Hp. reflexivity. Qed.

Lemma pathname_eqb_refl (p : pathname) : pathname_eqb p p = true.
Proof.
  destruct p as [parts|s]; simpl.
  - destruct (list_eq_dec string_dec parts parts); congruence.
  - apply String.eqb_refl.
Qed.

Create HintDb registry.
#[local] Hint Resolve extends_refl extends_trans : registry.

(** Takes a successful monadic computation apart, one step at a time. *)
Ltac split_pairs :=
  repeat match goal with
         | x : (_ * _)%type |- _ => destruct x
         end.

Ltac unbind H :=
  let a := fresh "a" in
  let Ha := fresh "Ha" in
  apply bind_return in H; destruct H as (a & Ha & H); split_pairs;
  cbv beta iota in H.

Section Registry.

Context `{PyRuntime}.
Variable self : HtmlPreprocessor.
Variable fs : filesystem.

Lemma load_file_extends (loaded loaded' : registry) (filename text : string)
      (binary allow_dup : bool) :
  load_file self fs loaded filename binary allow_dup = Return (text, loaded') ->
  extends loaded loaded'.
Proof.
  unfold load_file.
  destruct (existsb _ loaded && negb allow_dup).
  - intros [= _ <-]. auto with registry.
  - intros Hl. unbind Hl. destruct binary.
    + unbind Hl. unbind Hl. injection Hl as _ <-. now eexists.
    + injection Hl as _ <-. now eexists.
Qed.

(** After a successful load the path is in the registry. *)
Lemma load_file_seen (loaded loaded' : registry) (filename text : string)
      (binary allow_dup : bool) :
  load_file self fs loaded filename binary allow_dup = Return (text, loaded') ->
  existsb (pathname_eqb (resolve_pathname self filename)) loaded' = true.
Proof.
  unfold load_file.
  destruct (existsb _ loaded && negb allow_dup) eqn:Hseen.
  - intros [= _ <-]. now apply andb_prop in Hseen.
  - intros Hl.
    assert (Hnew : existsb (pathname_eqb (resolve_pathname self filename))
                     (loaded ++ [resolve_pathname self filename]) = true).
    { rewrite existsb_app. cbn [existsb]. rewrite pathname_eqb_refl.
      now rewrite orb_true_r. }
    unbind Hl. destruct binary.
    + unbind Hl. unbind Hl. now injection Hl as _ <-.
    + now injection Hl as _ <-.
Qed.

Lemma resolve_directive_extends
      (recurse : registry -> string -> result (string * registry))
      (loaded loaded' : registry) (m : re_match) (content : string) :
  growing recurse ->
  resolve_directive self fs recurse loaded m = Return (content, loaded') ->
  extends loaded loaded'.
Proof.
  intros Hrec. unfold resolve_directive. intros Hr.
  unbind Hr. unbind Hr. injection Hr as _ <-. clear Ha0.
  repeat match type of Ha with
         | (if ?c then _ else _) = _ => destruct c
         end;
    try discriminate;
    repeat (unbind Ha);
    repeat match goal with
           | Hl : load_file _ _ _ _ _ _ = Return _ |- _ =>
               apply load_file_extends in Hl
           | Hc : recurse _ _ = Return _ |- _ => apply Hrec in Hc
           end.
  - injection Ha as _ _ <-. eauto with registry.
  - destruct (negb _); injection Ha as _ _ <-; eauto with registry.
  - injection Ha as _ _ <-. eauto with registry.
  - injection Ha as _ _ <-. eauto with registry.
  - injection Ha as _ _ <-. eauto with registry.
Qed.

Lemma for_each_extends
      (recurse : registry -> string -> result (string * registry))
      (matches : list re_match) (st st' : loop_state) :
  growing recurse ->
  for_each self fs recurse matches st = Return st' ->
  extends (loaded_filenames st) (loaded_filenames st').
Proof.
  intros Hrec. revert st.
  induction matches as [|m matches IH]; intros st Hf; cbn [for_each] in Hf.
  - injection Hf as <-. auto with registry.
  - unbind Hf. apply IH in Hf. unfold handle_directive in Ha.
    unbind Ha. injection Ha as <-. cbn [loaded_filenames] in Hf.
    apply resolve_directive_extends in Ha0; eauto with registry.
Qed.

Lemma parse_contents_extends (depth : nat) : growing (parse_contents self fs depth).
Proof.
  induction depth as [|d IH]; intros loaded text r loaded' Hp.
  - discriminate.
  - rewrite parse_contents_unfold in Hp. unfold parse_body in Hp.
    unbind Hp. injection Hp as _ <-.
    apply for_each_extends in Ha; assumption.
Qed.

End Registry.

(* ===================================================================== *)
(** ** Text that looks like a directive and is none *)
(* ===================================================================== *)

Lemma all_chars_append (p : ascii -> bool) (a b : string) :
  all_chars p (a ++ b) = all_chars p a && all_chars p b.
Proof.
  induction a as [|c a IH]; simpl; [reflexivity|].
  now rewrite IH, andb_assoc.
Qed.

(** Two ways of cutting one text: one cut is a prefix of the other. *)
Lemma append_eq_split (a x b y : string) :
  a ++ x = b ++ y ->
  (exists t, b = a ++ t /\ x = t ++ y) \/ (exists t, a = b ++ t /\ y = t ++ x).
Proof.
  revert b. induction a as [|c a IH]; intros b Heq.
  - left. exists b. auto.
  - destruct b as [|c' b].
    + right. exists (String c a). auto.
    + simpl in Heq. injection Heq as -> Heq.
      destruct (IH _ Heq) as [(t & -> & ->) | (t & -> & ->)];
        [left | right]; exists t; auto.
Qed.

(** Where the only [<<] of a text is, is where any [<<] of it is. *)
Lemma marker_unique (X Y B T : string) :
  lacks "<" B = true -> lacks "<" T = true ->
  X ++ "<<" ++ Y = B ++ "<<" ++ T -> X = B /\ Y = T.
Proof.
  intros HB HT. revert X.
  induction B as [|c B IH]; intros X Heq.
  - destruct X as [|x X].
    + simpl in Heq. injection Heq as ->. auto.
    + exfalso. simpl in Heq. injection Heq as -> Heq.
      destruct X as [|x X]; simpl in Heq.
      * injection Heq as <-. discriminate HT.
      * injection Heq as -> <-. unfold lacks in HT.
        rewrite all_chars_append in HT. apply andb_prop in HT.
        destruct HT as [_ HT]. discriminate HT.
  - unfold lacks in HB. simpl in HB. apply andb_prop in HB.
    destruct HB as [Hc HB].
    destruct X as [|x X]; simpl in Heq.
    + injection Heq as <-. discriminate Hc.
    + injection Heq as -> Heq. apply IH in Heq; [|exact HB].
      destruct Heq as [-> ->]. auto.
Qed.

(** White space cannot run into a character that is none. *)
Lemma spaces_before_char (sp rest rest' : string) (c : ascii) :
  all_chars is_space sp = true -> is_space c = false ->
  sp ++ rest = String c rest' -> sp = "".
Proof.
  intros Hsp Hc Heq. destruct sp as [|x sp]; [reflexivity|].
  simpl in Heq, Hsp. injection Heq as -> _. rewrite Hc in Hsp. discriminate.
Qed.

(** A text that starts with a character of a token does not start with
    white space. *)
Lemma token_first_char (c : ascii) (s : string) :
  token (String c s) = true -> is_space c = false.
Proof.
  unfold token. simpl. intros Ht. apply andb_prop in Ht.
  destruct Ht as [Hc _]. now apply negb_true_iff in Hc.
Qed.

(** Two words followed by something that cannot continue them: when the
    texts agree, the words do. *)
Lemma word_boundary (p q : ascii -> bool) (a b x y : string) :
  all_chars p a = true -> all_chars q b = true ->
  head_outside q x = true -> head_outside p y = true ->
  a ++ x = b ++ y -> a = b /\ x = y.
Proof.
  intros Ha Hb Hx Hy Heq.
  destruct (append_eq_split _ _ _ _ Heq) as [(t & -> & ->) | (t & -> & ->)].
  - destruct t as [|c t]; [now rewrite append_nil_r|].
    rewrite all_chars_append in Hb. apply andb_prop in Hb.
    destruct Hb as [_ Hb]. simpl in Hb, Hx. apply andb_prop in Hb.
    destruct Hb as [Hc _]. rewrite Hc in Hx. discriminate.
  - destruct t as [|c t]; [now rewrite append_nil_r|].
    rewrite all_chars_append in Ha. apply andb_prop in Ha.
    destruct Ha as [_ Ha]. simpl in Ha, Hy. apply andb_prop in Ha.
    destruct Ha as [Hc _]. rewrite Hc in Hy. discriminate.
Qed.

Lemma plain_is_token (s : string) : all_chars plain s = true -> token s = true.
Proof.
  unfold token. induction s as [|c s IH]; simpl; [reflexivity|].
  intros Hs. apply andb_prop in Hs. destruct Hs as [Hc Hs].
  unfold plain in Hc. apply andb_prop in Hc. destruct Hc as [-> _].
  now apply IH.
Qed.

Lemma recognized_plain (kind : string) :
  recognized (Some kind) -> all_chars plain kind = true.
Proof.
  unfold recognized.
  intros [Hk | [Hk | [Hk | [Hk | Hk]]]]; injection Hk as ->; reflexivity.
Qed.

Lemma spaces_head_outside (p : ascii -> bool) (sp rest : string) :
  (forall c, is_space c = true -> p c = false) ->
  all_chars is_space sp = true -> sp <> "" ->
  head_outside p (sp ++ rest) = true.
Proof.
  intros Hp Hsp Hne. destruct sp as [|c sp]; [congruence|].
  simpl in *. apply andb_prop in Hsp. destruct Hsp as [Hc _].
  now rewrite (Hp c Hc).
Qed.

Lemma space_not_plain (c : ascii) : is_space c = true -> plain c = false.
Proof. unfold plain. now intros ->. Qed.

Lemma space_not_token_char (c : ascii) :
  is_space c = true -> negb (is_space c) = false.
Proof. now intros ->. Qed.

(** The scan of a text that holds one [<<], followed by [hpp_] and a
    word that is none of the five keywords, yields nothing. *)
Lemma unknown_kind_no_occurrence (before kind rest : string) :
  lacks "<" before = true -> lacks "<" kind = true -> lacks "<" rest = true ->
  token kind = true -> ~ recognized (Some kind) ->
  finditer keyword_regex (before ++ "<<hpp_" ++ kind ++ " " ++ rest) = [].
Proof.
  intros Hb Hk Hr Htok Hnot.
  destruct (finditer keyword_regex _) as [|m ms] eqn:Hscan; [reflexivity|].
  exfalso.
  assert (Hin : In m (finditer keyword_regex
                        (before ++ "<<hpp_" ++ kind ++ " " ++ rest)))
    by (rewrite Hscan; now left).
  apply finditer_keyword_span in Hin.
  destruct Hin as (pre & post & Htext & Hspan).
  destruct Hspan as [op s0 s1 kd s2 ar fl s3 cl Hw _ _ Hs1 [Hrec _] [Hs2 Hs2ne]
                       _ _ _ _].
  rewrite Hw in Htext. clear Hw.
  assert (Hcut : (pre ++ op ++ s0) ++ "<<"
                 ++ (s1 ++ "hpp_" ++ kd ++ s2 ++ ar ++ fl ++ s3 ++ ">>" ++ cl
                     ++ post)
                 = before ++ "<<" ++ ("hpp_" ++ kind ++ " " ++ rest)).
  { transitivity (before ++ "<<hpp_" ++ kind ++ " " ++ rest); [|reflexivity].
    rewrite Htext, !append_assoc. reflexivity. }
  apply marker_unique in Hcut; [|assumption|].
  2:{ unfold lacks in *. cbn [append]. cbn [all_chars].
      rewrite all_chars_append, Hk. cbn [all_chars append]. now rewrite Hr. }
  destruct Hcut as [_ Hcut].
  assert (s1 = "") as ->.
  { eapply spaces_before_char; [exact Hs1 | | exact Hcut]. reflexivity. }
  cbn [append] in Hcut. injection Hcut as Hcut.
  apply (word_boundary (fun c => negb (is_space c)) (fun c => negb (is_space c)))
    in Hcut.
  - destruct Hcut as [-> _]. contradiction.
  - apply plain_is_token. now apply recognized_plain.
  - exact Htok.
  - apply spaces_head_outside; auto using space_not_token_char.
  - reflexivity.
Qed.

Lemma plain_first_char (c : ascii) (s : string) :
  all_chars plain (String c s) = true ->
  is_space c = false /\ Ascii.eqb c ">" = false.
Proof.
  simpl. intros Hs. apply andb_prop in Hs. destruct Hs as [Hc _].
  unfold plain in Hc. apply andb_prop in Hc. destruct Hc as [H1 H2].
  split; now apply negb_true_iff.
Qed.

Lemma plain_lacks_lt (kind : string) :
  recognized (Some kind) -> lacks "<" kind = true.
Proof.
  unfold recognized.
  intros [Hk | [Hk | [Hk | [Hk | Hk]]]]; injection Hk as ->; reflexivity.
Qed.

(** What can follow the argument inside a span starts with white space
    or with [>]. *)
Lemma after_arg_head (fl s3 tail : string) :
  (fl = ""
   \/ exists sp, all_chars is_space sp = true /\ sp <> ""
        /\ (fl = sp ++ "compress" \/ fl = sp ++ "dup")) ->
  all_chars is_space s3 = true ->
  head_outside plain (fl ++ s3 ++ ">>" ++ tail) = true.
Proof.
  intros [-> | (sp & Hsp & Hne & Hfl)] Hs3.
  - destruct s3 as [|c s3]; [reflexivity|].
    simpl in *. apply andb_prop in Hs3. destruct Hs3 as [Hc _].
    now rewrite (space_not_plain c Hc).
  - assert (Hfl' : exists w, fl = sp ++ w)
      by (destruct Hfl as [-> | ->]; eauto).
    destruct Hfl' as (w & ->). rewrite append_assoc.
    apply spaces_head_outside; auto using space_not_plain.
Qed.

(** After white space, a flag word of the pattern cannot be followed by
    what follows another word. *)
Lemma flag_word_boundary (sp word s3 tail flag after : string) :
  all_chars is_space sp = true -> sp <> "" ->
  all_chars plain word = true -> all_chars is_space s3 = true ->
  all_chars plain flag = true -> flag <> "" ->
  (sp ++ word) ++ s3 ++ ">>" ++ tail = " " ++ flag ++ ">>" ++ after ->
  word = flag.
Proof.
  intros Hsp Hne Hword Hs3 Hflag Hfne Heq.
  destruct sp as [|c sp]; [congruence|].
  rewrite append_assoc in Heq. cbn [append] in Heq. injection Heq as _ Heq.
  destruct flag as [|f0 flag]; [congruence|].
  destruct (plain_first_char _ _ Hflag) as [Hf0 _].
  simpl in Hsp. apply andb_prop in Hsp. destruct Hsp as [_ Hsp].
  assert (sp = "") as -> by (eapply spaces_before_char; eauto).
  change (word ++ (s3 ++ ">>" ++ tail) = String f0 flag ++ (">>" ++ after))
    in Heq.
  apply (word_boundary plain plain) in Heq;
    [ now destruct Heq | assumption | assumption
    | apply (after_arg_head "" s3 tail); auto | reflexivity ].
Qed.

(** The scan of a text that holds one [<<], followed by a keyword, an
    argument and a third word that is neither [compress] nor [dup],
    yields nothing. *)
Lemma unknown_flag_no_occurrence (before kind arg flag after : string) :
  lacks "<" before = true -> recognized (Some kind) ->
  all_chars plain arg = true -> lacks "<" arg = true -> arg <> "" ->
  all_chars plain flag = true -> lacks "<" flag = true -> flag <> "" ->
  flag <> "compress" -> flag <> "dup" ->
  lacks "<" after = true ->
  finditer keyword_regex
    (before ++ "<<hpp_" ++ kind ++ " " ++ arg ++ " " ++ flag ++ ">>" ++ after)
  = [].
Proof.
  intros Hb Hk Ha Hal Hane Hf Hfl Hfne Hfc Hfd Haf.
  destruct (finditer keyword_regex _) as [|m ms] eqn:Hscan; [reflexivity|].
  exfalso.
  assert (Hin : In m (m :: ms)) by now left.
  rewrite <- Hscan in Hin. clear Hscan.
  apply finditer_keyword_span in Hin.
  destruct Hin as (pre & post & Htext & Hspan).
  destruct Hspan as [op s0 s1 kd s2 ar fl s3 cl Hw _ _ Hs1 [Hrec _] [Hs2 Hs2ne]
                       (Har & _ & _) Hflag Hs3 _].
  rewrite Hw in Htext. clear Hw.
  assert (Hcut : (pre ++ op ++ s0) ++ "<<"
                 ++ (s1 ++ "hpp_" ++ kd ++ s2 ++ ar ++ fl ++ s3 ++ ">>" ++ cl
                     ++ post)
                 = before ++ "<<"
                   ++ ("hpp_" ++ kind ++ " " ++ arg ++ " " ++ flag ++ ">>"
                       ++ after)).
  { transitivity (before ++ "<<hpp_" ++ kind ++ " " ++ arg ++ " " ++ flag
                    ++ ">>" ++ after); [|reflexivity].
    rewrite Htext, !append_assoc. reflexivity. }
  clear Htext.
  apply marker_unique in Hcut; [|assumption|].
  2:{ apply plain_lacks_lt in Hk. unfold lacks in *.
      cbn [append all_chars].
      rewrite all_chars_append, Hk. cbn [andb append all_chars].
      rewrite all_chars_append, Hal. cbn [andb append all_chars].
      rewrite all_chars_append, Hfl. cbn [andb append all_chars].
      exact Haf. }
  destruct Hcut as [_ Hcut].
  assert (s1 = "") as ->.
  { eapply spaces_before_char; [exact Hs1 | | exact Hcut]. reflexivity. }
  cbn [append] in Hcut. injection Hcut as Hcut.
  (* the keyword ends where the white space starts *)
  apply (word_boundary plain plain) in Hcut;
    [ | now apply recognized_plain | now apply recognized_plain
      | apply spaces_head_outside; auto using space_not_plain | reflexivity ].
  destruct Hcut as [_ Hcut].
  (* one blank, then the argument *)
  destruct s2 as [|c s2]; [congruence|].
  cbn [append] in Hcut. injection Hcut as _ Hcut.
  destruct arg as [|a0 arg]; [congruence|].
  destruct (plain_first_char _ _ Ha) as [Ha0 _].
  simpl in Hs2. apply andb_prop in Hs2. destruct Hs2 as [_ Hs2].
  assert (s2 = "") as -> by (eapply spaces_before_char; eauto).
  change (ar ++ (fl ++ s3 ++ ">>" ++ cl ++ post)
          = String a0 arg ++ (" " ++ flag ++ ">>" ++ after)) in Hcut.
  assert (Hflag' : fl = ""
                   \/ exists sp, all_chars is_space sp = true /\ sp <> ""
                        /\ (fl = sp ++ "compress" \/ fl = sp ++ "dup")).
  { destruct Hflag as [[-> _] | (sp & ? & ? & ? & _)];
      [left | right; exists sp]; auto. }
  apply (word_boundary (fun c => negb (is_space c)) plain) in Hcut;
    [ | assumption | assumption | now apply after_arg_head | reflexivity ].
  destruct Hcut as [_ Hcut].
  (* what follows the argument *)
  destruct Hflag' as [-> | (sp & Hsp & Hspne & Hfl')].
  - cbn [append] in Hcut.
    destruct s3 as [|c3 s3]; [discriminate Hcut|].
    cbn [append] in Hcut. injection Hcut as _ Hcut.
    destruct flag as [|f0 flag]; [congruence|].
    destruct (plain_first_char _ _ Hf) as [Hf0 Hgt].
    simpl in Hs3. apply andb_prop in Hs3. destruct Hs3 as [_ Hs3].
    assert (s3 = "") as -> by (eapply spaces_before_char; eauto).
    cbn [append] in Hcut. injection Hcut as <- _. discriminate Hgt.
  - destruct Hfl' as [-> | ->];
      apply flag_word_boundary in Hcut; try assumption; try reflexivity;
      congruence.
Qed.

(* ===================================================================== *)
(** ** Properties of the specification *)
(* ===================================================================== *)

Section Claims.

Context `{PyRuntime}.
Variable self : HtmlPreprocessor.
Variable fs : filesystem.

(** C9.  A buffer in which the scan finds no directive occurrence is
    returned unchanged by [parse_contents], with the registry as it
    was, whenever the call has a stack frame to run in. *)
Theorem parse_contents_without_directive
        (d : nat) (loaded : registry) (text : string) :
  finditer keyword_regex text = [] ->
  parse_contents self fs (S d) loaded text = Return (text, loaded).
Proof. apply parse_contents_no_match. Qed.

(** C8.  [run] is all-or-nothing.  An exception raised while loading
    or expanding leaves the files untouched and is the outcome of
    [run]; after a successful expansion the guard on the output file
    is evaluated and, when the file exists and overwriting is not
    allowed, [run] raises [FileExistsError] without writing;
    otherwise the expanded text is written once, to the output file.
    Whatever the exception, the files after [run] are the files
    before it. *)
Theorem run_all_or_nothing (depth : nat) (loaded : registry) :
  (forall e,
      expand_start self fs depth loaded = Raise e ->
      run self fs depth loaded = (Raise e, fs))
  /\ (forall html l,
         expand_start self fs depth loaded = Return (html, l) ->
         is_file fs (output_filename self) = true ->
         allow_overwrite self = false ->
         run self fs depth loaded = (Raise FileExistsError, fs))
  /\ (forall html l,
         expand_start self fs depth loaded = Return (html, l) ->
         is_file fs (output_filename self) && negb (allow_overwrite self)
         = false ->
         run self fs depth loaded
         = (Return tt, write_file fs (output_filename self) html))
  /\ (forall e,
         fst (run self fs depth loaded) = Raise e ->
         snd (run self fs depth loaded) = fs).
Proof.
  unfold run. repeat split.
  - intros e ->. reflexivity.
  - intros html l -> -> ->. reflexivity.
  - intros html l -> ->. reflexivity.
  - intros e.
    destruct (expand_start self fs depth loaded) as [[html l]|e'];
      [|reflexivity].
    destruct (is_file fs (output_filename self)
              && negb (allow_overwrite self)); [reflexivity|].
    discriminate.
Qed.

(** C6, as the code has it.  Once an [insert] directive for a file has
    been resolved, a second [insert] directive for the same file
    resolves to the empty string and leaves the registry as it is,
    whatever its flag group holds: [insert] loads with
    [allow_dup = False] and never reads the [dup] flag. *)
Theorem second_insert_resolves_empty
        (d : nat) (loaded l1 : registry) (m1 m2 : re_match)
        (filename content : string) :
  group m1 2 = Some "insert" -> group m1 3 = Some filename ->
  group m2 2 = Some "insert" -> group m2 3 = Some filename ->
  resolve_directive self fs (parse_contents self fs (S d)) loaded m1
  = Return (content, l1) ->
  resolve_directive self fs (parse_contents self fs (S d)) l1 m2
  = Return ("", l1).
Proof.
  intros Hk1 Ha1 Hk2 Ha2 Hfirst.
  assert (Hseen : existsb (pathname_eqb (resolve_pathname self filename)) l1
                  = true).
  { unfold resolve_directive in Hfirst. rewrite Hk1, Ha1 in Hfirst.
    cbn [is_keyword String.eqb Ascii.eqb Bool.eqb as_str] in Hfirst.
    unbind Hfirst. unbind Hfirst. injection Hfirst as _ <-.
    unbind Ha. unbind Ha. unbind Ha. injection Ha as _ _ <-.
    match goal with
    | Hf : Return filename = Return _ |- _ => injection Hf as <-
    end.
    match goal with
    | Hl : load_file _ _ _ _ _ _ = Return _ |- _ =>
        apply load_file_seen in Hl
    end.
    match goal with
    | Hp : parse_contents _ _ _ _ _ = Return _ |- _ =>
        apply parse_contents_extends in Hp
    end.
    eapply extends_seen; eassumption. }
  unfold resolve_directive. rewrite Hk2, Ha2.
  cbn [is_keyword String.eqb Ascii.eqb Bool.eqb as_str bind].
  unfold load_file. rewrite Hseen. cbn [andb negb bind].
  rewrite parse_contents_empty. reflexivity.
Qed.

(** C10, as the code has it.  For a [pyvar] directive without the
    [compress] flag whose argument is bound, one loop iteration
    replaces every occurrence of the matched span by the text of the
    value, its [str] form or its JSON serialization, taken as it is:
    the registry is untouched and the recursive call is not used, so
    the statement holds whatever the recursive call would do. *)
Theorem pyvar_substituted_verbatim
        (recurse : registry -> string -> result (string * registry))
        (st : loop_state) (m : re_match)
        (table : string -> option pyvalue) (arg : string) (val : pyvalue)
        (text : string) :
  group m 2 = Some "pyvar" -> group m 3 = Some arg ->
  var_dict self = Some table -> table arg = Some val ->
  compress (read_flags (group m 4)) = false ->
  value_text self val = Return text ->
  handle_directive self fs recurse st m
  = Return {| contents := PyStr.replace (group0 m) text (contents st);
              new_content := Some text;
              loaded_filenames := loaded_filenames st |}.
Proof.
  intros Hk Ha Hd Hv Hc Ht.
  unfold handle_directive, resolve_directive. rewrite Hk, Ha.
  cbn [is_keyword String.eqb Ascii.eqb Bool.eqb].
  unfold pyvar_content. rewrite Hd, Hv, Hc.
  destruct val as [p|o]; cbn [value_text] in Ht.
  - injection Ht as <-. reflexivity.
  - rewrite Ht. reflexivity.
Qed.


(** C5, as the code has it.  The flag group of every directive
    occurrence the scan yields is absent, or white space followed by
    [compress] or by [dup]; there is no occurrence with another flag
    and no exception for one.  Text written like a directive, with a
    keyword, an argument and a third word that is neither [compress]
    nor [dup], is not an occurrence: when it holds the only [<] of the
    buffer, [parse_contents] returns the buffer as it is. *)
Theorem flag_vocabulary_closed :
  (forall text m,
      In m (finditer keyword_regex text) -> admitted_flag (group m 4))
  /\ (forall before kind arg flag after d loaded,
         lacks "<" before = true -> recognized (Some kind) ->
         all_chars plain arg = true -> lacks "<" arg = true -> arg <> "" ->
         all_chars plain flag = true -> lacks "<" flag = true ->
         flag <> "" -> flag <> "compress" -> flag <> "dup" ->
         lacks "<" after = true ->
         let text := before ++ "<<hpp_" ++ kind ++ " " ++ arg ++ " " ++ flag
                            ++ ">>" ++ after in
         parse_contents self fs (S d) loaded text = Return (text, loaded)).
Proof.
  split.
  - intros text m Hin. apply finditer_keyword_span in Hin.
    destruct Hin as (pre & post & _ & Hspan).
    destruct Hspan as [op s0 s1 kd s2 ar fl s3 cl _ _ _ _ _ _ _ Hfl _ _].
    unfold admitted_flag, group.
    destruct Hfl as [[_ ->] | (sp & Hsp & _ & Hw & ->)]; [now left|].
    right. exists sp. split; [assumption|].
    destruct Hw as [-> | ->]; auto.
  - intros before kind arg flag after d loaded. intros.
    apply parse_contents_no_match.
    now apply unknown_flag_no_occurrence.
Qed.

End Claims.

(* ===================================================================== *)
(** ** What the scan can and cannot yield *)
(* ===================================================================== *)

(** The keyword of an occurrence is always one of the five of the
    pattern, so the last branch of the dispatch is never entered. *)
Lemma scan_keywords_recognized (text : string) (m : re_match) :
  In m (finditer keyword_regex text) -> recognized (group m 2).
Proof.
  intros Hin. apply finditer_keyword_span in Hin.
  destruct Hin as (pre & post & _ & Hspan).
  destruct Hspan as [op s0 s1 kd s2 ar fl s3 cl _ _ _ _ [Hrec Hg] _ _ _ _ _].
  unfold group. now rewrite Hg.
Qed.

(** A span ends with [>>] and, directly after it, the closing delimiter
    of group 5 if there is one: no white space is taken in between. *)
Lemma span_stops_after_closer (text : string) (m : re_match) :
  In m (finditer keyword_regex text) ->
  exists body closer,
    group0 m = body ++ ">>" ++ closer
    /\ ((closer = "" /\ group m 5 = None)
        \/ ((closer = "*/" \/ closer = "-->") /\ group m 5 = Some closer)).
Proof.
  intros Hin. apply finditer_keyword_span in Hin.
  destruct Hin as (pre & post & _ & Hspan).
  destruct Hspan as [op s0 s1 kd s2 ar fl s3 cl Htxt _ _ _ _ _ _ _ _ Hcl].
  exists (op ++ s0 ++ "<<" ++ s1 ++ "hpp_" ++ kd ++ s2 ++ ar ++ fl ++ s3), cl.
  split; [|exact Hcl].
  rewrite Htxt. now rewrite !append_assoc.
Qed.

(* ===================================================================== *)
(** ** The properties on a concrete site *)
(* ===================================================================== *)



(** C2: text with a keyword outside the five is not an occurrence.  For
    every word that is none of the five, [<<hpp_WORD ...>>] that holds
    the only [<] of the buffer is left where it is and nothing is
    raised; so it is for [<<hpp_foo x>>]. *)
Theorem unknown_kind_left_in_place :
  (forall (R : PyRuntime) (self : HtmlPreprocessor) (fs : filesystem)
          (d : nat) (loaded : registry) (before kind rest : string),
      lacks "<" before = true -> lacks "<" kind = true ->
      lacks "<" rest = true -> token kind = true ->
      ~ recognized (Some kind) ->
      let text := before ++ "<<hpp_" ++ kind ++ " " ++ rest in
      parse_contents self fs (S d) loaded text = Return (text, loaded))
  /\ finditer keyword_regex "<<hpp_foo x>>" = []
  /\ Demo.expand "<<hpp_foo x>>" = Return ("<<hpp_foo x>>", []).
Proof.
  split; [|split; reflexivity].
  intros. apply parse_contents_no_match.
  now apply unknown_kind_no_occurrence.
Qed.

(** C3: a [bin2b64] load never returns the encoding of the file.  It
    hands [str(f.read())] to [b64encode] and so raises [TypeError] for
    every file that is there; only a path loaded before gives a result,
    the empty string.  On the site, [f.bin] holds [abc], whose encoding
    is [YWJj]; the directive raises. *)
Theorem bin2b64_raises_type_error :
  (forall (R : PyRuntime) (self : HtmlPreprocessor) (fs : filesystem)
          (loaded : registry) (filename : string),
      match load_file self fs loaded filename true false with
      | Return (text, loaded') =>
          text = "" /\ loaded' = loaded
          /\ existsb (pathname_eqb (resolve_pathname self filename)) loaded
             = true
      | Raise e => e = TypeError \/ e = FileNotFoundError
      end)
  /\ Demo.files "/site/f.bin" = Some "abc"
  /\ Codec.b64encode (PBytes "abc") = Return "YWJj"
  /\ Demo.expand "<<hpp_bin2b64 f.bin>>" = Raise TypeError.
Proof.
  split; [intros; apply load_file_binary|].
  repeat split; reflexivity.
Qed.

(** C4: with [compress], a [pyvar] directive bound to a [str] raises
    [TypeError], as the common compression step hands that [str] to
    [zlib.compress]; without the flag the replacement is the value. *)
Theorem pyvar_compress_raises_type_error :
  (forall (R : PyRuntime) (self : HtmlPreprocessor) (s : string),
      compress_text (PStr s) = Raise TypeError)
  /\ Demo.vars "x" = Some (Prim (VStr "hello"))
  /\ Demo.expand "<<hpp_pyvar x compress>>" = Raise TypeError
  /\ Demo.expand "<<hpp_pyvar x>>" = Return ("hello", []).
Proof. repeat split; reflexivity. Qed.

(** C5, as stated, fails: a directive with the flag [foo] raises
    nothing; the expansion returns the buffer with the text in it. *)
Lemma unknown_flag_not_an_error :
  Demo.expand "<<hpp_insert a.txt foo>>"
  = Return ("<<hpp_insert a.txt foo>>", []).
Proof. reflexivity. Qed.

Lemma flag_vocabulary_closed_witness :
  admitted_flag (group (occurrence 0 "<<hpp_script s.js dup>>") 4)
  /\ Demo.expand "load: <<hpp_script s.js defer>>;"
     = Return ("load: <<hpp_script s.js defer>>;", []).
Proof.
  split.
  - apply (proj1 (@flag_vocabulary_closed Demo.runtime Demo.pp Demo.files)
             "<<hpp_script s.js dup>>").
    left. reflexivity.
  - apply (proj2 (@flag_vocabulary_closed Demo.runtime Demo.pp Demo.files)
             "load: " "script" "s.js" "defer" ";" 9 []);
      try reflexivity; try discriminate.
    right. left. reflexivity.
Defined.

(** C6, as stated, fails: the second of two [insert] directives for
    [a.txt] carries [dup] and still resolves to the empty string, so
    the buffer comes back with the file's content once. *)
Lemma insert_with_dup_resolves_empty :
  let text := "<<hpp_insert a.txt>>|<<hpp_insert a.txt dup>>" in
  let recurse := @parse_contents Demo.runtime Demo.pp Demo.files 9 in
  let seen := [PurePath ["site"; "a.txt"]] in
  group (occurrence 1 text) 4 = Some " dup"
  /\ @resolve_directive Demo.runtime Demo.pp Demo.files recurse []
       (occurrence 0 text) = Return ("AhelloA", seen)
  /\ @resolve_directive Demo.runtime Demo.pp Demo.files recurse seen
       (occurrence 1 text) = Return ("", seen)
  /\ Demo.expand text = Return ("AhelloA|", seen).
Proof. repeat split; reflexivity. Qed.

Lemma second_insert_resolves_empty_witness :
  let text := "<<hpp_insert a.txt>>|<<hpp_insert a.txt dup>>" in
  let recurse := @parse_contents Demo.runtime Demo.pp Demo.files 2 in
  let seen := [PurePath ["site"; "a.txt"]] in
  @resolve_directive Demo.runtime Demo.pp Demo.files recurse seen
    (occurrence 1 text) = Return ("", seen).
Proof.
  apply (@second_insert_resolves_empty Demo.runtime Demo.pp Demo.files 1 []
           [PurePath ["site"; "a.txt"]]
           (occurrence 0 "<<hpp_insert a.txt>>|<<hpp_insert a.txt dup>>")
           (occurrence 1 "<<hpp_insert a.txt>>|<<hpp_insert a.txt dup>>")
           "a.txt" "AhelloA");
    reflexivity.
Defined.

(** C7: the span of an occurrence ends with [>>] and, directly after
    it, nothing, [*/] or [-->]: white space before a closing delimiter
    is not part of it.  So in [/* <<hpp_pyvar x>> */] and
    [<!-- <<hpp_pyvar x>> -->] the span ends at [>>], and the blank and
    the closing delimiter stay behind in the output.  A [//] comment
    goes away whole. *)
Theorem comment_closer_left_behind :
  (forall text m,
      In m (finditer keyword_regex text) ->
      exists body closer,
        group0 m = body ++ ">>" ++ closer
        /\ (closer = "" \/ closer = "*/" \/ closer = "-->"))
  /\ map group0 (finditer keyword_regex "/* <<hpp_pyvar x>> */")
     = ["/* <<hpp_pyvar x>>"]
  /\ Demo.expand "/* <<hpp_pyvar x>> */" = Return ("hello */", [])
  /\ Demo.expand "<!-- <<hpp_pyvar x>> -->" = Return ("hello -->", [])
  /\ Demo.expand "// <<hpp_pyvar x>>" = Return ("hello", []).
Proof.
  split; [|repeat split; reflexivity].
  intros text m Hin. apply span_stops_after_closer in Hin.
  destruct Hin as (body & closer & Hspan & Hcl).
  exists body, closer. split; [assumption|]. tauto.
Qed.

Lemma run_all_or_nothing_witness :
  @run Demo.runtime Demo.pp_broken Demo.files 10 []
  = (Raise (ValueError_undefined_variable "nope"), Demo.files)
  /\ @run Demo.runtime Demo.pp Demo.files_with_output 10 []
     = (Raise FileExistsError, Demo.files_with_output).
Proof.
  split.
  - apply (proj1 (@run_all_or_nothing Demo.runtime Demo.pp_broken Demo.files
                    10 [])).
    reflexivity.
  - apply (proj1 (proj2 (@run_all_or_nothing Demo.runtime Demo.pp
                           Demo.files_with_output 10 []))
             "<h1>AhelloA</h1>" [PurePath ["site"; "index.html"];
                                 PurePath ["site"; "a.txt"]]);
      reflexivity.
Defined.

Lemma parse_contents_without_directive_witness :
  Demo.expand "<p>no directive here</p>"
  = Return ("<p>no directive here</p>", []).
Proof.
  apply (@parse_contents_without_directive Demo.runtime Demo.pp Demo.files
           9 [] "<p>no directive here</p>").
  reflexivity.
Defined.

(** C10, as stated, fails with [compress].  [l] is bound to a list whose
    JSON text is [[1, 2, 3]]: the replacement is the encoded stream (here
    the stored-block stream of the demo runtime), not that text.  [x] is
    bound to [hello]: nothing is substituted, the directive raises. *)
Lemma pyvar_compress_not_verbatim :
  Demo.vars "l" = Some (Obj ([1; 2; 3]%Z : @pyobject Demo.runtime))
  /\ @value_text Demo.runtime Demo.pp
       (Obj ([1; 2; 3]%Z : @pyobject Demo.runtime))
     = Return "[1, 2, 3]"
  /\ Demo.expand "<<hpp_pyvar l compress>>"
     = Return ("eAEBCQD2/1sxLCAyLCAzXQmFAec=", [])
  /\ Demo.vars "x" = Some (Prim (VStr "hello"))
  /\ Demo.expand "<<hpp_pyvar x compress>>" = Raise TypeError.
Proof. repeat split; reflexivity. Qed.

Lemma pyvar_substituted_verbatim_witness :
  let text := "<p><<hpp_pyvar d>></p>" in
  @handle_directive Demo.runtime Demo.pp Demo.files
    (fun _ _ => Raise RecursionError)
    {| contents := text; new_content := None; loaded_filenames := [] |}
    (occurrence 0 text)
  = Return {| contents := "<p><<hpp_insert a.txt>></p>";
              new_content := Some "<<hpp_insert a.txt>>";
              loaded_filenames := [] |}.
Proof.
  apply (@pyvar_substituted_verbatim Demo.runtime Demo.pp Demo.files
           (fun _ _ => Raise RecursionError)
           {| contents := "<p><<hpp_pyvar d>></p>"; new_content := None;
              loaded_filenames := [] |}
           (occurrence 0 "<p><<hpp_pyvar d>></p>")
           Demo.vars "d" (Prim (VStr "<<hpp_insert a.txt>>"))
           "<<hpp_insert a.txt>>");
    reflexivity.
Defined.

(* ===================================================================== *)
(** ** Further properties: the load registry *)
(* ===================================================================== *)

Section RegistryInvariant.

Context `{PyRuntime}.
Variable self : HtmlPreprocessor.
Variable fs : filesystem.

(** A relation between the registry before and after a call that every
    successful load respects. *)
Variable Q : registry -> registry -> Prop.
Hypothesis Q_refl : forall l, Q l l.
Hypothesis Q_trans : forall l1 l2 l3, Q l1 l2 -> Q l2 l3 -> Q l1 l3.
Hypothesis Q_load :
  forall loaded filename binary allow_dup text loaded',
    load_file self fs loaded filename binary allow_dup = Return (text, loaded') ->
    Q loaded loaded'.

Lemma resolve_directive_respects
      (recurse : registry -> string -> result (string * registry))
      (loaded loaded' : registry) (m : re_match) (content : string) :
  respects Q recurse ->
  resolve_directive self fs recurse loaded m = Return (content, loaded') ->
  Q loaded loaded'.
Proof.
  intros Hrec. unfold resolve_directive. intros Hr.
  unbind Hr. unbind Hr. injection Hr as _ <-.
  match goal with
  | Hc : (if _ then compress_text _ else _) = _ |- _ => clear Hc
  end.
  repeat match type of Ha with
         | (if ?c then _ else _) = _ => destruct c
         end;
    try discriminate;
    repeat (unbind Ha);
    repeat match goal with
           | Hl : load_file _ _ _ _ _ _ = Return _ |- _ =>
               apply Q_load in Hl
           | Hc : recurse _ _ = Return _ |- _ => apply Hrec in Hc
           end.
  - injection Ha as _ _ <-. eauto.
  - destruct (negb _); injection Ha as _ _ <-; eauto.
  - injection Ha as _ _ <-. eauto.
  - injection Ha as _ _ <-. eauto.
  - injection Ha as _ _ <-. eauto.
Qed.

Lemma for_each_respects
      (recurse : registry -> string -> result (string * registry))
      (matches : list re_match) (st st' : loop_state) :
  respects Q recurse ->
  for_each self fs recurse matches st = Return st' ->
  Q (loaded_filenames st) (loaded_filenames st').
Proof.
  intros Hrec. revert st.
  induction matches as [|m matches IH]; intros st Hf; cbn [for_each] in Hf.
  - injection Hf as <-. auto.
  - unbind Hf. apply IH in Hf. unfold handle_directive in Ha.
    unbind Ha. injection Ha as <-. cbn [loaded_filenames] in Hf.
    match goal with
    | Hr : resolve_directive _ _ _ _ _ = Return _ |- _ =>
        apply resolve_directive_respects in Hr; eauto
    end.
Qed.

Lemma parse_contents_respects (depth : nat) :
  respects Q (parse_contents self fs depth).
Proof.
  induction depth as [|d IH]; intros loaded text r loaded' Hp.
  - discriminate.
  - rewrite parse_contents_unfold in Hp. unfold parse_body in Hp.
    unbind Hp. injection Hp as _ <-.
    apply for_each_respects in Ha; assumption.
Qed.

End RegistryInvariant.

Section FurtherRegistry.

Context `{PyRuntime}.
Variable self : HtmlPreprocessor.
Variable fs : filesystem.

Lemma load_file_all_exist (loaded loaded' : registry) (filename text : string)
      (binary allow_dup : bool) :
  load_file self fs loaded filename binary allow_dup = Return (text, loaded') ->
  all_exist fs loaded -> all_exist fs loaded'.
Proof.
  unfold load_file.
  destruct (existsb _ loaded && negb allow_dup).
  - intros [= _ <-]. auto.
  - intros Hl Hall. unbind Hl.
    assert (Hthere : is_file fs (fspath (resolve_pathname self filename)) = true).
    { unfold read_file in Ha. unfold is_file.
      destruct (fs (fspath (resolve_pathname self filename)));
        [reflexivity | discriminate]. }
    assert (Hnew : all_exist fs (loaded ++ [resolve_pathname self filename])%list).
    { intros p Hp. apply in_app_or in Hp. destruct Hp as [Hp | [<- | []]]; auto. }
    destruct binary.
    + unbind Hl. unbind Hl. now injection Hl as _ <-.
    + now injection Hl as _ <-.
Qed.

(** X1.  The load registry only grows: when [parse_contents] returns,
    the registry it leaves is the registry it was given with further
    entries appended; no entry is removed or reordered. *)
Theorem registry_only_grows
        (depth : nat) (loaded loaded' : registry) (text r : string) :
  parse_contents self fs depth loaded text = Return (r, loaded') ->
  exists more, loaded' = (loaded ++ more)%list.
Proof.
  intros Hp.
  apply (parse_contents_respects self fs extends) in Hp; auto with registry.
  - intros l1 l2 l3. apply extends_trans.
  - intros. eapply load_file_extends; eassumption.
Qed.

(** X2.  When [parse_contents] returns, every path it has registered
    names a file that is there: a path is registered before the file is
    opened, and a file that cannot be opened ends the expansion. *)
Theorem registered_files_exist
        (depth : nat) (loaded loaded' : registry) (text r : string) :
  parse_contents self fs depth loaded text = Return (r, loaded') ->
  all_exist fs loaded -> all_exist fs loaded'.
Proof.
  intros Hp.
  apply (parse_contents_respects self fs
           (fun l l' => all_exist fs l -> all_exist fs l')) in Hp; auto.
  intros. eapply load_file_all_exist; eassumption.
Qed.

End FurtherRegistry.

Lemma registry_only_grows_witness :
  exists more,
    [PurePath ["www"; "nested.html"]; PurePath ["www"; "item.html"]]
    = ([PurePath ["www"; "nested.html"]] ++ more)%list.
Proof.
  apply (@registry_only_grows Demo.runtime (Site.pp false) Site.files 3
           [PurePath ["www"; "nested.html"]]
           [PurePath ["www"; "nested.html"]; PurePath ["www"; "item.html"]]
           "<ul><<hpp_insert item.html>></ul>" "<ul><li>one</li></ul>").
  reflexivity.
Defined.

Lemma registered_files_exist_witness :
  all_exist Site.files
    [PurePath ["www"; "nested.html"]; PurePath ["www"; "item.html"]].
Proof.
  apply (@registered_files_exist Demo.runtime (Site.pp false) Site.files 3
           [PurePath ["www"; "nested.html"]]
           [PurePath ["www"; "nested.html"]; PurePath ["www"; "item.html"]]
           "<ul><<hpp_insert item.html>></ul>" "<ul><li>one</li></ul>").
  - reflexivity.
  - intros p [<- | []]. reflexivity.
Defined.

(* ===================================================================== *)
(** ** Further properties: the call stack *)
(* ===================================================================== *)

Section Stack.

Context `{PyRuntime}.
Variable self : HtmlPreprocessor.
Variable fs : filesystem.

Lemma resolve_directive_at_least
      (recurse recurse' : registry -> string -> result (string * registry))
      (loaded : registry) (m : re_match) (r : string * registry) :
  at_least recurse recurse' ->
  resolve_directive self fs recurse loaded m = Return r ->
  resolve_directive self fs recurse' loaded m = Return r.
Proof.
  intros Hrec Hr. unfold resolve_directive in *.
  apply bind_return in Hr. destruct Hr as (a & Ha & Hr).
  match goal with
  | |- bind ?d _ = _ => assert (Hd : d = Return a)
  end.
  { repeat match type of Ha with
           | (if ?c then _ else _) = _ => destruct c
           end;
      try exact Ha;
      repeat (unbind Ha);
      repeat match goal with
             | Hc : recurse _ _ = Return _ |- _ => apply Hrec in Hc
             end;
      repeat match goal with
             | Hx : ?c = Return _ |- context [?c] => rewrite Hx; cbn [bind]
             end;
      first [exact Ha | reflexivity]. }
  rewrite Hd. exact Hr.
Qed.

Lemma for_each_at_least
      (recurse recurse' : registry -> string -> result (string * registry))
      (matches : list re_match) (st st' : loop_state) :
  at_least recurse recurse' ->
  for_each self fs recurse matches st = Return st' ->
  for_each self fs recurse' matches st = Return st'.
Proof.
  intros Hrec. revert st.
  induction matches as [|m matches IH]; intros st Hf; cbn [for_each] in *.
  - exact Hf.
  - apply bind_return in Hf. destruct Hf as (st1 & Hh & Hf).
    unfold handle_directive in *.
    apply bind_return in Hh. destruct Hh as (a & Ha & Hh).
    rewrite (resolve_directive_at_least _ _ _ _ _ Hrec Ha). cbn [bind].
    rewrite Hh. cbn [bind]. now apply IH.
Qed.

Lemma parse_contents_step (d : nat) :
  at_least (parse_contents self fs d) (parse_contents self fs (S d)).
Proof.
  induction d as [|d IH]; intros loaded text r Hp; [discriminate|].
  rewrite parse_contents_unfold in *. unfold parse_body in *.
  apply bind_return in Hp. destruct Hp as (st & Hf & Hp).
  rewrite (for_each_at_least _ _ _ _ _ IH Hf). exact Hp.
Qed.

(** X3.  What [parse_contents] returns within some depth of the call
    stack, it returns within every greater depth: a result does not
    depend on how much stack was left over. *)
Theorem deeper_stack_same_result
        (d d' : nat) (loaded : registry) (text : string)
        (r : string * registry) :
  d <= d' ->
  parse_contents self fs d loaded text = Return r ->
  parse_contents self fs d' loaded text = Return r.
Proof.
  induction 1 as [|d' _ IH]; intros Hp; [exact Hp|].
  apply parse_contents_step. now apply IH.
Qed.

End Stack.

Lemma deeper_stack_same_result_witness :
  @parse_contents Demo.runtime (Site.pp false) Site.files 7 []
    "<<hpp_insert nested.html>>"
  = Return ("<ul><li>one</li></ul>",
            [PurePath ["www"; "nested.html"]; PurePath ["www"; "item.html"]]).
Proof.
  apply (@deeper_stack_same_result Demo.runtime (Site.pp false) Site.files
           3 7 [] "<<hpp_insert nested.html>>"); [lia | reflexivity].
Defined.

(* ===================================================================== *)
(** ** Further properties: the dispatch *)
(* ===================================================================== *)

Lemma read_flags_dup (group4 : option string) :
  dup (read_flags group4) = true -> compress (read_flags group4) = false.
Proof.
  unfold read_flags. destruct group4 as [g|]; [|discriminate].
  destruct (PyStr.contains "compress" g); [discriminate|].
  destruct (PyStr.contains "dup" g); reflexivity.
Qed.

Section Dispatch.

Context `{PyRuntime}.
Variable self : HtmlPreprocessor.
Variable fs : filesystem.

(** X4.  The flag group is not read for [insert], [style] and
    [bin2b64]: two directives of one of these kinds with the same
    argument resolve alike, whatever their flags. *)
Theorem flags_only_read_by_script_and_pyvar
        (recurse : registry -> string -> result (string * registry))
        (loaded : registry) (m m' : re_match) :
  group m' 2 = group m 2 -> group m' 3 = group m 3 ->
  is_keyword (group m 2) "insert" || is_keyword (group m 2) "style"
  || is_keyword (group m 2) "bin2b64" = true ->
  resolve_directive self fs recurse loaded m'
  = resolve_directive self fs recurse loaded m.
Proof.
  intros Hk Ha Hkind. unfold resolve_directive. rewrite Hk, Ha.
  destruct (group m 2) as [k|]; [|discriminate Hkind].
  cbn [is_keyword] in *.
  destruct (String.eqb_spec k "insert") as [-> | _]; [reflexivity|].
  destruct (String.eqb_spec k "script") as [-> | _]; [discriminate Hkind|].
  destruct (String.eqb_spec k "style") as [-> | _]; [reflexivity|].
  destruct (String.eqb_spec k "bin2b64") as [-> | _]; [reflexivity|].
  discriminate Hkind.
Qed.

(** X5.  For a file that is registered already, a [script] directive
    without [dup] resolves to the empty string, with no [<script>]
    element around it, while a [style] directive resolves to an empty
    [<style>] element; neither opens the file nor changes the
    registry. *)
Theorem repeated_script_and_style
        (d : nat) (loaded : registry) (m : re_match) (filename : string) :
  seen (resolve_pathname self filename) loaded = true ->
  group m 3 = Some filename ->
  (group m 2 = Some "script" -> dup (read_flags (group m 4)) = false ->
   resolve_directive self fs (parse_contents self fs (S d)) loaded m
   = Return ("", loaded))
  /\ (group m 2 = Some "style" ->
      resolve_directive self fs (parse_contents self fs (S d)) loaded m
      = Return ("<style type=" ++ dquote ++ "text/css" ++ dquote ++ ">"
                  ++ nl ++ nl ++ "</style>", loaded)).
Proof.
  unfold seen. intros Hseen Ha. split.
  - intros Hk Hdup. unfold resolve_directive. rewrite Hk, Ha, Hdup.
    cbn [is_keyword String.eqb Ascii.eqb Bool.eqb as_str bind].
    unfold load_file. rewrite Hseen. cbn [andb negb bind].
    rewrite parse_contents_empty. reflexivity.
  - intros Hk. unfold resolve_directive. rewrite Hk, Ha.
    cbn [is_keyword String.eqb Ascii.eqb Bool.eqb as_str bind].
    unfold load_file. rewrite Hseen. cbn [andb negb bind].
    rewrite parse_contents_empty. reflexivity.
Qed.

(** X6.  With [dup], a [script] directive opens its file whether or not
    it is registered: for a file whose text holds no directive and is
    not empty, it resolves to that text inside a [<script>] element, and
    the path is appended to the registry once more. *)
Theorem script_with_dup_loads_again
        (d : nat) (loaded : registry) (m : re_match)
        (filename bytes : string) :
  group m 2 = Some "script" -> group m 3 = Some filename ->
  dup (read_flags (group m 4)) = true ->
  fs (fspath (resolve_pathname self filename)) = Some bytes ->
  finditer keyword_regex (Codec.universal_newlines bytes) = [] ->
  Codec.universal_newlines bytes <> "" ->
  resolve_directive self fs (parse_contents self fs (S d)) loaded m
  = Return ("<script type=" ++ dquote ++ "text/javascript" ++ dquote ++ ">"
              ++ nl ++ Codec.universal_newlines bytes ++ nl ++ "</script>",
            (loaded ++ [resolve_pathname self filename])%list).
Proof.
  intros Hk Ha Hdup Hfile Hplain Hne.
  unfold resolve_directive. rewrite Hk, Ha, Hdup, (read_flags_dup _ Hdup).
  cbn [is_keyword String.eqb Ascii.eqb Bool.eqb as_str bind].
  unfold load_file, read_file. rewrite Hfile, andb_false_r. cbn [bind Codec.str].
  rewrite (parse_contents_no_match _ _ _ _ _ Hplain). cbn [bind].
  apply String.eqb_neq in Hne. rewrite Hne. reflexivity.
Qed.

(** X7.  A [script] directive with [compress] whose expanded file is not
    empty raises [TypeError]: the element built around the text is a
    [str], and the compression step hands it to [zlib.compress]. *)
Theorem script_with_compress_raises
        (recurse : registry -> string -> result (string * registry))
        (loaded l1 l2 : registry) (m : re_match)
        (filename text expanded : string) :
  group m 2 = Some "script" -> group m 3 = Some filename ->
  compress (read_flags (group m 4)) = true ->
  load_file self fs loaded filename false (dup (read_flags (group m 4)))
  = Return (text, l1) ->
  recurse l1 text = Return (expanded, l2) ->
  expanded <> "" ->
  resolve_directive self fs recurse loaded m = Raise TypeError.
Proof.
  intros Hk Ha Hc Hload Hrec Hne.
  unfold resolve_directive. rewrite Hk, Ha.
  cbn [is_keyword String.eqb Ascii.eqb Bool.eqb as_str bind].
  rewrite Hload. cbn [bind]. rewrite Hrec. cbn [bind].
  apply String.eqb_neq in Hne. rewrite Hne, Hc. reflexivity.
Qed.

Lemma for_each_app
      (recurse : registry -> string -> result (string * registry))
      (ms1 ms2 : list re_match) (st : loop_state) :
  for_each self fs recurse (ms1 ++ ms2)%list st
  = bind (for_each self fs recurse ms1 st) (for_each self fs recurse ms2).
Proof.
  revert st. induction ms1 as [|m ms1 IH]; intros st; cbn [for_each app bind].
  - reflexivity.
  - destruct (handle_directive self fs recurse st m) as [st'|e]; cbn [bind];
      [apply IH | reflexivity].
Qed.

(** X8.  The first directive that fails ends the expansion: when the
    directives before it resolve and it raises, [parse_contents] raises
    the same exception, and the directives after it are not resolved. *)
Theorem first_error_ends_expansion
        (d : nat) (loaded : registry) (text : string)
        (ms1 ms2 : list re_match) (m : re_match) (st1 : loop_state)
        (e : exn) :
  finditer keyword_regex text = (ms1 ++ m :: ms2)%list ->
  for_each self fs (parse_contents self fs d) ms1
    {| contents := text; new_content := None; loaded_filenames := loaded |}
  = Return st1 ->
  resolve_directive self fs (parse_contents self fs d) (loaded_filenames st1) m
  = Raise e ->
  parse_contents self fs (S d) loaded text = Raise e.
Proof.
  intros Hscan Hbefore Hfail.
  rewrite parse_contents_unfold. unfold parse_body.
  rewrite Hscan, for_each_app, Hbefore. cbn [bind for_each].
  unfold handle_directive. rewrite Hfail. reflexivity.
Qed.

(** X9.  A start file whose first directive is a [pyvar] for a name
    that is not in [var_dict] makes [run] raise the [ValueError] for
    that name; no output file is written. *)
Theorem run_with_undefined_variable
        (d : nat) (loaded l : registry) (text name : string)
        (m : re_match) (ms : list re_match)
        (table : string -> option pyvalue) :
  load_file self fs loaded (start_filename self) false false
  = Return (text, l) ->
  finditer keyword_regex text = m :: ms ->
  group m 2 = Some "pyvar" -> group m 3 = Some name ->
  var_dict self = Some table -> table name = None ->
  run self fs (S d) loaded = (Raise (ValueError_undefined_variable name), fs).
Proof.
  intros Hload Hscan Hk Ha Hd Hv.
  unfold run, expand_start. rewrite Hload. cbn [bind].
  rewrite parse_contents_unfold. unfold parse_body. rewrite Hscan.
  cbn [for_each]. unfold handle_directive, resolve_directive.
  rewrite Hk, Ha.
  cbn [is_keyword String.eqb Ascii.eqb Bool.eqb].
  unfold pyvar_content. rewrite Hd, Hv. reflexivity.
Qed.

End Dispatch.

Lemma flags_only_read_by_script_and_pyvar_witness :
  let recurse := @parse_contents Demo.runtime (Site.pp false) Site.files 2 in
  @resolve_directive Demo.runtime (Site.pp false) Site.files recurse []
    (Site.directive "<<hpp_insert item.html dup>>")
  = @resolve_directive Demo.runtime (Site.pp false) Site.files recurse []
      (Site.directive "<<hpp_insert item.html>>").
Proof.
  apply (@flags_only_read_by_script_and_pyvar Demo.runtime (Site.pp false)
           Site.files
           (@parse_contents Demo.runtime (Site.pp false) Site.files 2) []
           (Site.directive "<<hpp_insert item.html>>")
           (Site.directive "<<hpp_insert item.html dup>>"));
    reflexivity.
Defined.

Lemma repeated_script_and_style_witness :
  let recurse := @parse_contents Demo.runtime (Site.pp false) Site.files 1 in
  @resolve_directive Demo.runtime (Site.pp false) Site.files recurse
    [PurePath ["www"; "app.js"]] (Site.directive "<<hpp_script app.js>>")
  = Return ("", [PurePath ["www"; "app.js"]])
  /\ @resolve_directive Demo.runtime (Site.pp false) Site.files recurse
       [PurePath ["www"; "main.css"]] (Site.directive "<<hpp_style main.css>>")
     = Return ("<style type=" ++ dquote ++ "text/css" ++ dquote ++ ">"
                 ++ nl ++ nl ++ "</style>", [PurePath ["www"; "main.css"]]).
Proof.
  split.
  - apply (proj1 (@repeated_script_and_style Demo.runtime (Site.pp false)
                    Site.files 0 [PurePath ["www"; "app.js"]]
                    (Site.directive "<<hpp_script app.js>>") "app.js"
                    eq_refl eq_refl));
      reflexivity.
  - apply (proj2 (@repeated_script_and_style Demo.runtime (Site.pp false)
                    Site.files 0 [PurePath ["www"; "main.css"]]
                    (Site.directive "<<hpp_style main.css>>") "main.css"
                    eq_refl eq_refl));
      reflexivity.
Defined.

Lemma script_with_dup_loads_again_witness :
  @resolve_directive Demo.runtime (Site.pp false) Site.files
    (@parse_contents Demo.runtime (Site.pp false) Site.files 1)
    [PurePath ["www"; "app.js"]] (Site.directive "<<hpp_script app.js dup>>")
  = Return ("<script type=" ++ dquote ++ "text/javascript" ++ dquote ++ ">"
              ++ nl ++ "start();" ++ nl ++ "</script>",
            [PurePath ["www"; "app.js"]; PurePath ["www"; "app.js"]]).
Proof.
  apply (@script_with_dup_loads_again Demo.runtime (Site.pp false) Site.files
           0 [PurePath ["www"; "app.js"]]
           (Site.directive "<<hpp_script app.js dup>>") "app.js" "start();");
    try reflexivity.
  discriminate.
Defined.

Lemma script_with_compress_raises_witness :
  @resolve_directive Demo.runtime (Site.pp false) Site.files
    (@parse_contents Demo.runtime (Site.pp false) Site.files 1) []
    (Site.directive "<<hpp_script app.js compress>>")
  = Raise TypeError.
Proof.
  apply (@script_with_compress_raises Demo.runtime (Site.pp false) Site.files
           (@parse_contents Demo.runtime (Site.pp false) Site.files 1)
           [] [PurePath ["www"; "app.js"]] [PurePath ["www"; "app.js"]]
           (Site.directive "<<hpp_script app.js compress>>")
           "app.js" "start();" "start();");
    try reflexivity.
  discriminate.
Defined.

Lemma first_error_ends_expansion_witness :
  @parse_contents Demo.runtime (Site.pp false) Site.files 1 []
    "<<hpp_pyvar title>> <<hpp_pyvar missing>> <<hpp_pyvar count>>"
  = Raise (ValueError_undefined_variable "missing").
Proof.
  apply (@first_error_ends_expansion Demo.runtime (Site.pp false) Site.files
           0 []
           "<<hpp_pyvar title>> <<hpp_pyvar missing>> <<hpp_pyvar count>>"
           [occurrence 0
              "<<hpp_pyvar title>> <<hpp_pyvar missing>> <<hpp_pyvar count>>"]
           [occurrence 2
              "<<hpp_pyvar title>> <<hpp_pyvar missing>> <<hpp_pyvar count>>"]
           (occurrence 1
              "<<hpp_pyvar title>> <<hpp_pyvar missing>> <<hpp_pyvar count>>")
           {| contents := "N2 <<hpp_pyvar missing>> <<hpp_pyvar count>>";
              new_content := Some "N2";
              loaded_filenames := [] |});
    reflexivity.
Defined.

Lemma run_with_undefined_variable_witness :
  @run Demo.runtime Demo.pp_broken Demo.files 1 []
  = (Raise (ValueError_undefined_variable "nope"), Demo.files).
Proof.
  apply (@run_with_undefined_variable Demo.runtime Demo.pp_broken Demo.files
           0 [] [PurePath ["site"; "broken.html"]]
           "<p><<hpp_pyvar nope>></p>" "nope"
           (occurrence 0 "<p><<hpp_pyvar nope>></p>") [] Demo.vars);
    reflexivity.
Defined.

(* ===================================================================== *)
(** ** Further properties: construction and [run] *)
(* ===================================================================== *)

Lemma is_file_written (fs : filesystem) (name text other : string) :
  is_file (write_file fs name text) name = true
  /\ (is_file fs other = true -> is_file (write_file fs name text) other = true).
Proof.
  unfold is_file, write_file. rewrite String.eqb_refl. split; [reflexivity|].
  destruct (String.eqb other name); auto.
Qed.

Section Runs.

Context `{PyRuntime}.

Lemma expand_start_registers
      (self : HtmlPreprocessor) (fs : filesystem) (depth : nat)
      (loaded l : registry) (html : string) :
  expand_start self fs depth loaded = Return (html, l) ->
  seen (resolve_pathname self (start_filename self)) l = true.
Proof.
  unfold expand_start, seen. intros He. unbind He.
  match goal with
  | Hl : load_file _ _ _ _ _ _ = Return _ |- _ => apply load_file_seen in Hl
  end.
  apply parse_contents_extends in He.
  eapply extends_seen; eassumption.
Qed.

(** X10.  The registry outlives [run].  Once the start file has been
    expanded to [html] and written, running the same object again finds
    the start file registered and loads it as the empty string: with
    overwriting allowed the output is replaced by an empty file;
    without, the second run raises [FileExistsError] and leaves the
    output as it is. *)
Theorem run_again_on_same_object
        (self : HtmlPreprocessor) (fs : filesystem) (depth d : nat)
        (loaded l : registry) (html : string) :
  expand_start self fs depth loaded = Return (html, l) ->
  let fs' := write_file fs (output_filename self) html in
  run self fs' (S d) l
  = if allow_overwrite self
    then (Return tt, write_file fs' (output_filename self) "")
    else (Raise FileExistsError, fs').
Proof.
  intros He fs'. subst fs'.
  apply expand_start_registers in He. unfold seen in He.
  unfold run, expand_start, load_file. rewrite He. cbn [andb negb bind].
  rewrite parse_contents_empty.
  destruct (is_file_written fs (output_filename self) html "") as [-> _].
  destruct (allow_overwrite self); reflexivity.
Qed.


(** X12.  After a run has written its output, a preprocessor for the
    same output cannot be constructed without permission to overwrite:
    the constructor raises [FileExistsError]. *)
Theorem construction_after_run
        (self : HtmlPreprocessor) (fs fs' : filesystem) (depth : nat)
        (loaded : registry) (parent : list string) (start : string)
        (table : option (string -> option pyvalue)) (default : pydefault) :
  run self fs depth loaded = (Return tt, fs') ->
  is_file fs start = true ->
  init fs' parent start (output_filename self) false table default
  = Raise FileExistsError.
Proof.
  unfold run. intros Hrun Hstart.
  destruct (expand_start self fs depth loaded) as [[html l]|e];
    [|discriminate].
  destruct (is_file fs (output_filename self) && negb (allow_overwrite self));
    [discriminate|].
  injection Hrun as <-.
  destruct (is_file_written fs (output_filename self) html start)
    as [Hout Hkeep].
  unfold init. rewrite (Hkeep Hstart), Hout. reflexivity.
Qed.

End Runs.

Lemma run_again_on_same_object_witness :
  let fs' := write_file Site.files "n2.html"
               ("<style type=" ++ dquote ++ "text/css" ++ dquote ++ ">" ++ nl
                  ++ "body { margin: 0 }" ++ nl ++ "</style>") in
  @run Demo.runtime (Site.pp true) fs' 1
    [PurePath ["www"; "index.html"]; PurePath ["www"; "main.css"]]
  = (Return tt, write_file fs' "n2.html" "").
Proof.
  apply (@run_again_on_same_object Demo.runtime (Site.pp true) Site.files
           2 0 [] [PurePath ["www"; "index.html"]; PurePath ["www"; "main.css"]]
           ("<style type=" ++ dquote ++ "text/css" ++ dquote ++ ">" ++ nl
              ++ "body { margin: 0 }" ++ nl ++ "</style>"));
    reflexivity.
Defined.


Lemma construction_after_run_witness :
  @init Demo.runtime
    (write_file Site.files "n2.html"
       ("<style type=" ++ dquote ++ "text/css" ++ dquote ++ ">" ++ nl
          ++ "body { margin: 0 }" ++ nl ++ "</style>"))
    ["www"] "index.html" "n2.html" false (Some Site.vars) tt
  = Raise FileExistsError.
Proof.
  apply (@construction_after_run Demo.runtime (Site.pp false) Site.files
           (write_file Site.files "n2.html"
              ("<style type=" ++ dquote ++ "text/css" ++ dquote ++ ">" ++ nl
                 ++ "body { margin: 0 }" ++ nl ++ "</style>"))
           2 [] ["www"] "index.html" (Some Site.vars) tt);
    reflexivity.
Defined.

(* ===================================================================== *)
(** ** Further properties: the compressed form of a value *)
(* ===================================================================== *)

Lemma get_all_ascii (s : string) (n : nat) (c : ascii) :
  Codec.all_ascii s = true -> get n s = Some c ->
  (nat_of_ascii c <? 128)%nat = true.
Proof.
  revert n. induction s as [|x s IH]; intros n Hall Hget; [discriminate|].
  cbn [Codec.all_ascii] in Hall. apply andb_prop in Hall.
  destruct Hall as [Hx Hs].
  destruct n as [|n]; cbn [get] in Hget.
  - now injection Hget as <-.
  - eapply IH; eassumption.
Qed.

Lemma b64_digit_ascii (n : N) :
  (nat_of_ascii (Codec.b64_digit n) <? 128)%nat = true.
Proof.
  unfold Codec.b64_digit.
  destruct (get (N.to_nat n) _) as [c|] eqn:Hget; [|reflexivity].
  eapply get_all_ascii; [|exact Hget]. reflexivity.
Qed.

(** Induction that follows [Codec.b64]: three bytes at a time. *)
Lemma three_by_three (P : string -> Prop) :
  P "" ->
  (forall x, P (String x "")) ->
  (forall x y, P (String x (String y ""))) ->
  (forall x y z b, P b -> P (String x (String y (String z b)))) ->
  forall b, P b.
Proof.
  intros H0 H1 H2 H3.
  fix IH 1. intros b.
  destruct b as [|x [|y [|z b]]];
    [exact H0 | apply H1 | apply H2 | apply H3; apply IH].
Qed.

Lemma b64_all_ascii (b : string) : Codec.all_ascii (Codec.b64 b) = true.
Proof.
  induction b as [ | x | x y | x y z b IH] using three_by_three;
    cbn [Codec.b64 Codec.all_ascii];
    rewrite ?b64_digit_ascii, ?IH; reflexivity.
Qed.

Section Compressed.

Context `{PyRuntime}.
Variable self : HtmlPreprocessor.
Variable fs : filesystem.

(** X13.  For a value that is not of a primitive type, [compress]
    cannot fail once [json.dumps] has returned: the directive resolves
    to the base64 text of the compressed UTF-8 bytes of the JSON text,
    that text is encoded once, and neither the registry nor the
    recursive call is involved. *)
Theorem compressed_json_value
        (recurse : registry -> string -> result (string * registry))
        (loaded : registry) (m : re_match)
        (table : string -> option pyvalue) (name raw : string) (o : pyobject) :
  group m 2 = Some "pyvar" -> group m 3 = Some name ->
  compress (read_flags (group m 4)) = true ->
  var_dict self = Some table -> table name = Some (Obj o) ->
  json_dumps o (json_dumps_default self) = Return raw ->
  resolve_directive self fs recurse loaded m
  = Return (Codec.b64 (zlib_deflate (Codec.encode_utf8 raw)), loaded).
Proof.
  intros Hk Ha Hc Hd Hv Hj.
  unfold resolve_directive. rewrite Hk, Ha.
  cbn [is_keyword String.eqb Ascii.eqb Bool.eqb].
  unfold pyvar_content. rewrite Hd, Hv, Hj. cbn [bind]. rewrite Hc.
  unfold compress_text, Codec.zlib_compress, Codec.b64encode,
    Codec.decode_ascii.
  cbn [bind]. rewrite b64_all_ascii. reflexivity.
Qed.

End Compressed.

Lemma compressed_json_value_witness :
  @resolve_directive Demo.runtime (Site.pp false) Site.files
    (fun _ _ => Raise RecursionError) []
    (Site.directive "<<hpp_pyvar sizes compress>>")
  = Return (Codec.b64 (Demo.stored_deflate "[4, 5]"), []).
Proof.
  apply (@compressed_json_value Demo.runtime (Site.pp false) Site.files
           (fun _ _ => Raise RecursionError) []
           (Site.directive "<<hpp_pyvar sizes compress>>")
           Site.vars "sizes" "[4, 5]" ([4; 5]%Z : @pyobject Demo.runtime));
    reflexivity.
Defined.

(* ===================================================================== *)
(** ** Further properties: buffers without the opening marker *)
(* ===================================================================== *)

Lemma prefix_append (a b : string) : prefix a (a ++ b) = true.
Proof.
  induction a as [|c a IH]; cbn [prefix append]; [now destruct b|].
  destruct (ascii_dec c c); [assumption | congruence].
Qed.

Lemma contains_middle (sub a b : string) :
  PyStr.contains sub (a ++ sub ++ b) = true.
Proof.
  induction a as [|c a IH].
  - cbn [append]. destruct (sub ++ b) eqn:Heq;
      cbn [PyStr.contains]; rewrite <- Heq, prefix_append; reflexivity.
  - cbn [append PyStr.contains]. rewrite IH. apply orb_true_r.
Qed.

(** Every occurrence holds the opening marker. *)
Lemma occurrence_has_marker (text : string) (m : re_match) :
  In m (finditer keyword_regex text) -> PyStr.contains "<<" text = true.
Proof.
  intros Hin. apply finditer_keyword_span in Hin.
  destruct Hin as (pre & post & Htext & Hspan).
  destruct Hspan as [op s0 s1 kd s2 ar fl s3 cl Hw _ _ _ _ _ _ _ _ _].
  rewrite Htext, Hw.
  replace (pre ++ (op ++ s0 ++ "<<" ++ s1 ++ "hpp_" ++ kd ++ s2 ++ ar ++ fl
                      ++ s3 ++ ">>" ++ cl) ++ post)
    with ((pre ++ op ++ s0) ++ "<<"
          ++ (s1 ++ "hpp_" ++ kd ++ s2 ++ ar ++ fl ++ s3 ++ ">>" ++ cl ++ post))
    by (rewrite !append_assoc; reflexivity).
  apply contains_middle.
Qed.

Lemma scan_without_marker (text : string) :
  PyStr.contains "<<" text = false -> finditer keyword_regex text = [].
Proof.
  intros Hnone. destruct (finditer keyword_regex text) as [|m ms] eqn:Hscan;
    [reflexivity|].
  assert (Hin : In m (finditer keyword_regex text))
    by (rewrite Hscan; now left).
  apply occurrence_has_marker in Hin. congruence.
Qed.

(** X14.  A buffer in which [<<] does not occur is returned unchanged,
    with the registry as it was: plain text, markup with single angle
    brackets and comments pass through the expander as they are. *)
Theorem text_without_marker_unchanged :
  forall (R : PyRuntime) (self : HtmlPreprocessor) (fs : filesystem)
         (d : nat) (loaded : registry) (text : string),
    PyStr.contains "<<" text = false ->
    parse_contents self fs (S d) loaded text = Return (text, loaded).
Proof.
  intros. apply parse_contents_no_match. now apply scan_without_marker.
Qed.

Lemma text_without_marker_unchanged_witness :
  @parse_contents Demo.runtime (Site.pp false) Site.files 1 []
    "<!-- a comment --><p class='x'>a < b</p> /* c */ // d"
  = Return ("<!-- a comment --><p class='x'>a < b</p> /* c */ // d", []).
Proof.
  apply (@text_without_marker_unchanged Demo.runtime (Site.pp false)
           Site.files 0 []
           "<!-- a comment --><p class='x'>a < b</p> /* c */ // d").
  reflexivity.
Defined.

(* ===================================================================== *)
(** ** Further properties: how the matcher runs *)
(* ===================================================================== *)

Section MatcherSteps.

Variable A : Type.
Implicit Types (k : string -> groups -> option A) (g : groups).

(** An input that starts with no word of the pattern is rejected. *)
Lemma rmatch_none (r : regex) (s : string) g k :
  (forall w s' g', s = w ++ s' -> ~ sem r w g g') ->
  rmatch r s g k = None.
Proof.
  intros Hno. destruct (rmatch r s g k) as [x|] eqn:Hm; [|reflexivity].
  apply rmatch_sound in Hm. destruct Hm as (w & s' & g' & Hs & Hw & _).
  exfalso. eapply Hno; eassumption.
Qed.

Lemma rmatch_cat (r1 r2 : regex) (s : string) g k :
  rmatch (r1 +++ r2) s g k = rmatch r1 s g (fun s' g' => rmatch r2 s' g' k).
Proof. reflexivity. Qed.

Lemma rmatch_lit (l s rest : string) g k :
  s = l ++ rest -> rmatch (Lit l) s g k = k rest g.
Proof.
  intros ->. induction l as [|c l IH]; cbn [Lit rmatch append]; [reflexivity|].
  now rewrite Ascii.eqb_refl.
Qed.

Lemma rmatch_opt_skip (r : regex) (s : string) g k :
  rmatch r s g k = None -> rmatch (Opt r) s g k = k s g.
Proof. unfold Opt. cbn [rmatch]. now intros ->. Qed.

Lemma rmatch_opt_take (r : regex) (s : string) g k (x : A) :
  rmatch r s g k = Some x -> rmatch (Opt r) s g k = Some x.
Proof. unfold Opt. cbn [rmatch]. now intros ->. Qed.

Lemma rmatch_alt_left (r1 r2 : regex) (s : string) g k (x : A) :
  rmatch r1 s g k = Some x -> rmatch (Alt r1 r2) s g k = Some x.
Proof. cbn [rmatch]. now intros ->. Qed.

Lemma rmatch_alt_right (r1 r2 : regex) (s : string) g k :
  rmatch r1 s g k = None -> rmatch (Alt r1 r2) s g k = rmatch r2 s g k.
Proof. cbn [rmatch]. now intros ->. Qed.

Lemma rmatch_grp (n : nat) (r : regex) (s : string) g k :
  rmatch (Grp n r) s g k
  = rmatch r s g (fun s' g' => k s' (gset n (consumed s s') g')).
Proof. reflexivity. Qed.

Lemma rmatch_star (r : regex) (s : string) g k :
  rmatch (Star r) s g k = star_iter (rmatch r) k (String.length s) s g.
Proof. reflexivity. Qed.

Lemma rmatch_cls_cons (p : ascii -> bool) (c : ascii) (s : string) g k :
  rmatch (Cls p) (String c s) g k = if p c then k s g else None.
Proof. reflexivity. Qed.

(** A greedy repetition of a class keeps what the continuation accepts,
    when the continuation accepts nothing after a longer run. *)
Lemma star_iter_settles (p : ascii -> bool) (n : nat) (s : string) g k :
  (forall u s', s = u ++ s' -> u <> "" -> all_chars p u = true ->
                k s' g = None) ->
  star_iter (rmatch (Cls p)) k n s g = k s g.
Proof.
  revert s. induction n as [|n IH]; intros s Hlonger; cbn [star_iter];
    [reflexivity|].
  destruct s as [|c s]; cbn [rmatch]; [reflexivity|].
  destruct (p c) eqn:Hc; [|reflexivity].
  destruct (Nat.ltb _ _); [|reflexivity].
  assert (Hone : k s g = None).
  { apply (Hlonger (String c "") s); [reflexivity | discriminate |].
    cbn [all_chars]. now rewrite Hc. }
  rewrite IH; [now rewrite Hone|].
  intros u s' -> Hu Hall.
  apply (Hlonger (String c u) s'); [reflexivity | discriminate |].
  cbn [all_chars]. now rewrite Hc, Hall.
Qed.

(** A greedy repetition of a class runs through a word of the class and
    stops where the continuation accepts, if it accepts nowhere later. *)
Lemma star_cls_takes (p : ascii -> bool) (w s : string) g k (x : A) :
  all_chars p w = true ->
  k s g = Some x ->
  (forall u s', s = u ++ s' -> u <> "" -> all_chars p u = true ->
                k s' g = None) ->
  rmatch (Star (Cls p)) (w ++ s) g k = Some x.
Proof.
  intros Hw Hk Hlonger. rewrite rmatch_star.
  induction w as [|c w IH].
  - cbn [append]. rewrite star_iter_settles; assumption.
  - cbn [all_chars] in Hw. apply andb_prop in Hw. destruct Hw as [Hc Hw].
    cbn [append String.length star_iter]. rewrite rmatch_cls_cons, Hc.
    replace (Nat.ltb (String.length (w ++ s)) (S (String.length (w ++ s))))
      with true by (symmetry; apply Nat.ltb_lt; lia).
    now rewrite (IH Hw).
Qed.

Lemma plus_cls_takes (p : ascii -> bool) (w s : string) g k (x : A) :
  w <> "" -> all_chars p w = true ->
  k s g = Some x ->
  (forall u s', s = u ++ s' -> u <> "" -> all_chars p u = true ->
                k s' g = None) ->
  rmatch (Plus (Cls p)) (w ++ s) g k = Some x.
Proof.
  intros Hne Hw Hk Hlonger. destruct w as [|c w]; [congruence|].
  cbn [all_chars] in Hw. apply andb_prop in Hw. destruct Hw as [Hc Hw].
  unfold Plus. rewrite rmatch_cat. cbn [append].
  rewrite rmatch_cls_cons, Hc.
  now apply star_cls_takes.
Qed.

(** Where the input does not go on with a character of the class, the
    repetition takes nothing. *)
Lemma star_cls_stops (p : ascii -> bool) (s : string) g k :
  head_outside p s = true -> rmatch (Star (Cls p)) s g k = k s g.
Proof.
  intros Hhead. rewrite rmatch_star. apply star_iter_settles.
  intros u s' -> Hu Hall. destruct u as [|c u]; [congruence|].
  cbn [append head_outside all_chars] in *.
  apply andb_prop in Hall. destruct Hall as [Hc _]. rewrite Hc in Hhead.
  discriminate.
Qed.

(** A greedy repetition of a class runs to the end of the longest word
    of the class, when the continuation accepts there. *)
Lemma star_cls_longest (p : ascii -> bool) (w s : string) g k (x : A) :
  all_chars p w = true -> head_outside p s = true ->
  k s g = Some x ->
  rmatch (Star (Cls p)) (w ++ s) g k = Some x.
Proof.
  intros Hw Hs Hk. induction w as [|c w IH].
  - cbn [append]. now rewrite star_cls_stops.
  - cbn [all_chars] in Hw. apply andb_prop in Hw. destruct Hw as [Hc Hw].
    rewrite rmatch_star in *.
    cbn [append String.length star_iter]. rewrite rmatch_cls_cons, Hc.
    replace (Nat.ltb (String.length (w ++ s)) (S (String.length (w ++ s))))
      with true by (symmetry; apply Nat.ltb_lt; lia).
    now rewrite (IH Hw).
Qed.

End MatcherSteps.

(* ===================================================================== *)
(** ** Further properties: the matcher on a written directive *)
(* ===================================================================== *)

Lemma contains_suffix (sub a b : string) :
  PyStr.contains sub (a ++ b) = false -> PyStr.contains sub b = false.
Proof.
  induction a as [|c a IH]; cbn [append]; [auto|].
  cbn [PyStr.contains]. intros Hc. apply orb_false_elim in Hc.
  destruct Hc as [_ Hc]. auto.
Qed.

Lemma contains_found (sub a b s : string) :
  s = a ++ sub ++ b -> PyStr.contains sub s = true.
Proof. intros ->. apply contains_middle. Qed.

Lemma prefix_split (a s : string) :
  prefix a s = true -> exists rest, s = a ++ rest.
Proof.
  revert s. induction a as [|c a IH]; intros s Hp.
  - exists s. reflexivity.
  - destruct s as [|c' s]; [discriminate|].
    cbn [prefix] in Hp. destruct (ascii_dec c c') as [<- | _]; [|discriminate].
    destruct (IH _ Hp) as (rest & ->). exists rest. reflexivity.
Qed.

Lemma contains_cons (sub : string) (c : ascii) (s : string) :
  PyStr.contains sub (String c s) = false ->
  prefix sub (String c s) = false /\ PyStr.contains sub s = false.
Proof. cbn [PyStr.contains]. apply orb_false_elim. Qed.

Lemma sem_flag_group (w : string) (g g' : groups) :
  sem (Grp 4 (Alt (Plus ws +++ Lit "compress") (Plus ws +++ Lit "dup"))) w g g' ->
  exists sp, all_chars is_space sp = true /\ sp <> ""
    /\ (w = sp ++ "compress" \/ w = sp ++ "dup").
Proof.
  cbn [sem]. intros (g1 & Hw & _).
  destruct Hw as [Hw | Hw];
    destruct Hw as (sp & w2 & g2 & -> & Hsp & Hlit);
    apply sem_plus_cls in Hsp; destruct Hsp as (Hall & Hne & ->);
    apply sem_Lit in Hlit; destruct Hlit as [-> ->];
    exists sp; auto.
Qed.

Lemma sem_closer_group (w : string) (g g' : groups) :
  sem (Grp 5 (Alt (Lit "*/") (Lit "-->"))) w g g' -> w = "*/" \/ w = "-->".
Proof.
  cbn [sem]. intros (g1 & Hw & _).
  destruct Hw as [Hw | Hw]; apply sem_Lit in Hw; tauto.
Qed.

Lemma sem_opener_group (w : string) (g g' : groups) :
  sem (Grp 1 (Alt (Lit "//") (Alt (Lit "/*") (Lit "<!--")))) w g g' ->
  w = "//" \/ w = "/*" \/ w = "<!--".
Proof.
  cbn [sem]. intros (g1 & Hw & _).
  destruct Hw as [Hw | [Hw | Hw]]; apply sem_Lit in Hw; tauto.
Qed.

Section WrittenDirective.

Variable A : Type.
Implicit Types (k : string -> groups -> option A) (g : groups).

(** The rest of the pattern needs a [>>]. *)
Lemma tail_needs_closing_marker (s : string) g k :
  PyStr.contains ">>" s = false -> rmatch after_argument s g k = None.
Proof.
  intros Hnone. apply rmatch_none. intros w s' g' Hs Hw.
  unfold after_argument in Hw. cbn [sem] in Hw.
  destruct Hw as (fl & w1 & g1 & -> & _ & sp & w2 & g2 & -> & _ &
                  gt & cl & g3 & -> & Hgt & _).
  apply (sem_Lit ">>") in Hgt. destruct Hgt as [-> _].
  rewrite (contains_found ">>" (fl ++ sp) (cl ++ s') s) in Hnone;
    [discriminate|].
  rewrite Hs, !append_assoc. reflexivity.
Qed.

Lemma closer_skipped (after : string) g k :
  head_outside extending after = true ->
  rmatch closer_regex after g k = k after g.
Proof.
  intros Hhead. unfold closer_regex. apply rmatch_opt_skip, rmatch_none.
  intros w s' g' -> Hw. apply sem_closer_group in Hw.
  destruct Hw as [-> | ->]; discriminate Hhead.
Qed.

(** The end of a comment directly after [>>] is taken in. *)
Lemma closer_accepts (closer after : string) g k (x : A) :
  comment_closer closer ->
  head_outside extending after = true ->
  k after (with_group 5 closer g) = Some x ->
  rmatch closer_regex (closer ++ after) g k = Some x.
Proof.
  intros [-> | [-> | ->]] Hhead Hk.
  - cbn [append with_group] in *. now rewrite closer_skipped.
  - unfold closer_regex. apply rmatch_opt_take. rewrite rmatch_grp.
    apply rmatch_alt_left.
    rewrite (rmatch_lit _ "*/" _ after) by reflexivity.
    now rewrite consumed_append.
  - unfold closer_regex. apply rmatch_opt_take. rewrite rmatch_grp.
    rewrite rmatch_alt_right by reflexivity.
    rewrite (rmatch_lit _ "-->" _ after) by reflexivity.
    now rewrite consumed_append.
Qed.

(** After [>>] and the end of the comment, with nothing that extends
    them, the pattern is through. *)
Lemma marker_and_closer (closer after : string) g k (x : A) :
  comment_closer closer ->
  head_outside extending after = true ->
  k after (with_group 5 closer g) = Some x ->
  rmatch (Star ws +++ Lit ">>" +++ closer_regex) (">>" ++ closer ++ after) g k
  = Some x.
Proof.
  intros Hcl Hhead Hk. rewrite rmatch_cat.
  unfold ws. rewrite star_cls_stops by reflexivity.
  rewrite rmatch_cat,
    (rmatch_lit _ ">>" (">>" ++ closer ++ after) (closer ++ after))
    by reflexivity.
  now apply closer_accepts.
Qed.

Lemma flag_word_taken (word after : string) g k :
  head_outside is_space word = true ->
  rmatch (Plus ws +++ Lit word) (" " ++ word ++ ">>" ++ after) g k
  = k (">>" ++ after) g.
Proof.
  intros Hword. rewrite rmatch_cat.
  unfold Plus, ws. rewrite rmatch_cat. cbn [append].
  rewrite rmatch_cls_cons.
  change (is_space " "%char) with true. cbv iota.
  rewrite star_cls_stops.
  - apply rmatch_lit. reflexivity.
  - destruct word; [reflexivity | exact Hword].
Qed.

Lemma compress_word_rejected (s : string) g k :
  head_outside is_space s = true \/ (exists rest, s = " dup" ++ rest) ->
  rmatch (Plus ws +++ Lit "compress") s g k = None.
Proof.
  intros Hs. apply rmatch_none. intros w s' g' -> Hw.
  cbn [sem] in Hw. destruct Hw as (sp & w2 & g2 & -> & Hsp & Hlit).
  apply sem_plus_cls in Hsp. destruct Hsp as (Hall & Hne & _).
  apply sem_Lit in Hlit. destruct Hlit as [-> _].
  destruct sp as [|c sp]; [congruence|].
  cbn [all_chars] in Hall. apply andb_prop in Hall. destruct Hall as [Hc Hall].
  destruct Hs as [Hs | (rest & Hs)].
  - cbn [append head_outside] in Hs. rewrite Hc in Hs. discriminate.
  - cbn [append] in Hs. injection Hs as -> Hs.
    destruct sp as [|d sp]; cbn [append] in Hs; [discriminate|].
    injection Hs as -> _. cbn [all_chars] in Hall. discriminate.
Qed.

Lemma flag_group_rejected (s : string) g k :
  head_outside is_space s = true ->
  rmatch (Grp 4 (Alt (Plus ws +++ Lit "compress") (Plus ws +++ Lit "dup")))
         s g k = None.
Proof.
  intros Hs. apply rmatch_none. intros w s' g' -> Hw.
  apply sem_flag_group in Hw. destruct Hw as (sp & Hall & Hne & Hw).
  destruct sp as [|c sp]; [congruence|].
  cbn [all_chars] in Hall. apply andb_prop in Hall. destruct Hall as [Hc _].
  destruct Hw as [-> | ->]; cbn [append head_outside] in Hs;
    rewrite Hc in Hs; discriminate.
Qed.

(** After the argument: the flag as written, then [>>] and the end of
    the comment, hand the rest of the input on with groups 4 and 5 set
    if there is a flag and an end of comment. *)
Lemma tail_accepts (flag closer after : string) g k (x : A) :
  written_flag flag -> comment_closer closer ->
  head_outside extending after = true ->
  k after (with_group 5 closer (with_flag flag g)) = Some x ->
  rmatch after_argument (flag ++ ">>" ++ closer ++ after) g k = Some x.
Proof.
  intros Hflag Hcl Hhead Hk. unfold after_argument. rewrite rmatch_cat.
  unfold flag_regex.
  destruct Hflag as [-> | [-> | ->]].
  - rewrite rmatch_opt_skip by (apply flag_group_rejected; reflexivity).
    cbn [append with_flag] in *. now apply marker_and_closer.
  - apply rmatch_opt_take. rewrite rmatch_grp. apply rmatch_alt_left.
    change (" compress" ++ ">>" ++ closer ++ after)
      with (" " ++ "compress" ++ ">>" ++ closer ++ after).
    rewrite flag_word_taken by reflexivity.
    apply marker_and_closer; [assumption | assumption |].
    change (" " ++ "compress" ++ ">>" ++ closer ++ after)
      with (" compress" ++ (">>" ++ closer ++ after)).
    rewrite consumed_append. exact Hk.
  - apply rmatch_opt_take. rewrite rmatch_grp.
    rewrite rmatch_alt_right
      by (apply compress_word_rejected; right; eexists; reflexivity).
    change (" dup" ++ ">>" ++ closer ++ after)
      with (" " ++ "dup" ++ ">>" ++ closer ++ after).
    rewrite flag_word_taken by reflexivity.
    apply marker_and_closer; [assumption | assumption |].
    change (" " ++ "dup" ++ ">>" ++ closer ++ after)
      with (" dup" ++ (">>" ++ closer ++ after)).
    rewrite consumed_append. exact Hk.
Qed.

(** No [>>] starts in the end of a comment or runs out of it. *)
Lemma closer_keeps_clear (closer after : string) :
  comment_closer closer ->
  PyStr.contains ">>" after = false ->
  head_outside extending after = true ->
  PyStr.contains ">>" (closer ++ after) = false
  /\ head_outside (fun c => Ascii.eqb c ">") (closer ++ after) = true.
Proof.
  intros Hcl Hafter Hhead.
  assert (Hgt : head_outside (fun c => Ascii.eqb c ">") after = true).
  { destruct after as [|a after]; [reflexivity|].
    cbn [head_outside] in *. unfold extending in Hhead.
    destruct (Ascii.eqb a ">"); [discriminate Hhead | reflexivity]. }
  assert (Hjoin : PyStr.contains ">>" (">" ++ after) = false).
  { cbn [append PyStr.contains]. rewrite Hafter, orb_false_r.
    destruct after as [|a after]; [reflexivity|].
    cbn [head_outside] in Hgt. cbn [prefix].
    destruct (ascii_dec ">" a) as [<- | _]; [discriminate Hgt | reflexivity]. }
  destruct Hcl as [-> | [-> | ->]].
  - auto.
  - split; [|reflexivity].
    change (PyStr.contains ">>" ("*/" ++ after))
      with (false || (false || PyStr.contains ">>" after)).
    now rewrite Hafter.
  - split; [|reflexivity].
    change (PyStr.contains ">>" ("-->" ++ after))
      with (false || (false || PyStr.contains ">>" (">" ++ after))).
    now rewrite Hjoin.
Qed.

(** The argument: the longest run of [\S] after which the rest of the
    pattern still matches. *)
Lemma argument_accepted (arg flag rest : string) g k (x : A) :
  arg <> "" -> token arg = true ->
  written_flag flag ->
  PyStr.contains ">>" rest = false ->
  head_outside (fun c => Ascii.eqb c ">") rest = true ->
  rmatch after_argument (flag ++ ">>" ++ rest) (gset 3 arg g) k = Some x ->
  rmatch (Grp 3 (Plus nonws) +++ after_argument)
         (arg ++ flag ++ ">>" ++ rest) g k
  = Some x.
Proof.
  intros Hne Harg Hflag Hrest Hhead Hk.
  rewrite rmatch_cat, rmatch_grp. unfold nonws.
  apply plus_cls_takes; [assumption | exact Harg | |].
  - now rewrite consumed_append.
  - intros u s' Hs Hu Hall. apply tail_needs_closing_marker.
    destruct u as [|c u]; [congruence|].
    cbn [all_chars] in Hall. apply andb_prop in Hall.
    destruct Hall as [Hc Hall]. apply negb_true_iff in Hc.
    destruct Hflag as [-> | [-> | ->]]; cbn [append] in Hs;
      injection Hs as <- Hs; try discriminate Hc.
    destruct u as [|d u]; cbn [append] in Hs.
    + subst s'. cbn [PyStr.contains]. rewrite Hrest, orb_false_r.
      destruct rest as [|a rest]; [reflexivity|].
      cbn [head_outside] in Hhead. cbn [prefix].
      destruct (ascii_dec ">" a) as [<- | _]; [discriminate Hhead|].
      reflexivity.
    + injection Hs as _ Hs. subst rest.
      now apply contains_suffix in Hrest.
Qed.

Lemma kind_accepted (kind rest : string) g k (x : A) :
  recognized (Some kind) ->
  k rest (gset 2 kind g) = Some x ->
  rmatch kind_regex (kind ++ rest) g k = Some x.
Proof.
  intros Hkind Hk. unfold kind_regex. rewrite rmatch_grp.
  destruct Hkind as [Hkind | [Hkind | [Hkind | [Hkind | Hkind]]]];
    injection Hkind as ->.
  - apply rmatch_alt_left.
    rewrite (rmatch_lit _ "insert" _ rest) by reflexivity.
    now rewrite consumed_append.
  - rewrite rmatch_alt_right by reflexivity. apply rmatch_alt_left.
    rewrite (rmatch_lit _ "script" _ rest) by reflexivity.
    now rewrite consumed_append.
  - do 2 rewrite rmatch_alt_right by reflexivity. apply rmatch_alt_left.
    rewrite (rmatch_lit _ "style" _ rest) by reflexivity.
    now rewrite consumed_append.
  - do 3 rewrite rmatch_alt_right by reflexivity. apply rmatch_alt_left.
    rewrite (rmatch_lit _ "bin2b64" _ rest) by reflexivity.
    now rewrite consumed_append.
  - do 4 rewrite rmatch_alt_right by reflexivity.
    rewrite (rmatch_lit _ "pyvar" _ rest) by reflexivity.
    now rewrite consumed_append.
Qed.

(** The start of a comment, or none, before the white space and the
    [<<]. *)
Lemma opener_accepts (opener gap rest : string) g k (x : A) :
  comment_opener opener -> blank gap ->
  k (gap ++ "<<" ++ rest) (with_group 1 opener g) = Some x ->
  rmatch opener_regex (opener ++ gap ++ "<<" ++ rest) g k = Some x.
Proof.
  intros Hop Hgap Hk. unfold opener_regex.
  destruct Hop as [-> | [-> | [-> | ->]]].
  - cbn [append with_group] in *.
    rewrite rmatch_opt_skip; [exact Hk|].
    apply rmatch_none. intros w s' g' Hs Hw. apply sem_opener_group in Hw.
    destruct gap as [|c gap].
    + destruct Hw as [-> | [-> | ->]]; discriminate Hs.
    + unfold blank in Hgap. cbn [all_chars] in Hgap.
      apply andb_prop in Hgap. destruct Hgap as [Hc _].
      destruct Hw as [-> | [-> | ->]]; cbn [append] in Hs;
        injection Hs as -> _; discriminate Hc.
  - apply rmatch_opt_take. rewrite rmatch_grp. apply rmatch_alt_left.
    rewrite (rmatch_lit _ "//" _ (gap ++ "<<" ++ rest)) by reflexivity.
    now rewrite consumed_append.
  - apply rmatch_opt_take. rewrite rmatch_grp.
    rewrite rmatch_alt_right by reflexivity. apply rmatch_alt_left.
    rewrite (rmatch_lit _ "/*" _ (gap ++ "<<" ++ rest)) by reflexivity.
    now rewrite consumed_append.
  - apply rmatch_opt_take. rewrite rmatch_grp.
    do 2 rewrite rmatch_alt_right by reflexivity.
    rewrite (rmatch_lit _ "<!--" _ (gap ++ "<<" ++ rest)) by reflexivity.
    now rewrite consumed_append.
Qed.

Lemma commented_text_append (opener gap kind arg flag closer after : string) :
  commented_text opener gap kind arg flag closer ++ after
  = opener ++ gap ++ "<<" ++ "hpp_" ++ kind ++ " " ++ arg ++ flag ++ ">>"
      ++ closer ++ after.
Proof.
  unfold commented_text, directive_text. now rewrite !append_assoc.
Qed.

(** The pattern accepts a written directive, with the comment around it
    and the white space before it, at the start of the input, and sets
    the groups to the delimiters, the keyword, the argument and the
    flag. *)
Lemma directive_accepted
      (opener gap kind arg flag closer after : string) g k (x : A) :
  comment_opener opener -> blank gap ->
  recognized (Some kind) ->
  arg <> "" -> token arg = true ->
  written_flag flag -> comment_closer closer ->
  PyStr.contains ">>" after = false ->
  head_outside extending after = true ->
  k after (with_group 5 closer
             (with_flag flag
                (gset 3 arg (gset 2 kind (with_group 1 opener g))))) = Some x ->
  rmatch keyword_regex
         (commented_text opener gap kind arg flag closer ++ after) g k
  = Some x.
Proof.
  intros Hop Hgap Hkind Hne Harg Hflag Hcl Hafter Hhead Hk.
  destruct (closer_keeps_clear closer after Hcl Hafter Hhead)
    as [Hclear Hgt].
  rewrite keyword_regex_parts, commented_text_append.
  rewrite rmatch_cat. apply opener_accepts; [assumption | assumption |].
  rewrite rmatch_cat. unfold ws at 1.
  apply star_cls_takes; [exact Hgap | |].
  - rewrite rmatch_cat, (rmatch_lit _ "<<" _ _ _ _ eq_refl).
    rewrite rmatch_cat. unfold ws at 1. rewrite star_cls_stops by reflexivity.
    rewrite rmatch_cat, (rmatch_lit _ "hpp_" _ _ _ _ eq_refl).
    rewrite rmatch_cat. apply kind_accepted; [assumption|].
    rewrite rmatch_cat. unfold ws at 1.
    apply (plus_cls_takes _ is_space " "); [discriminate | reflexivity | |].
    + apply argument_accepted; try assumption.
      now apply tail_accepts.
    + intros u s' Hs Hu Hall. exfalso.
      destruct arg as [|a arg]; [congruence|].
      apply token_first_char in Harg.
      destruct u as [|c u]; [congruence|].
      cbn [append] in Hs. injection Hs as <- _.
      cbn [all_chars] in Hall. rewrite Harg in Hall. discriminate.
  - intros u s' Hs Hu Hall. exfalso.
    destruct u as [|c u]; [congruence|].
    cbn [append] in Hs. injection Hs as <- _. discriminate Hall.
Qed.

End WrittenDirective.

(** Where a written directive stands, in a comment or not, [re.match]
    gives its match object. *)
Lemma match_here_directive
      (opener gap kind arg flag closer after : string) :
  comment_opener opener -> blank gap ->
  recognized (Some kind) ->
  arg <> "" -> token arg = true ->
  written_flag flag -> comment_closer closer ->
  PyStr.contains ">>" after = false ->
  head_outside extending after = true ->
  match_here keyword_regex
             (commented_text opener gap kind arg flag closer ++ after)
  = Some (commented_match opener gap kind arg flag closer).
Proof.
  intros Hop Hgap Hkind Hne Harg Hflag Hcl Hafter Hhead. unfold match_here.
  apply directive_accepted; try assumption.
  now rewrite consumed_append.
Qed.

(* ===================================================================== *)
(** ** Further properties: a written directive in its context *)
(* ===================================================================== *)

Lemma last_outside_tail (p : ascii -> bool) (c : ascii) (s : string) :
  last_outside p (String c s) = true -> last_outside p s = true.
Proof. destruct s; [reflexivity | auto]. Qed.

Lemma last_outside_append (p : ascii -> bool) (a b : string) :
  b <> "" -> last_outside p (a ++ b) = last_outside p b.
Proof.
  intros Hb. induction a as [|c a IH]; [reflexivity|].
  cbn [append]. destruct (a ++ b) eqn:Hab.
  - destruct a; [cbn [append] in Hab; congruence | discriminate Hab].
  - cbn [last_outside]. exact IH.
Qed.

Lemma last_outside_weaken (p q : ascii -> bool) (s : string) :
  (forall c, q c = true -> p c = true) ->
  last_outside p s = true -> last_outside q s = true.
Proof.
  intros Hqp. induction s as [|c s IH]; [reflexivity|].
  destruct s as [|c' s]; [|exact IH].
  cbn [last_outside]. intros Hp. apply negb_true_iff in Hp.
  apply negb_true_iff. destruct (q c) eqn:Hq; [|reflexivity].
  apply Hqp in Hq. congruence.
Qed.

Lemma all_chars_weaken (p q : ascii -> bool) (s : string) :
  (forall c, p c = true -> q c = true) ->
  all_chars p s = true -> all_chars q s = true.
Proof.
  intros Hpq. induction s as [|c s IH]; [reflexivity|].
  cbn [all_chars]. intros Hs. apply andb_prop in Hs. destruct Hs as [Hc Hs].
  now rewrite (Hpq _ Hc), IH.
Qed.

Lemma space_is_not_lt (c : ascii) :
  is_space c = true -> negb (Ascii.eqb c "<") = true.
Proof.
  intros Hc. destruct (Ascii.eqb_spec c "<") as [-> | _];
    [discriminate Hc | reflexivity].
Qed.

Lemma blank_lacks_lt (sp : string) : blank sp -> lacks "<" sp = true.
Proof. apply all_chars_weaken, space_is_not_lt. Qed.

(** Where the only [<<] of a text is, is where any [<<] of it is, also
    among single [<]. *)
Lemma marker_position (X Y B T : string) :
  PyStr.contains "<<" B = false ->
  last_outside (fun c => Ascii.eqb c "<") B = true ->
  PyStr.contains "<<" T = false ->
  head_outside (fun c => Ascii.eqb c "<") T = true ->
  X ++ "<<" ++ Y = B ++ "<<" ++ T -> X = B /\ Y = T.
Proof.
  intros HB Hlast HT Hhead. revert X HB Hlast.
  induction B as [|c B IH]; intros X HB Hlast Heq.
  - destruct X as [|x X]; cbn [append] in Heq.
    + injection Heq as ->. auto.
    + exfalso. injection Heq as -> Heq.
      destruct X as [|x X]; cbn [append] in Heq.
      * injection Heq as <-. discriminate Hhead.
      * injection Heq as -> <-.
        exact (eq_true_false_abs _ (contains_middle "<<" X Y) HT).
  - apply contains_cons in HB. destruct HB as [Hpre HB].
    destruct X as [|x X]; cbn [append] in Heq.
    + exfalso. injection Heq as <- Heq.
      destruct B as [|c' B]; cbn [append] in Heq.
      * discriminate Hlast.
      * injection Heq as <- _. cbn in Hpre. destruct B; discriminate Hpre.
    + injection Heq as -> Heq.
      apply last_outside_tail in Hlast.
      destruct (IH X HB Hlast Heq) as [-> ->]. auto.
Qed.

Lemma contains_after_lacking (a b : string) :
  lacks "<" a = true ->
  PyStr.contains "<<" (a ++ b) = PyStr.contains "<<" b.
Proof.
  unfold lacks. induction a as [|c a IH]; [reflexivity|].
  cbn [all_chars append]. intros Ha. apply andb_prop in Ha.
  destruct Ha as [Hc Ha]. cbn [PyStr.contains prefix].
  destruct (ascii_dec "<" c) as [<- | _]; [discriminate Hc|].
  now apply IH.
Qed.

Lemma head_after_lacking (a b : string) :
  lacks "<" a = true -> a <> "" ->
  head_outside (fun c => Ascii.eqb c "<") (a ++ b) = true.
Proof.
  unfold lacks. destruct a as [|c a]; [congruence|].
  cbn [all_chars append head_outside]. intros Ha _.
  apply andb_prop in Ha. tauto.
Qed.

(** A written directive is [<<] followed by text without [<]. *)
Lemma directive_text_inner (kind arg flag : string) :
  recognized (Some kind) -> lacks "<" arg = true -> written_flag flag ->
  exists inner,
    directive_text kind arg flag = "<<" ++ inner
    /\ lacks "<" inner = true /\ inner <> "".
Proof.
  intros Hkind Harg Hflag.
  exists ("hpp_" ++ kind ++ " " ++ arg ++ flag ++ ">>").
  split; [reflexivity|]. split; [|discriminate].
  unfold lacks in *. rewrite !all_chars_append, Harg.
  destruct Hkind as [Hk | [Hk | [Hk | [Hk | Hk]]]]; injection Hk as ->;
    destruct Hflag as [-> | [-> | ->]]; reflexivity.
Qed.

Lemma opener_attaches (op : string) :
  op = "//" \/ op = "/*" \/ op = "<!--" ->
  last_outside attaching op = false.
Proof. intros [-> | [-> | ->]]; reflexivity. Qed.

Lemma append_longer (a b : string) : a = b ++ a -> b = "".
Proof.
  intros Heq. apply (f_equal String.length) in Heq.
  rewrite length_append in Heq. destruct b; [reflexivity|].
  cbn [String.length] in Heq. lia.
Qed.

(** Two texts without [<<], the first not ending in [<], have no [<<]
    when joined. *)
Lemma contains_join (a b : string) :
  PyStr.contains "<<" a = false ->
  last_outside (fun c => Ascii.eqb c "<") a = true ->
  PyStr.contains "<<" b = false ->
  PyStr.contains "<<" (a ++ b) = false.
Proof.
  intros Ha Hlast Hb. induction a as [|c a IH]; [exact Hb|].
  apply contains_cons in Ha. destruct Ha as [Hpre Ha].
  cbn [append PyStr.contains].
  rewrite (IH Ha (last_outside_tail _ _ _ Hlast)), orb_false_r.
  cbn [prefix] in *. destruct (ascii_dec "<" c) as [<- | _]; [|reflexivity].
  destruct a as [|c' a].
  - discriminate Hlast.
  - cbn [append prefix] in *.
    destruct (ascii_dec "<" c') as [_ | _]; [|reflexivity].
    destruct a; discriminate Hpre.
Qed.

Lemma last_outside_lacking (p : ascii -> bool) (s : string) :
  all_chars (fun c => negb (p c)) s = true -> last_outside p s = true.
Proof.
  induction s as [|c s IH]; [reflexivity|].
  cbn [all_chars]. intros Hs. apply andb_prop in Hs. destruct Hs as [Hc Hs].
  destruct s as [|c' s]; [exact Hc | now apply IH].
Qed.

Lemma blank_at_end (p : ascii -> bool) (sp : string) :
  (forall c, is_space c = true -> p c = true) ->
  blank sp -> sp <> "" -> last_outside p sp = false.
Proof.
  intros Hp. unfold blank.
  induction sp as [|c sp IH]; [congruence|]. intros Hall _.
  cbn [all_chars] in Hall. apply andb_prop in Hall. destruct Hall as [Hc Hall].
  destruct sp as [|c' sp].
  - cbn [last_outside]. now rewrite (Hp _ Hc).
  - apply IH; [assumption | discriminate].
Qed.

Lemma opener_and_gap (opener gap : string) :
  comment_opener opener -> blank gap ->
  PyStr.contains "<<" (opener ++ gap) = false
  /\ (opener ++ gap <> "" ->
      last_outside (fun c => Ascii.eqb c "<") (opener ++ gap) = true).
Proof.
  intros Hop Hgap.
  assert (Hlt : lacks "<" gap = true) by now apply blank_lacks_lt.
  assert (Hnone : PyStr.contains "<<" gap = false).
  { rewrite <- (append_nil_r gap). now rewrite contains_after_lacking. }
  split.
  - apply contains_join; [| |assumption];
      destruct Hop as [-> | [-> | [-> | ->]]]; reflexivity.
  - intros _. destruct gap as [|c gap].
    + rewrite append_nil_r.
      destruct Hop as [-> | [-> | [-> | ->]]]; reflexivity.
    + rewrite last_outside_append by discriminate.
      now apply last_outside_lacking.
Qed.

(** The start of a comment does not end another one. *)
Lemma opener_not_nested (opener' opener : string) (c : ascii) (b : string) :
  comment_opener opener' ->
  opener = "//" \/ opener = "/*" \/ opener = "<!--" ->
  opener' = String c b ++ opener -> False.
Proof.
  intros Hop' Hop Heq.
  pose proof (f_equal String.length Heq) as Hlen.
  rewrite length_append in Hlen.
  destruct Hop' as [-> | [-> | [-> | ->]]];
    destruct Hop as [-> | [-> | ->]];
    cbn [String.length] in Hlen; try lia;
    destruct b as [|c1 [|c2 b]]; cbn [String.length] in Hlen; try lia;
    discriminate Heq.
Qed.

Section Context.

Variables (opener gap kind arg flag closer after : string).
Hypothesis Hopener : comment_opener opener.
Hypothesis Hgap : blank gap.
Hypothesis Hkind : recognized (Some kind).
Hypothesis Harg : argument arg.
Hypothesis Hflag : written_flag flag.
Hypothesis Hcloser : comment_closer closer.
Hypothesis Hafter : stays_after after.

(** The [<<] of the directive is the first of the text. *)
Lemma marker_in_context (X Y b : string) :
  PyStr.contains "<<" b = false -> last_outside attaching b = true ->
  X ++ "<<" ++ Y
  = b ++ commented_text opener gap kind arg flag closer ++ after ->
  X = b ++ opener ++ gap.
Proof.
  intros Hb Hlast Heq.
  destruct Harg as (_ & _ & Hlacks). destruct Hafter as (Ha & _ & _).
  destruct (directive_text_inner kind arg flag Hkind Hlacks Hflag)
    as (inner & HD & Hinner & Hne).
  destruct (opener_and_gap opener gap Hopener Hgap) as [Hog Hog_last].
  assert (Hlt : last_outside (fun c => Ascii.eqb c "<") b = true).
  { apply (last_outside_weaken attaching); [|assumption].
    intros c Hc. unfold attaching. rewrite Hc.
    now rewrite orb_true_r, !orb_true_l. }
  unfold commented_text in Heq.
  rewrite HD, !append_assoc in Heq.
  replace (b ++ opener ++ gap ++ "<<" ++ inner ++ closer ++ after)
    with ((b ++ opener ++ gap) ++ "<<" ++ inner ++ closer ++ after) in Heq
    by now rewrite !append_assoc.
  apply marker_position in Heq; [tauto | | | |].
  - now apply contains_join.
  - destruct (opener ++ gap) as [|c s] eqn:Hs.
    + now rewrite append_nil_r.
    + rewrite last_outside_append by discriminate.
      apply Hog_last. discriminate.
  - rewrite contains_after_lacking by assumption.
    rewrite contains_after_lacking; [assumption|].
    destruct Hcloser as [-> | [-> | ->]]; reflexivity.
  - now apply head_after_lacking.
Qed.

(** No occurrence of the pattern starts in the text before. *)
Lemma no_match_before (c : ascii) (b : string) :
  PyStr.contains "<<" (String c b) = false ->
  last_outside attaching (String c b) = true ->
  match_here keyword_regex
             (String c b ++ commented_text opener gap kind arg flag closer
                ++ after)
  = None.
Proof.
  intros Hb Hlast.
  destruct (match_here keyword_regex
              (String c b ++ commented_text opener gap kind arg flag closer
                 ++ after))
    as [m|] eqn:Hm; [exfalso | reflexivity].
  apply match_here_sound in Hm. destruct Hm as (w & s' & g' & Hs & Hw & _).
  apply keyword_regex_span in Hw.
  destruct Hw as [op s0 s1 kd s2 ar fl s3 cl Hw Hop Hs0 _ _ _ _ _ _ _].
  assert (Hpos : op ++ s0 = (String c b ++ opener) ++ gap).
  { rewrite append_assoc.
    apply (marker_in_context (op ++ s0)
             (s1 ++ "hpp_" ++ kd ++ s2 ++ ar ++ fl ++ s3 ++ ">>" ++ cl ++ s'));
      [assumption | assumption |].
    rewrite Hs, Hw, !append_assoc. reflexivity. }
  assert (Hop' : comment_opener op).
  { unfold comment_opener. destruct Hop as [[-> _] | [Hop _]]; tauto. }
  (* the comment delimiter of the occurrence is all of the text before
     and the delimiter of the directive *)
  assert (Hwhole : op = String c b ++ opener).
  { assert (Hend : last_outside is_space (String c b ++ opener) = true).
    { destruct Hopener as [-> | Hopener'].
      - rewrite append_nil_r.
        apply (last_outside_weaken attaching); [|assumption].
        intros x Hx. unfold attaching. now rewrite Hx.
      - rewrite last_outside_append
          by (destruct Hopener' as [-> | [-> | ->]]; discriminate).
        destruct Hopener' as [-> | [-> | ->]]; reflexivity. }
    assert (Hop_end : forall t, t <> "" -> op <> (String c b ++ opener) ++ t
                                \/ last_outside is_space t = true).
    { intros t Ht. destruct (last_outside is_space t) eqn:Hlt; [now right|].
      left. intros Heq.
      assert (Hlo : last_outside is_space op = true)
        by (destruct Hop' as [-> | [-> | [-> | ->]]]; reflexivity).
      rewrite Heq, last_outside_append in Hlo by assumption. congruence. }
    destruct (append_eq_split _ _ _ _ Hpos) as [(t & Hz & Hs0') | (t & Hz & Hsp)].
    - destruct t as [|x t]; [now rewrite append_nil_r in Hz|]. exfalso.
      rewrite Hs0', all_chars_append in Hs0. apply andb_prop in Hs0.
      destruct Hs0 as [Ht _].
      rewrite Hz, last_outside_append in Hend by discriminate.
      rewrite (blank_at_end is_space) in Hend;
        [discriminate | auto | exact Ht | discriminate].
    - destruct t as [|x t]; [now rewrite append_nil_r in Hz|]. exfalso.
      assert (Ht : blank (String x t)).
      { unfold blank in *. rewrite Hsp, all_chars_append in Hgap.
        apply andb_prop in Hgap. tauto. }
      destruct (Hop_end (String x t)) as [Hne | Hlo];
        [discriminate | now apply Hne |].
      rewrite (blank_at_end is_space) in Hlo;
        [discriminate | auto | exact Ht | discriminate]. }
  destruct Hopener as [-> | Hopener'].
  - rewrite append_nil_r in Hwhole. rewrite <- Hwhole in Hlast.
    destruct Hop' as [-> | Hop'']; [discriminate Hwhole|].
    rewrite (opener_attaches op Hop'') in Hlast. discriminate.
  - exact (opener_not_nested op opener c b Hop' Hopener' Hwhole).
Qed.

(** The matched text does not occur in the text before. *)
Lemma not_prefix_before (c : ascii) (b : string) :
  PyStr.contains "<<" (String c b) = false ->
  last_outside attaching (String c b) = true ->
  prefix (commented_text opener gap kind arg flag closer)
         (String c b ++ commented_text opener gap kind arg flag closer
            ++ after)
  = false.
Proof.
  intros Hb Hlast.
  destruct (prefix (commented_text opener gap kind arg flag closer)
                   (String c b
                      ++ commented_text opener gap kind arg flag closer
                      ++ after))
    eqn:Hp; [exfalso | reflexivity].
  apply prefix_split in Hp. destruct Hp as (rest & Hrest).
  destruct Harg as (_ & _ & Hlacks).
  destruct (directive_text_inner kind arg flag Hkind Hlacks Hflag)
    as (inner & HD & _).
  assert (Hpos : opener ++ gap = String c b ++ opener ++ gap).
  { apply (marker_in_context (opener ++ gap) (inner ++ closer ++ rest));
      [assumption | assumption |].
    rewrite Hrest at 1. unfold commented_text at 1. rewrite HD at 1.
    now rewrite !append_assoc. }
  apply append_longer in Hpos. discriminate Hpos.
Qed.

End Context.

Lemma finditer_from_skip (r : regex) (w s : string) :
  finditer_from r (String.length w) (w ++ s) = finditer_from r 0 s.
Proof. induction w as [|c w IH]; [reflexivity | exact IH]. Qed.

Lemma replace_from_skip (old new w s : string) :
  PyStr.replace_from old new (String.length w) (w ++ s)
  = PyStr.replace_from old new 0 s.
Proof. induction w as [|c w IH]; [reflexivity | exact IH]. Qed.

Lemma replace_from_without_marker (pre inner new s : string) :
  PyStr.contains "<<" s = false ->
  PyStr.replace_from (pre ++ "<<" ++ inner) new 0 s = s.
Proof.
  induction s as [|c s IH]; [reflexivity|]. intros Hs.
  cbn [PyStr.replace_from].
  destruct (prefix (pre ++ "<<" ++ inner) (String c s)) eqn:Hp.
  - apply prefix_split in Hp. destruct Hp as (rest & Hrest).
    rewrite (contains_found "<<" pre (inner ++ rest) (String c s)) in Hs;
      [discriminate|].
    rewrite Hrest, !append_assoc. reflexivity.
  - apply contains_cons in Hs. destruct Hs as [_ Hs]. now rewrite IH.
Qed.

Lemma finditer_from_here (r : regex) (w s : string) (m : re_match) :
  w <> "" -> match_here r (w ++ s) = Some m -> group0 m = w ->
  finditer_from r 0 (w ++ s) = m :: finditer_from r 0 s.
Proof.
  intros Hne Hm Hg. destruct w as [|c w]; [congruence|].
  cbn [append finditer_from]. cbn [append] in Hm.
  rewrite Hm, Hg. cbn [String.length]. rewrite Nat.sub_succ, Nat.sub_0_r.
  now rewrite finditer_from_skip.
Qed.

Lemma replace_from_here (old new s : string) :
  old <> "" ->
  PyStr.replace_from old new 0 (old ++ s)
  = new ++ PyStr.replace_from old new 0 s.
Proof.
  intros Hne. pose proof (prefix_append old s) as Hp.
  destruct old as [|c w]; [congruence|].
  cbn [append PyStr.replace_from] in *. rewrite Hp.
  cbn [String.length]. rewrite Nat.sub_succ, Nat.sub_0_r.
  now rewrite replace_from_skip.
Qed.

Lemma replace_not_empty (old new s : string) :
  old <> "" -> PyStr.replace old new s = PyStr.replace_from old new 0 s.
Proof. destruct old; [congruence | reflexivity]. Qed.

Lemma group0_commented_match (opener gap kind arg flag closer : string) :
  group0 (commented_match opener gap kind arg flag closer)
  = commented_text opener gap kind arg flag closer.
Proof. reflexivity. Qed.

Lemma commented_text_not_empty (opener gap kind arg flag closer : string) :
  commented_text opener gap kind arg flag closer <> "".
Proof.
  unfold commented_text. destruct opener; [|discriminate].
  destruct gap; discriminate.
Qed.

Lemma commented_text_marker (opener gap kind arg flag closer : string) :
  recognized (Some kind) -> lacks "<" arg = true -> written_flag flag ->
  exists inner,
    commented_text opener gap kind arg flag closer
    = (opener ++ gap) ++ "<<" ++ inner.
Proof.
  intros Hkind Hlacks Hflag.
  destruct (directive_text_inner kind arg flag Hkind Hlacks Hflag)
    as (inner & HD & _).
  exists (inner ++ closer). unfold commented_text.
  now rewrite HD, !append_assoc.
Qed.

(** The scan of a text that holds one written directive, in a comment
    or not, between text that stays out of its span, yields that
    directive and nothing else; the comment delimiters and the white
    space before the directive are part of the occurrence. *)
Lemma scan_of_commented
      (opener gap kind arg flag closer before after : string) :
  comment_opener opener -> blank gap ->
  recognized (Some kind) -> argument arg -> written_flag flag ->
  comment_closer closer ->
  stays_before before -> stays_after after ->
  finditer keyword_regex
           (before ++ commented_text opener gap kind arg flag closer ++ after)
  = [commented_match opener gap kind arg flag closer].
Proof.
  intros Hop Hgap Hkind Harg Hflag Hcl [Hb Hlast] Hafter. unfold finditer.
  induction before as [|c b IH].
  - cbn [append]. destruct Harg as (Hne & Htok & Hlacks).
    destruct Hafter as (Ha & Hgt & Hhead).
    rewrite (finditer_from_here keyword_regex _ after
               (commented_match opener gap kind arg flag closer)).
    + f_equal. exact (scan_without_marker after Ha).
    + apply commented_text_not_empty.
    + now apply match_here_directive.
    + reflexivity.
  - cbn [append finditer_from].
    pose proof (no_match_before opener gap kind arg flag closer after
                  Hop Hgap Hkind Harg Hflag Hcl Hafter c b Hb Hlast) as Hm.
    cbn [append] in Hm. rewrite Hm.
    apply IH.
    + now apply contains_cons in Hb.
    + now apply last_outside_tail in Hlast.
Qed.

(** Replacing the matched text in such a text touches that one place. *)
Lemma replace_of_commented
      (opener gap kind arg flag closer before after new : string) :
  comment_opener opener -> blank gap ->
  recognized (Some kind) -> argument arg -> written_flag flag ->
  comment_closer closer ->
  stays_before before -> stays_after after ->
  PyStr.replace (commented_text opener gap kind arg flag closer) new
                (before ++ commented_text opener gap kind arg flag closer
                   ++ after)
  = before ++ new ++ after.
Proof.
  intros Hop Hgap Hkind Harg Hflag Hcl [Hb Hlast] Hafter.
  rewrite replace_not_empty by apply commented_text_not_empty.
  induction before as [|c b IH].
  - cbn [append]. destruct Harg as (_ & _ & Hlacks).
    destruct Hafter as (Ha & _).
    rewrite replace_from_here by apply commented_text_not_empty.
    f_equal.
    destruct (commented_text_marker opener gap kind arg flag closer
                Hkind Hlacks Hflag) as (inner & ->).
    now apply replace_from_without_marker.
  - pose proof (not_prefix_before opener gap kind arg flag closer after
                  Hop Hgap Hkind Harg Hflag Hcl Hafter c b Hb Hlast) as Hp.
    cbn [append PyStr.replace_from] in *. rewrite Hp. f_equal.
    apply IH.
    + now apply contains_cons in Hb.
    + now apply last_outside_tail in Hlast.
Qed.

Lemma commented_text_plain (indent kind arg flag : string) :
  commented_text "" indent kind arg flag ""
  = indent ++ directive_text kind arg flag.
Proof. unfold commented_text. now rewrite append_nil_r. Qed.

Lemma commented_match_plain (indent kind arg flag : string) :
  commented_match "" indent kind arg flag ""
  = directive_match indent kind arg flag.
Proof.
  unfold commented_match, directive_match.
  now rewrite commented_text_plain.
Qed.

(** The same for a directive that stands in no comment. *)
Lemma scan_of_directive (indent kind arg flag before after : string) :
  blank indent ->
  recognized (Some kind) -> argument arg -> written_flag flag ->
  stays_before before -> stays_after after ->
  finditer keyword_regex
           (before ++ indent ++ directive_text kind arg flag ++ after)
  = [directive_match indent kind arg flag].
Proof.
  intros Hindent Hkind Harg Hflag Hb Ha.
  rewrite <- commented_match_plain, <- (append_assoc indent),
    <- commented_text_plain.
  apply scan_of_commented; try assumption; now left.
Qed.

Section Expansion.

Context `{PyRuntime}.
Variable self : HtmlPreprocessor.
Variable fs : filesystem.

(** The expansion of a text with one written directive: the directive is
    resolved, and what it resolves to stands in the place of the
    directive, of the comment around it and of the white space before
    it. *)
Lemma parse_contents_of_commented
      (d : nat) (loaded : registry)
      (opener gap kind arg flag closer before after : string) :
  comment_opener opener -> blank gap ->
  recognized (Some kind) -> argument arg -> written_flag flag ->
  comment_closer closer ->
  stays_before before -> stays_after after ->
  parse_contents self fs (S d) loaded
                 (before ++ commented_text opener gap kind arg flag closer
                    ++ after)
  = ('(content, l) <- resolve_directive self fs (parse_contents self fs d)
                        loaded
                        (commented_match opener gap kind arg flag closer) ;;
     Return (before ++ content ++ after, l)).
Proof.
  intros Hop Hgap Hkind Harg Hflag Hcl Hb Ha.
  rewrite parse_contents_unfold.
  rewrite (parse_body_one_match self fs _ loaded _
             (commented_match opener gap kind arg flag closer))
    by now apply scan_of_commented.
  destruct (resolve_directive self fs (parse_contents self fs d) loaded
              (commented_match opener gap kind arg flag closer))
    as [[content l] | e]; [|reflexivity].
  cbn [bind]. rewrite group0_commented_match.
  now rewrite replace_of_commented.
Qed.

Lemma parse_contents_of_directive
      (d : nat) (loaded : registry)
      (indent kind arg flag before after : string) :
  blank indent ->
  recognized (Some kind) -> argument arg -> written_flag flag ->
  stays_before before -> stays_after after ->
  parse_contents self fs (S d) loaded
                 (before ++ indent ++ directive_text kind arg flag ++ after)
  = ('(content, l) <- resolve_directive self fs (parse_contents self fs d)
                        loaded (directive_match indent kind arg flag) ;;
     Return (before ++ content ++ after, l)).
Proof.
  intros Hindent Hkind Harg Hflag Hb Ha.
  rewrite <- commented_match_plain, <- (append_assoc indent),
    <- commented_text_plain.
  apply parse_contents_of_commented; try assumption; now left.
Qed.

End Expansion.

(* ===================================================================== *)
(** ** Further properties: directives in a page *)
(* ===================================================================== *)

Lemma directive_match_kind (indent kind arg flag : string) :
  group (directive_match indent kind arg flag) 2 = Some kind.
Proof. unfold directive_match, with_flag. now destruct flag. Qed.

Lemma directive_match_arg (indent kind arg flag : string) :
  group (directive_match indent kind arg flag) 3 = Some arg.
Proof. unfold directive_match, with_flag. now destruct flag. Qed.

Lemma directive_match_flags (indent kind arg flag : string) :
  written_flag flag ->
  read_flags (group (directive_match indent kind arg flag) 4)
  = {| compress := String.eqb flag " compress";
       dup := String.eqb flag " dup" |}.
Proof. intros [-> | [-> | ->]]; reflexivity. Qed.

(** X15.  A directive written as [<<hpp_KIND ARG>>], [<<hpp_KIND ARG
    compress>>] or [<<hpp_KIND ARG dup>>], between text that stays out of
    its span, is the one occurrence the scan of [parse_contents] yields.
    Group 0 is the directive together with the white space that stands
    before it, group 2 its keyword, group 3 its argument, group 4 its
    flag with the blank before it, and there is no comment delimiter in
    groups 1 and 5. *)
Theorem written_directive_found_once
        (indent kind arg flag before after : string) :
  blank indent ->
  recognized (Some kind) -> argument arg -> written_flag flag ->
  stays_before before -> stays_after after ->
  exists m : re_match,
    finditer keyword_regex
             (before ++ indent ++ directive_text kind arg flag ++ after)
    = [m]
    /\ group m 0 = Some (indent ++ directive_text kind arg flag)
    /\ group m 1 = None
    /\ group m 2 = Some kind
    /\ group m 3 = Some arg
    /\ group m 4 = (if String.eqb flag "" then None else Some flag)
    /\ group m 5 = None.
Proof.
  intros Hindent Hkind Harg Hflag Hb Ha.
  exists (directive_match indent kind arg flag).
  split; [now apply scan_of_directive|].
  destruct Hflag as [-> | [-> | ->]]; repeat split.
Qed.

Lemma written_directive_found_once_witness :
  exists m : re_match,
    finditer keyword_regex
      ("<td>" ++ "  " ++ directive_text "script" "app.js" " dup" ++ "</td>")
    = [m]
    /\ group m 0 = Some ("  " ++ directive_text "script" "app.js" " dup")
    /\ group m 1 = None
    /\ group m 2 = Some "script"
    /\ group m 3 = Some "app.js"
    /\ group m 4 = (if String.eqb " dup" "" then None else Some " dup")
    /\ group m 5 = None.
Proof.
  apply (written_directive_found_once "  " "script" "app.js" " dup"
           "<td>" "</td>").
  - reflexivity.
  - right. left. reflexivity.
  - split; [discriminate | split; reflexivity].
  - right. right. reflexivity.
  - split; reflexivity.
  - repeat split.
Defined.

Section Pages.

Context `{PyRuntime}.
Variable self : HtmlPreprocessor.
Variable fs : filesystem.

(** X16.  A [pyvar] directive without [compress] for a bound name, in
    text that stays out of its span: the page comes back with the text
    of the value, its [str] form or its JSON serialization, in the place
    of the directive and of the white space before it, and with the
    registry as it was. *)
Theorem pyvar_in_context
        (d : nat) (loaded : registry)
        (table : string -> option pyvalue) (val : pyvalue)
        (indent name flag text before after : string) :
  var_dict self = Some table -> table name = Some val ->
  value_text self val = Return text ->
  blank indent -> argument name -> flag = "" \/ flag = " dup" ->
  stays_before before -> stays_after after ->
  parse_contents self fs (S d) loaded
                 (before ++ indent ++ directive_text "pyvar" name flag
                    ++ after)
  = Return (before ++ text ++ after, loaded).
Proof.
  intros Hvars Hval Htext Hindent Hname Hflag Hb Ha.
  assert (Hwritten : written_flag flag)
    by (unfold written_flag; tauto).
  rewrite parse_contents_of_directive
    by (try assumption; repeat right; reflexivity).
  unfold resolve_directive.
  rewrite directive_match_kind, directive_match_arg,
    directive_match_flags by assumption.
  cbn [is_keyword String.eqb Ascii.eqb Bool.eqb].
  unfold pyvar_content. rewrite Hvars, Hval.
  assert (Hc : String.eqb flag " compress" = false)
    by (destruct Hflag as [-> | ->]; reflexivity).
  destruct val as [p | o]; cbn [value_text] in Htext.
  - injection Htext as <-. cbn [bind compress]. rewrite Hc. reflexivity.
  - rewrite Htext. cbn [bind compress]. rewrite Hc. reflexivity.
Qed.

(** X17.  An [insert] directive for a file that is not registered, in
    text that stays out of its span: the file is registered and read,
    its text is expanded in turn, and the expansion stands in the place
    of the directive and of the white space before it, between the text
    before and the text after. *)
Theorem insert_in_context
        (d : nat) (loaded l : registry)
        (indent name flag bytes expanded before after : string) :
  blank indent -> argument name -> written_flag flag ->
  stays_before before -> stays_after after ->
  seen (resolve_pathname self name) loaded = false ->
  fs (fspath (resolve_pathname self name)) = Some bytes ->
  parse_contents self fs d (loaded ++ [resolve_pathname self name])%list
                 (Codec.universal_newlines bytes)
  = Return (expanded, l) ->
  parse_contents self fs (S d) loaded
                 (before ++ indent ++ directive_text "insert" name flag
                    ++ after)
  = Return (before ++ expanded ++ after, l).
Proof.
  intros Hindent Hname Hflag Hb Ha Hseen Hfile Hrec.
  rewrite parse_contents_of_directive
    by (try assumption; left; reflexivity).
  unfold resolve_directive.
  rewrite directive_match_kind, directive_match_arg.
  cbn [is_keyword String.eqb Ascii.eqb Bool.eqb as_str bind].
  unfold seen in Hseen. unfold load_file, read_file.
  rewrite Hseen, Hfile. cbn [andb bind Codec.str].
  rewrite Hrec. reflexivity.
Qed.

(** X18.  A [style] or [script] directive for such a file: the expanded
    text comes back inside a [<style type="text/css">] element, or, when
    it is not empty and the flag is not [compress], inside a
    [<script type="text/javascript">] element, each with a newline
    after the opening and before the closing tag. *)
Theorem element_in_context
        (d : nat) (loaded l : registry)
        (indent name flag bytes expanded before after : string) :
  blank indent -> argument name -> written_flag flag ->
  stays_before before -> stays_after after ->
  seen (resolve_pathname self name) loaded = false ->
  fs (fspath (resolve_pathname self name)) = Some bytes ->
  parse_contents self fs d (loaded ++ [resolve_pathname self name])%list
                 (Codec.universal_newlines bytes)
  = Return (expanded, l) ->
  parse_contents self fs (S d) loaded
                 (before ++ indent ++ directive_text "style" name flag
                    ++ after)
  = Return (before
              ++ ("<style type=" ++ dquote ++ "text/css" ++ dquote ++ ">"
                    ++ nl ++ expanded ++ nl ++ "</style>")
              ++ after, l)
  /\ (expanded <> "" -> flag <> " compress" ->
      parse_contents self fs (S d) loaded
                     (before ++ indent ++ directive_text "script" name flag
                        ++ after)
      = Return (before
                  ++ ("<script type=" ++ dquote ++ "text/javascript"
                        ++ dquote ++ ">" ++ nl ++ expanded ++ nl
                        ++ "</script>")
                  ++ after, l)).
Proof.
  intros Hindent Hname Hflag Hb Ha Hseen Hfile Hrec.
  unfold seen in Hseen. split.
  - rewrite parse_contents_of_directive
      by (try assumption; right; right; left; reflexivity).
    unfold resolve_directive.
    rewrite directive_match_kind, directive_match_arg.
    cbn [is_keyword String.eqb Ascii.eqb Bool.eqb as_str bind].
    unfold load_file, read_file.
    rewrite Hseen, Hfile. cbn [andb bind Codec.str].
    rewrite Hrec. reflexivity.
  - intros Hne Hc.
    rewrite parse_contents_of_directive
      by (try assumption; right; left; reflexivity).
    unfold resolve_directive.
    rewrite directive_match_kind, directive_match_arg,
      directive_match_flags by assumption.
    cbn [is_keyword String.eqb Ascii.eqb Bool.eqb as_str bind].
    unfold load_file, read_file.
    rewrite Hseen, Hfile. cbn [andb bind Codec.str].
    rewrite Hrec. cbn [bind].
    apply String.eqb_neq in Hne, Hc. rewrite Hne. cbn [negb compress].
    rewrite Hc. reflexivity.
Qed.

(** X19.  A page that inserts itself does not loop: by the time the
    directive is handled the page is registered, so the directive
    resolves to the empty string, and the page comes back once, without
    the directive. *)
Theorem page_inserting_itself
        (d : nat) (loaded : registry)
        (indent name flag bytes before after : string) :
  blank indent -> argument name -> written_flag flag ->
  stays_before before -> stays_after after ->
  seen (resolve_pathname self (start_filename self)) loaded = false ->
  fs (fspath (resolve_pathname self (start_filename self))) = Some bytes ->
  Codec.universal_newlines bytes
  = before ++ indent ++ directive_text "insert" name flag ++ after ->
  resolve_pathname self name = resolve_pathname self (start_filename self) ->
  expand_start self fs (S (S d)) loaded
  = Return (before ++ after,
            (loaded ++ [resolve_pathname self (start_filename self)])%list).
Proof.
  intros Hindent Hname Hflag Hb Ha Hseen Hfile Htext Hsame.
  unfold seen in Hseen. unfold expand_start, load_file, read_file.
  rewrite Hseen, Hfile. cbn [andb bind Codec.str]. rewrite Htext.
  rewrite parse_contents_of_directive
    by (try assumption; left; reflexivity).
  unfold resolve_directive.
  rewrite directive_match_kind, directive_match_arg.
  cbn [is_keyword String.eqb Ascii.eqb Bool.eqb as_str bind].
  unfold load_file. rewrite Hsame.
  rewrite existsb_app. cbn [existsb]. rewrite pathname_eqb_refl.
  rewrite orb_true_r. cbn [orb andb negb bind].
  rewrite parse_contents_empty. reflexivity.
Qed.


(** X21.  On a preprocessor constructed without [var_dict], a [pyvar]
    directive ends the expansion with [TypeError], not with the
    [ValueError] for an undefined variable: the membership test is made
    on [None]. *)
Theorem pyvar_without_var_dict
        (d : nat) (loaded : registry)
        (indent name flag before after : string) :
  var_dict self = None ->
  blank indent -> argument name -> written_flag flag ->
  stays_before before -> stays_after after ->
  parse_contents self fs (S d) loaded
                 (before ++ indent ++ directive_text "pyvar" name flag
                    ++ after)
  = Raise TypeError.
Proof.
  intros Hvars Hindent Hname Hflag Hb Ha.
  rewrite parse_contents_of_directive
    by (try assumption; repeat right; reflexivity).
  unfold resolve_directive.
  rewrite directive_match_kind, directive_match_arg.
  cbn [is_keyword String.eqb Ascii.eqb Bool.eqb].
  unfold pyvar_content. rewrite Hvars. reflexivity.
Qed.

(** X22.  The registry tells a file named by an absolute path from the
    same file named relative to the start directory: the one is
    registered as the [str] it was given as, the other as a [Path], and
    the two never compare equal.  A file loaded under its absolute name
    is therefore read again under a relative name, and registered a
    second time. *)
Theorem same_file_under_two_names
        (loaded l : registry) (absolute relative text bytes : string) :
  is_absolute absolute = true -> is_absolute relative = false ->
  fspath (resolve_pathname self relative) = absolute ->
  fs absolute = Some bytes ->
  seen (resolve_pathname self relative) loaded = false ->
  load_file self fs loaded absolute false false = Return (text, l) ->
  load_file self fs l relative false false
  = Return (Codec.universal_newlines bytes,
            (l ++ [resolve_pathname self relative])%list).
Proof.
  intros Habs Hrel Hsame Hfile Hseen Hload.
  assert (Hl : seen (resolve_pathname self relative) l = false).
  { unfold load_file in Hload. unfold resolve_pathname in Hload at 1 2 3.
    unfold seen, resolve_pathname in *. rewrite Habs in Hload.
    rewrite Hrel in *. cbn [negb] in *.
    destruct (existsb (pathname_eqb (StrPath absolute)) loaded);
      cbn [andb] in Hload.
    - injection Hload as _ <-. exact Hseen.
    - unfold read_file in Hload. cbn [fspath] in Hload.
      rewrite Hfile in Hload. cbn [bind] in Hload. injection Hload as _ <-.
      rewrite existsb_app, Hseen. reflexivity. }
  unfold seen in Hl. unfold load_file, read_file.
  rewrite Hl, Hsame, Hfile. reflexivity.
Qed.

End Pages.

Lemma pyvar_in_context_witness :
  @parse_contents Demo.runtime (Site.pp false) Site.files 1 []
    ("<h1>" ++ nl ++ "  " ++ directive_text "pyvar" "count" "" ++ "</h1>")
  = Return ("<h1>" ++ "3" ++ "</h1>", []).
Proof.
  apply (@pyvar_in_context Demo.runtime (Site.pp false) Site.files 0 []
           Site.vars (Prim (VInt 3)) (nl ++ "  ") "count" "" "3"
           "<h1>" "</h1>");
    try reflexivity.
  - split; [discriminate | split; reflexivity].
  - left. reflexivity.
  - split; reflexivity.
  - repeat split.
Defined.

Lemma insert_in_context_witness :
  @parse_contents Demo.runtime (Site.pp false) Site.files 3 []
    ("<nav>" ++ " " ++ directive_text "insert" "nested.html" "" ++ "</nav>")
  = Return ("<nav>" ++ "<ul><li>one</li></ul>" ++ "</nav>",
            [PurePath ["www"; "nested.html"]; PurePath ["www"; "item.html"]]).
Proof.
  apply (@insert_in_context Demo.runtime (Site.pp false) Site.files 2 []
           [PurePath ["www"; "nested.html"]; PurePath ["www"; "item.html"]]
           " " "nested.html" "" "<ul><<hpp_insert item.html>></ul>"
           "<ul><li>one</li></ul>" "<nav>" "</nav>");
    try reflexivity.
  - split; [discriminate | split; reflexivity].
  - left. reflexivity.
  - split; reflexivity.
  - repeat split.
Defined.

Lemma element_in_context_witness :
  @parse_contents Demo.runtime (Site.pp false) Site.files 2 []
    ("<head>" ++ "" ++ directive_text "style" "app.js" "" ++ "</head>")
  = Return ("<head>"
              ++ ("<style type=" ++ dquote ++ "text/css" ++ dquote ++ ">"
                    ++ nl ++ "start();" ++ nl ++ "</style>")
              ++ "</head>", [PurePath ["www"; "app.js"]])
  /\ ("start();" <> "" -> "" <> " compress" ->
      @parse_contents Demo.runtime (Site.pp false) Site.files 2 []
        ("<head>" ++ "" ++ directive_text "script" "app.js" "" ++ "</head>")
      = Return ("<head>"
                  ++ ("<script type=" ++ dquote ++ "text/javascript"
                        ++ dquote ++ ">" ++ nl ++ "start();" ++ nl
                        ++ "</script>")
                  ++ "</head>", [PurePath ["www"; "app.js"]])).
Proof.
  apply (@element_in_context Demo.runtime (Site.pp false) Site.files 1 []
           [PurePath ["www"; "app.js"]] "" "app.js" "" "start();" "start();"
           "<head>" "</head>");
    try reflexivity.
  - split; [discriminate | split; reflexivity].
  - left. reflexivity.
  - split; reflexivity.
  - repeat split.
Defined.

Lemma page_inserting_itself_witness :
  @expand_start Demo.runtime Site.pp_loop Site.files 2 []
  = Return ("<p>again</p>" ++ "<p>end</p>", [PurePath ["www"; "loop.html"]]).
Proof.
  apply (@page_inserting_itself Demo.runtime Site.pp_loop Site.files 0 []
           "" "loop.html" ""
           "<p>again</p><<hpp_insert loop.html>><p>end</p>"
           "<p>again</p>" "<p>end</p>");
    try reflexivity.
  - split; [discriminate | split; reflexivity].
  - left. reflexivity.
  - split; reflexivity.
  - repeat split.
Defined.


Lemma pyvar_without_var_dict_witness :
  @parse_contents Demo.runtime Site.pp_bare Site.files 1 []
    ("<h1>" ++ "" ++ directive_text "pyvar" "title" "" ++ "</h1>")
  = Raise TypeError.
Proof.
  apply (@pyvar_without_var_dict Demo.runtime Site.pp_bare Site.files 0 []
           "" "title" "" "<h1>" "</h1>");
    try reflexivity.
  - split; [discriminate | split; reflexivity].
  - left. reflexivity.
  - split; reflexivity.
  - repeat split.
Defined.

Lemma same_file_under_two_names_witness :
  @load_file Demo.runtime (Site.pp false) Site.files
    [StrPath "/www/main.css"] "main.css" false false
  = Return (Codec.universal_newlines "body { margin: 0 }",
            [StrPath "/www/main.css"; PurePath ["www"; "main.css"]]).
Proof.
  apply (@same_file_under_two_names Demo.runtime (Site.pp false) Site.files
           [] [StrPath "/www/main.css"] "/www/main.css" "main.css"
           "body { margin: 0 }" "body { margin: 0 }");
    reflexivity.
Defined.

(* ===================================================================== *)
(** ** Further properties: several directives, and their flags *)
(* ===================================================================== *)

Section Twice.

Context `{PyRuntime}.
Variable self : HtmlPreprocessor.
Variable fs : filesystem.

(** X23.  Two [insert] directives for the same file in one buffer, the
    file not being registered and holding no directive.  The first
    iteration reads the file and replaces every occurrence of the first
    directive's matched text by the file's text; the second finds the
    file registered and replaces what is left of its own matched text by
    the empty string.  So two directives written alike both become the
    file's text, and a second one written otherwise is removed. *)
Theorem insert_written_twice
        (d : nat) (loaded : registry) (text name bytes : string)
        (m1 m2 : re_match) :
  finditer keyword_regex text = [m1; m2] ->
  group m1 2 = Some "insert" -> group m1 3 = Some name ->
  group m2 2 = Some "insert" -> group m2 3 = Some name ->
  seen (resolve_pathname self name) loaded = false ->
  fs (fspath (resolve_pathname self name)) = Some bytes ->
  finditer keyword_regex (Codec.universal_newlines bytes) = [] ->
  parse_contents self fs (S (S d)) loaded text
  = Return (PyStr.replace (group0 m2) ""
              (PyStr.replace (group0 m1) (Codec.universal_newlines bytes)
                 text),
            (loaded ++ [resolve_pathname self name])%list).
Proof.
  intros Hscan Hk1 Ha1 Hk2 Ha2 Hseen Hfile Hplain. unfold seen in Hseen.
  rewrite parse_contents_unfold. unfold parse_body.
  rewrite Hscan. cbn [for_each].
  unfold handle_directive at 1. unfold resolve_directive.
  rewrite Hk1, Ha1.
  cbn [is_keyword String.eqb Ascii.eqb Bool.eqb as_str bind
       contents loaded_filenames].
  unfold load_file at 1. unfold read_file.
  rewrite Hseen, Hfile. cbn [andb bind Codec.str].
  rewrite (parse_contents_no_match _ _ _ _ _ Hplain). cbn [bind].
  unfold handle_directive. unfold resolve_directive.
  rewrite Hk2, Ha2.
  cbn [is_keyword String.eqb Ascii.eqb Bool.eqb as_str bind
       contents loaded_filenames].
  unfold load_file. rewrite existsb_app. cbn [existsb].
  rewrite pathname_eqb_refl, orb_true_r. cbn [orb andb negb bind].
  rewrite parse_contents_empty. reflexivity.
Qed.

End Twice.

Lemma insert_written_twice_witness :
  @parse_contents Demo.runtime (Site.pp false) Site.files 2 []
    "<ol><<hpp_insert item.html>><<hpp_insert item.html>></ol>"
  = Return ("<ol><li>one</li><li>one</li></ol>",
            [PurePath ["www"; "item.html"]]).
Proof.
  apply (@insert_written_twice Demo.runtime (Site.pp false) Site.files 0 []
           "<ol><<hpp_insert item.html>><<hpp_insert item.html>></ol>"
           "item.html" "<li>one</li>"
           (occurrence 0
              "<ol><<hpp_insert item.html>><<hpp_insert item.html>></ol>")
           (occurrence 1
              "<ol><<hpp_insert item.html>><<hpp_insert item.html>></ol>"));
    reflexivity.
Defined.

Lemma no_compress_in_dup (sp : string) :
  blank sp -> PyStr.contains "compress" (sp ++ "dup") = false.
Proof.
  unfold blank. induction sp as [|c sp IH]; [reflexivity|].
  cbn [all_chars append]. intros Hsp. apply andb_prop in Hsp.
  destruct Hsp as [Hc Hsp]. cbn [PyStr.contains prefix].
  destruct (ascii_dec "c" c) as [<- | _]; [discriminate Hc|].
  now apply IH.
Qed.

(** X24.  The flag table of a directive occurrence is one of three: no
    flag, [compress] alone, [dup] alone.  The pattern admits one flag
    word after white space, so the [elif] that tests for [dup] never
    hides a flag, and [compress] and [dup] are never set together. *)
Theorem flag_table_of_occurrence (text : string) (m : re_match) :
  In m (finditer keyword_regex text) ->
  (group m 4 = None
   /\ read_flags (group m 4) = {| compress := false; dup := false |})
  \/ (exists sp, blank sp /\ sp <> ""
        /\ group m 4 = Some (sp ++ "compress")
        /\ read_flags (group m 4) = {| compress := true; dup := false |})
  \/ (exists sp, blank sp /\ sp <> ""
        /\ group m 4 = Some (sp ++ "dup")
        /\ read_flags (group m 4) = {| compress := false; dup := true |}).
Proof.
  intros Hin. apply finditer_keyword_span in Hin.
  destruct Hin as (pre & post & _ & Hspan).
  destruct Hspan as [op s0 s1 kd s2 ar fl s3 cl _ _ _ _ _ _ _ Hfl _ _].
  unfold group.
  destruct Hfl as [[_ Hg] | (sp & Hsp & Hne & [-> | ->] & Hg)]; rewrite Hg.
  - left. auto.
  - right. left. exists sp. repeat split; try assumption.
    unfold read_flags.
    now rewrite (contains_found "compress" sp "" (sp ++ "compress")).
  - right. right. exists sp. repeat split; try assumption.
    unfold read_flags. rewrite (no_compress_in_dup sp Hsp).
    now rewrite (contains_found "dup" sp "" (sp ++ "dup")).
Qed.

Lemma flag_table_of_occurrence_witness :
  (group (occurrence 0 "<<hpp_script app.js   dup>>") 4 = None
   /\ read_flags (group (occurrence 0 "<<hpp_script app.js   dup>>") 4)
      = {| compress := false; dup := false |})
  \/ (exists sp, blank sp /\ sp <> ""
        /\ group (occurrence 0 "<<hpp_script app.js   dup>>") 4
           = Some (sp ++ "compress")
        /\ read_flags (group (occurrence 0 "<<hpp_script app.js   dup>>") 4)
           = {| compress := true; dup := false |})
  \/ (exists sp, blank sp /\ sp <> ""
        /\ group (occurrence 0 "<<hpp_script app.js   dup>>") 4
           = Some (sp ++ "dup")
        /\ read_flags (group (occurrence 0 "<<hpp_script app.js   dup>>") 4)
           = {| compress := false; dup := true |}).
Proof.
  apply (flag_table_of_occurrence "<<hpp_script app.js   dup>>"
           (occurrence 0 "<<hpp_script app.js   dup>>")).
  left. reflexivity.
Defined.

(* ===================================================================== *)
(** ** Further properties: variable names of a function component *)
(* ===================================================================== *)

(** The longest word of a class at the start of a text. *)
Lemma longest_word (p : ascii -> bool) (s : string) :
  exists w s', s = w ++ s' /\ all_chars p w = true
               /\ head_outside p s' = true.
Proof.
  induction s as [|c s (w & s' & -> & Hw & Hs')].
  - exists "", "". auto.
  - destruct (p c) eqn:Hc.
    + exists (String c w), s'. cbn [append all_chars]. rewrite Hc, Hw. auto.
    + exists "", (String c (w ++ s')). cbn [head_outside]. rewrite Hc. auto.
Qed.

Lemma eqb_with_rest (w s : string) :
  String.eqb w (w ++ s) = String.eqb s "".
Proof.
  induction w as [|c w IH]; cbn [append String.eqb].
  - destruct s; reflexivity.
  - now rewrite Ascii.eqb_refl.
Qed.

Lemma namecheck_match (c : ascii) (w s : string) :
  FuncComp.name_start c = true ->
  all_chars FuncComp.name_char w = true ->
  head_outside FuncComp.name_char s = true ->
  match_here FuncComp.namecheck_rgx (String c (w ++ s))
  = Some (gset 0 (String c w) no_groups).
Proof.
  intros Hc Hw Hs. unfold match_here, FuncComp.namecheck_rgx.
  rewrite rmatch_cat, rmatch_cls_cons, Hc.
  apply star_cls_longest; [assumption | assumption |].
  change (String c (w ++ s)) with (String c w ++ s).
  now rewrite consumed_append.
Qed.

(** [_check_var_name] by cases. *)
Lemma check_var_name_unfolded (name : string) :
  FuncComp._check_var_name name
  = if negb (FuncComp.identifier name)
    then inl (FuncComp.NameError_not_valid name)
    else if existsb (String.eqb name) FuncComp._disallowed_varnames
         then inl (FuncComp.NameError_reserved name)
         else inr tt.
Proof.
  unfold FuncComp._check_var_name. destruct name as [|c s]; [reflexivity|].
  cbn [FuncComp.identifier].
  destruct (FuncComp.name_start c) eqn:Hc.
  - destruct (longest_word FuncComp.name_char s) as (w & s' & -> & Hw & Hs').
    rewrite (namecheck_match c w s' Hc Hw Hs').
    change (group0 (gset 0 (String c w) no_groups)) with (String c w).
    change (String c (w ++ s')) with (String c w ++ s') at 1.
    rewrite eqb_with_rest, all_chars_append, Hw. cbn [andb].
    destruct s' as [|x s']; [reflexivity|].
    cbn [head_outside] in Hs'. apply negb_true_iff in Hs'.
    cbn [String.eqb all_chars negb]. now rewrite Hs'.
  - unfold match_here, FuncComp.namecheck_rgx.
    now rewrite rmatch_cat, rmatch_cls_cons, Hc.
Qed.

(** X25.  [_check_var_name] lets a name pass exactly when it is a letter
    or an underscore followed by letters, digits and underscores, all of
    them ASCII, and is none of [has_diag_partials], [units], [shape],
    [shape_by_conn] and [run_root_only].  Each of these five raises the
    [NameError] for a reserved keyword, and every name of another form,
    the empty name among them, the [NameError] for a name that is not
    valid. *)
Theorem check_var_name_passes (name : string) :
  (FuncComp._check_var_name name = inr tt <->
   FuncComp.identifier name = true
   /\ ~ In name FuncComp._disallowed_varnames)
  /\ (In name FuncComp._disallowed_varnames ->
      FuncComp._check_var_name name = inl (FuncComp.NameError_reserved name))
  /\ (FuncComp.identifier name = false ->
      FuncComp._check_var_name name
      = inl (FuncComp.NameError_not_valid name)).
Proof.
  rewrite check_var_name_unfolded. split; [|split].
  - destruct (FuncComp.identifier name); cbn [negb].
    + destruct (existsb (String.eqb name) FuncComp._disallowed_varnames)
        eqn:Hr.
      * split; [discriminate|]. intros [_ Hout]. exfalso. apply Hout.
        apply existsb_exists in Hr. destruct Hr as (x & Hin & Hx).
        apply String.eqb_eq in Hx. now subst.
      * split; [|reflexivity]. intros _. split; [reflexivity|].
        intros Hin.
        assert (Ht : existsb (String.eqb name) FuncComp._disallowed_varnames
                     = true).
        { apply existsb_exists. exists name. split; [assumption|].
          apply String.eqb_refl. }
        congruence.
    + split; [discriminate | intros [Hid _]; discriminate Hid].
  - intros Hin.
    assert (Hid : FuncComp.identifier name = true).
    { cbn [In FuncComp._disallowed_varnames] in Hin.
      destruct Hin as [<- | [<- | [<- | [<- | [<- | []]]]]]; reflexivity. }
    rewrite Hid. cbn [negb].
    replace (existsb (String.eqb name) FuncComp._disallowed_varnames)
      with true; [reflexivity|].
    symmetry. apply existsb_exists. exists name. split; [assumption|].
    apply String.eqb_refl.
  - intros Hid. now rewrite Hid.
Qed.

Lemma check_var_name_passes_witness :
  (FuncComp._check_var_name "x_dot2" = inr tt <->
   FuncComp.identifier "x_dot2" = true
   /\ ~ In "x_dot2" FuncComp._disallowed_varnames)
  /\ (In "x_dot2" FuncComp._disallowed_varnames ->
      FuncComp._check_var_name "x_dot2"
      = inl (FuncComp.NameError_reserved "x_dot2"))
  /\ (FuncComp.identifier "x_dot2" = false ->
      FuncComp._check_var_name "x_dot2"
      = inl (FuncComp.NameError_not_valid "x_dot2")).
Proof. exact (check_var_name_passes "x_dot2"). Defined.

Section Metadata.

Variable V : Type.
Implicit Types (d kept : FuncComp.dict V) (k : string).

Lemma dict_get_set k k' (v : V) d :
  FuncComp.dict_get k (FuncComp.dict_set k' v d)
  = if String.eqb k' k then Some v else FuncComp.dict_get k d.
Proof.
  induction d as [|[x y] d IH]; cbn [FuncComp.dict_set FuncComp.dict_get].
  - reflexivity.
  - destruct (String.eqb_spec x k') as [-> | Hx];
      cbn [FuncComp.dict_get].
    + destruct (String.eqb k' k); reflexivity.
    + rewrite IH. destruct (String.eqb_spec x k) as [-> | _]; [|reflexivity].
      destruct (String.eqb_spec k' k) as [-> | _]; [congruence | reflexivity].
Qed.

Lemma dict_get_absent k d :
  ~ In k (map fst d) -> FuncComp.dict_get k d = None.
Proof.
  induction d as [|[x y] d IH]; [reflexivity|].
  cbn [map fst In FuncComp.dict_get]. intros Hout.
  destruct (String.eqb_spec x k) as [-> | _]; [tauto|].
  apply IH. tauto.
Qed.

Lemma in_set_add k k' (s : list string) :
  In k (FuncComp.set_add k' s) <-> k = k' \/ In k s.
Proof.
  unfold FuncComp.set_add.
  destruct (existsb (String.eqb k') s) eqn:Hin.
  - apply existsb_exists in Hin. destruct Hin as (x & Hx & Heq).
    apply String.eqb_eq in Heq. subst x. split; [auto|].
    intros [-> | H]; assumption.
  - rewrite in_app_iff. cbn [In]. split; [intros [H | [<- | []]] |]; auto.
    intros [-> | H]; auto.
Qed.

Lemma copy_loop_kept (keepers : string -> bool)
      (items : list (string * V)) kept (ignored : list string) k :
  NoDup (map fst items) ->
  FuncComp.dict_get k (fst (FuncComp.copy_loop keepers items kept ignored))
  = match (if keepers k then FuncComp.dict_get k items else None) with
    | Some v => Some v
    | None => FuncComp.dict_get k kept
    end.
Proof.
  revert kept ignored.
  induction items as [|[x y] items IH]; intros kept ignored Hnodup.
  - cbn [FuncComp.copy_loop fst FuncComp.dict_get]. now destruct (keepers k).
  - cbn [map fst] in Hnodup. inversion Hnodup as [|? ? Hx Hrest]; subst.
    cbn [FuncComp.copy_loop FuncComp.dict_get].
    destruct (keepers x) eqn:Hkx; rewrite (IH _ _ Hrest).
    + rewrite dict_get_set.
      destruct (String.eqb_spec x k) as [-> | _]; [|reflexivity].
      now rewrite Hkx, (dict_get_absent _ _ Hx).
    + destruct (String.eqb_spec x k) as [-> | _]; [|reflexivity].
      now rewrite Hkx.
Qed.

Lemma copy_loop_ignored (keepers : string -> bool)
      (items : list (string * V)) kept (ignored : list string) k :
  In k (snd (FuncComp.copy_loop keepers items kept ignored))
  <-> In k ignored \/ (In k (map fst items) /\ keepers k = false).
Proof.
  revert kept ignored.
  induction items as [|[x y] items IH]; intros kept ignored.
  - cbn [FuncComp.copy_loop snd map In]. tauto.
  - cbn [FuncComp.copy_loop map fst In].
    destruct (keepers x) eqn:Hkx; rewrite IH.
    + split; [tauto|]. intros [H | [[-> | H] Hk]]; [tauto | congruence | tauto].
    + rewrite in_set_add. split.
      * intros [[-> | H] | [H Hk]]; auto.
      * intros [H | [[<- | H] Hk]]; auto.
Qed.

(** X26.  [_copy_with_ignore] splits a dict by its keys: the new dict
    holds, with their values, the entries whose key is in [keepers] and
    no others, the returned set holds the keys that are not, and a
    warning is issued only when [warn] is set and a key of the dict is
    not in [keepers]. *)
Theorem copy_with_ignore_splits
        (dct : FuncComp.dict V) (keepers : string -> bool) (warn : bool) :
  NoDup (map fst dct) ->
  let '(kept, ignored, warning) :=
    FuncComp._copy_with_ignore dct keepers warn in
  (forall k, FuncComp.dict_get k kept
             = if keepers k then FuncComp.dict_get k dct else None)
  /\ (forall k, In k ignored <-> In k (map fst dct) /\ keepers k = false)
  /\ (warning = None <->
      warn = false \/ forall k, In k (map fst dct) -> keepers k = true).
Proof.
  intros Hnodup. unfold FuncComp._copy_with_ignore.
  pose proof (fun k => copy_loop_kept keepers dct [] [] k Hnodup) as Hkept.
  pose proof (fun k => copy_loop_ignored keepers dct [] [] k) as Hign.
  destruct (FuncComp.copy_loop keepers dct [] []) as [kept ignored].
  cbn [fst snd] in *. split; [|split].
  - intros k. rewrite Hkept. cbn [FuncComp.dict_get].
    destruct (keepers k); [|reflexivity].
    now destruct (FuncComp.dict_get k dct).
  - intros k. rewrite Hign. cbn [In]. tauto.
  - destruct warn; cbn [andb].
    + destruct ignored as [|x ignored]; cbn [negb].
      * split; [|reflexivity]. intros _. right. intros k Hin.
        destruct (keepers k) eqn:Hk; [reflexivity|].
        exfalso. apply (proj2 (Hign k)). auto.
      * split; [discriminate|]. intros [Hw | Hall]; [discriminate|].
        exfalso. destruct (proj1 (Hign x) (or_introl eq_refl)) as [[] | [Hin Hk]].
        rewrite (Hall x Hin) in Hk. discriminate.
    + split; auto.
Qed.

End Metadata.

Lemma copy_with_ignore_splits_witness :
  let '(kept, ignored, warning) :=
    FuncComp._copy_with_ignore
      [("units", 1); ("desc", 2); ("shape", 3); ("colour", 4)]
      (fun k => String.eqb k "units" || String.eqb k "shape"
                || String.eqb k "val")
      true in
  (forall k, FuncComp.dict_get k kept
             = if (String.eqb k "units" || String.eqb k "shape"
                   || String.eqb k "val")
               then FuncComp.dict_get k
                      [("units", 1); ("desc", 2); ("shape", 3); ("colour", 4)]
               else None)
  /\ (forall k, In k ignored <->
                In k (map fst
                        [("units", 1); ("desc", 2); ("shape", 3);
                         ("colour", 4)])
                /\ (String.eqb k "units" || String.eqb k "shape"
                    || String.eqb k "val") = false)
  /\ (warning = None <->
      true = false
      \/ forall k, In k (map fst
                           [("units", 1); ("desc", 2); ("shape", 3);
                            ("colour", 4)]) ->
                   (String.eqb k "units" || String.eqb k "shape"
                    || String.eqb k "val") = true).
Proof.
  apply (copy_with_ignore_splits nat
           [("units", 1); ("desc", 2); ("shape", 3); ("colour", 4)]
           (fun k => String.eqb k "units" || String.eqb k "shape"
                     || String.eqb k "val")
           true).
  repeat constructor; cbn [In]; intuition discriminate.
Defined.

(* ===================================================================== *)
(** ** Further properties: a directive inside a comment *)
(* ===================================================================== *)

Lemma commented_match_groups (opener gap kind arg flag closer : string) :
  group (commented_match opener gap kind arg flag closer) 2
  = group (directive_match "" kind arg flag) 2
  /\ group (commented_match opener gap kind arg flag closer) 3
     = group (directive_match "" kind arg flag) 3
  /\ group (commented_match opener gap kind arg flag closer) 4
     = group (directive_match "" kind arg flag) 4.
Proof.
  unfold commented_match, directive_match, with_group, with_flag.
  destruct opener, closer, flag; repeat split.
Qed.

Section Comments.

Context `{PyRuntime}.
Variable self : HtmlPreprocessor.
Variable fs : filesystem.

Lemma resolve_directive_groups
      (recurse : registry -> string -> result (string * registry))
      (loaded : registry) (m m' : re_match) :
  group m 2 = group m' 2 -> group m 3 = group m' 3 ->
  group m 4 = group m' 4 ->
  resolve_directive self fs recurse loaded m
  = resolve_directive self fs recurse loaded m'.
Proof.
  intros H2 H3 H4. unfold resolve_directive. now rewrite H2, H3, H4.
Qed.

(** X27.  A directive written inside a comment, [// <<...>>],
    [/* <<...>>*/] or [<!-- <<...>>-->], with the end of the comment
    directly after [>>], expands as the directive alone does: the start
    of the comment, the white space after it and the end of the comment
    are replaced together with the directive, and the delimiters play no
    part in what the directive resolves to. *)
Theorem commented_directive_in_context
        (d : nat) (loaded : registry)
        (opener gap kind arg flag closer before after : string) :
  comment_opener opener -> blank gap ->
  recognized (Some kind) -> argument arg -> written_flag flag ->
  comment_closer closer ->
  stays_before before -> stays_after after ->
  parse_contents self fs (S d) loaded
                 (before ++ commented_text opener gap kind arg flag closer
                    ++ after)
  = parse_contents self fs (S d) loaded
                   (before ++ directive_text kind arg flag ++ after).
Proof.
  intros Hop Hgap Hkind Harg Hflag Hcl Hb Ha.
  rewrite parse_contents_of_commented by assumption.
  change (before ++ directive_text kind arg flag ++ after)
    with (before ++ "" ++ directive_text kind arg flag ++ after).
  rewrite parse_contents_of_directive by (try assumption; reflexivity).
  destruct (commented_match_groups opener gap kind arg flag closer)
    as (H2 & H3 & H4).
  now rewrite (resolve_directive_groups _ loaded _ _ H2 H3 H4).
Qed.

End Comments.

Lemma commented_directive_in_context_witness :
  @parse_contents Demo.runtime (Site.pp false) Site.files 2 []
    ("<ul>" ++ commented_text "<!--" " " "insert" "item.html" "" "-->"
       ++ "</ul>")
  = @parse_contents Demo.runtime (Site.pp false) Site.files 2 []
      ("<ul>" ++ directive_text "insert" "item.html" "" ++ "</ul>").
Proof.
  apply (@commented_directive_in_context Demo.runtime (Site.pp false)
           Site.files 1 [] "<!--" " " "insert" "item.html" "" "-->"
           "<ul>" "</ul>").
  - right. right. right. reflexivity.
  - reflexivity.
  - left. reflexivity.
  - split; [discriminate | split; reflexivity].
  - left. reflexivity.
  - right. right. reflexivity.
  - split; reflexivity.
  - repeat split.
Defined.
